(** * MoleculeView: scene-object cache and camera-fit controller

    A shallow embedding of [useSceneObjects] and [MoleculeView]
    (viewer/MoleculeView.tsx).  The React hooks the component relies on
    ([useMemo], [useEffect], [useRef], [useState]) are modelled by explicit
    hook slots that persist between render passes; the browser scheduler
    ([setTimeout], [requestAnimationFrame]) by queues of pending callbacks;
    [try]/[catch] by a small state-and-exception monad.  The mesh builders of
    "pdb-parser" and the bounds api of drei are collaborators of the
    component: the former are taken as parameters, the outcome of the latter
    is chosen by the environment.  The variant of the component with a
    single "Render" panel is embedded next to it, in [SpheresOnly]. *)

From Stdlib Require Import List Arith Bool ZArith String Lia FinFun.

Import ListNotations.

Open Scope string_scope.

Open Scope list_scope.

Open Scope nat_scope.

Set Implicit Arguments.

(* ===================================================================== *)
(** ** JavaScript values that the component stores and compares *)

(** Identity of a heap object (a scene, an options literal, a three.js
    object, a geometry, a material). *)
Definition Ref := nat.

(** Control values of type number.  They are only stored, forwarded and
    compared; fractional ones (radius scale, thickness, ...) are written in
    hundredths. *)
Definition number := Z.

Inductive Representation := spheres | ribbon_tube | ribbon_flat.

Inductive MaterialKind := basic | lambert | standard.

Definition Representation_eq_dec (a b : Representation) : {a = b} + {a <> b}.
Proof. decide equality. Defined.

Definition MaterialKind_eq_dec (a b : MaterialKind) : {a = b} + {a <> b}.
Proof. decide equality. Defined.

Definition is_spheres (r : Representation) : bool :=
  if Representation_eq_dec r spheres then true else false.

(** An entry of a hook dependency array. *)
Inductive Dep :=
| DNull
| DUndefined
| DBool (b : bool)
| DNum (z : number)
| DStr (s : string)
| DRepr (r : Representation)
| DKind (k : MaterialKind)
| DRef (r : Ref).

(** [Object.is]: primitives by value, objects by identity. *)
Definition Object_is (a b : Dep) : {a = b} + {a <> b}.
Proof.
  decide equality;
    auto using Bool.bool_dec, Z.eq_dec, string_dec, Nat.eq_dec,
               Representation_eq_dec, MaterialKind_eq_dec.
Defined.

(** React's comparison of two dependency arrays. *)
Definition same_deps (prev next : list Dep) : bool :=
  if list_eq_dec Object_is prev next then true else false.

(** A hook slot: the dependency array of the last run and what it kept. *)
Definition Slot (A : Type) := option (list Dep * A).

(** [useMemo]: the stored value is reused when the dependency array is
    unchanged; otherwise [compute] runs.  [compute] allocates identities
    from a counter and reports the calls it makes. *)
Definition useMemo {A E : Type} (slot : Slot A) (deps : list Dep)
    (compute : Ref -> A * Ref * list E) (n : Ref) : A * Slot A * Ref * list E :=
  match slot with
  | Some (prev, v) =>
      if same_deps prev deps then (v, slot, n, [])
      else let '(v', n', ev) := compute n in (v', Some (deps, v'), n', ev)
  | None => let '(v', n', ev) := compute n in (v', Some (deps, v'), n', ev)
  end.

(** [useEffect]: the effect runs after the first render pass and after each
    pass whose dependency array differs from the stored one; the cleanup
    returned by the previous run is called first. *)
Definition effect_due {A : Type} (slot : Slot A) (deps : list Dep) : bool :=
  match slot with
  | Some (prev, _) => negb (same_deps prev deps)
  | None => true
  end.

(** The value a memo slot holds, [empty] before the first render pass. *)
Definition slot_value {A} (empty : A) (m : Slot A) : A :=
  match m with Some (_, a) => a | None => empty end.

(** What the cleanup of the last run closed over. *)
Definition captured {A : Type} (slot : Slot A) : option A :=
  match slot with Some (_, x) => Some x | None => None end.

(* ===================================================================== *)
(** ** Options *)

Record AtomMeshOptions := {
  sphereDetail : option number;
  materialKind : option MaterialKind;
  radiusScale : option number
}.

Record BackboneLineOptions := { color : option number }.

(** A value of type [T | false] with [T] an object type: the object comes
    with the identity of the literal that created it. *)
Inductive OrFalse (T : Type) :=
| IsFalse
| Obj (id : Ref) (v : T).

Arguments IsFalse {T}.

Definition dep_of_option {T} (o : OrFalse T) : Dep :=
  match o with IsFalse => DBool false | Obj id _ => DRef id end.

Record SceneBuildOptions := {
  atoms : OrFalse AtomMeshOptions;
  bonds : bool;
  backbone : OrFalse BackboneLineOptions
}.

(** The options [makeAtomsMesh] receives, after [??] defaulting. *)
Record AtomMeshArgs := {
  arg_sphereDetail : number;
  arg_materialKind : MaterialKind;
  arg_radiusScale : number
}.

Record RibbonArgs := {
  radius : number;
  radialSegments : number;
  tubularSegmentsPerPoint : number;
  ribbon_materialKind : MaterialKind;
  ribbon_color : number
}.

Record FlatRibbonArgs := {
  width : number;
  segmentsPerPoint : number;
  flat_materialKind : MaterialKind;
  flat_color : number;
  doubleSided : bool;
  flat_thickness : number
}.

(* ===================================================================== *)
(** ** three.js objects *)

(** The three material properties the atom override looks at; [None] is
    [undefined]. *)
Record MaterialProps := {
  vertexColors : option bool;
  mat_color : option string;
  needsUpdate : option bool
}.

(** An [InstancedMesh] or [LineSegments]: one geometry, one material. *)
Record Primitive := {
  prim_id : Ref;
  geometry : Ref;
  material : Ref;
  props : MaterialProps
}.

Inductive MaterialSlot :=
| OneMaterial (m : Ref)
| MaterialArray (ms : list Ref).

(** An [Object3D] with its children; [mesh] is [Some] exactly when the
    object is an instance of [Mesh], and then holds its geometry and its
    material or material array. *)
#[warnings="-register-all"]
Inductive Object3D :=
| Node (mesh : option (Ref * MaterialSlot)) (children : list Object3D).

(** [Object3D.traverse]: the object itself, then every descendant. *)
Fixpoint traverse (o : Object3D) : list (option (Ref * MaterialSlot)) :=
  match o with
  | Node m cs => m :: flat_map traverse cs
  end.

Definition slot_materials (s : MaterialSlot) : list Ref :=
  match s with OneMaterial m => [m] | MaterialArray ms => ms end.

Definition mesh_resources (m : option (Ref * MaterialSlot)) : list Ref :=
  match m with
  | Some (g, s) => g :: slot_materials s
  | None => []
  end.

(** Geometry and materials of every mesh of a subtree, in traversal order. *)
Definition object_resources (o : Object3D) : list Ref :=
  flat_map mesh_resources (traverse o).

(** The ribbon group: its identity and its subtree. *)
Record Cartoon := {
  cartoon_id : Ref;
  cartoon_obj : Object3D
}.

(* ===================================================================== *)
(** ** The mesh builders of pdb-parser *)

(** Each builder returns [None] for [undefined].  A builder constructs new
    three.js objects on every call: the model gives the result fresh
    identities.  The ribbon builders describe the group they return with
    resource labels counted from zero; [relocate] turns the labels into
    fresh identities, so two meshes that share a label share the resource. *)
Record MeshBuilders := {
  makeAtomsMesh : Ref -> AtomMeshArgs -> option MaterialProps;
  makeBondLines : Ref -> option MaterialProps;
  makeBackboneLines : Ref -> number -> option MaterialProps;
  makeRibbonMesh : Ref -> RibbonArgs -> option Object3D;
  makeFlatRibbonMesh : Ref -> FlatRibbonArgs -> option Object3D
}.

(** Labels to identities, from [base] on. *)
Definition relocate_slot (base : Ref) (s : MaterialSlot) : MaterialSlot :=
  match s with
  | OneMaterial m => OneMaterial (base + m)
  | MaterialArray ms => MaterialArray (map (Nat.add base) ms)
  end.

Definition relocate_mesh (base : Ref) (m : option (Ref * MaterialSlot))
  : option (Ref * MaterialSlot) :=
  match m with
  | Some (g, s) => Some (base + g, relocate_slot base s)
  | None => None
  end.

Fixpoint relocate (base : Ref) (o : Object3D) : Object3D :=
  match o with
  | Node m cs => Node (relocate_mesh base m) (map (relocate base) cs)
  end.

(** One more than the largest label of a list. *)
Definition span (l : list Ref) : nat := fold_right (fun r acc => Nat.max (S r) acc) 0 l.

(** A new primitive, or ribbon group, with identities from [n] on, and the
    next free identity. *)
Definition alloc_primitive (n : Ref) (m : MaterialProps) : Primitive * Ref :=
  ({| prim_id := n; geometry := S n; material := S (S n); props := m |}, 3 + n).

Definition alloc_cartoon (n : Ref) (o : Object3D) : Cartoon * Ref :=
  ({| cartoon_id := n; cartoon_obj := relocate (S n) o |},
   S n + span (object_resources o)).

(* ===================================================================== *)
(** ** SceneObjectCache: [useSceneObjects] and the ribbon memo *)

(** What [useSceneObjects] returns. *)
Record SceneObjects := {
  obj_atoms : option Primitive;
  obj_bonds : option Primitive;
  obj_backbone : option Primitive
}.

(** What the cache asks of its collaborators: builder calls, with what they
    returned, and [dispose()] calls on geometries and materials. *)
Inductive CacheCall :=
| CallMakeAtoms (scene : Ref) (a : AtomMeshArgs) (res : option Primitive)
| CallMakeBonds (scene : Ref) (res : option Primitive)
| CallMakeBackbone (scene : Ref) (c : number) (res : option Primitive)
| CallMakeRibbon (scene : Ref) (a : RibbonArgs) (res : option Cartoon)
| CallMakeFlatRibbon (scene : Ref) (a : FlatRibbonArgs) (res : option Cartoon)
| Dispose (r : Ref).

Definition no_objects : SceneObjects :=
  {| obj_atoms := None; obj_bonds := None; obj_backbone := None |}.

(** [a ?? d] *)
Definition nullish {A} (a : option A) (d : A) : A :=
  match a with Some x => x | None => d end.

(** The override applied to the atom material: each assignment is guarded
    by the presence of the property. *)
Definition force_white (m : MaterialProps) : MaterialProps :=
  {| vertexColors := match vertexColors m with Some _ => Some false | None => None end;
     mat_color := match mat_color m with Some _ => Some "#ffffff" | None => None end;
     needsUpdate := match needsUpdate m with Some _ => Some true | None => None end |}.

Definition atom_args (o : AtomMeshOptions) : AtomMeshArgs :=
  {| arg_sphereDetail := nullish (sphereDetail o) 16%Z;
     arg_materialKind := nullish (materialKind o) standard;
     arg_radiusScale := nullish (radiusScale o) 100%Z |}.

Definition build_primitive (res : option MaterialProps) (n : Ref)
  : option Primitive * Ref :=
  match res with
  | Some m => let (p, n') := alloc_primitive n m in (Some p, n')
  | None => (None, n)
  end.

Definition tube_args (kind : MaterialKind) : RibbonArgs :=
  {| radius := 40; radialSegments := 12; tubularSegmentsPerPoint := 6;
     ribbon_materialKind := kind; ribbon_color := 16777215 |}%Z.

Definition flat_args (kind : MaterialKind) (thickness : number) : FlatRibbonArgs :=
  {| width := 120; segmentsPerPoint := 6; flat_materialKind := kind;
     flat_color := 16777215; doubleSided := true;
     flat_thickness := thickness |}%Z.

Section Builders.

Variable pdb : MeshBuilders.

Definition build_atoms (s : Ref) (o : OrFalse AtomMeshOptions) (n : Ref)
  : option Primitive * Ref * list CacheCall :=
  match o with
  | IsFalse => (None, n, [])
  | Obj _ a =>
      let args := atom_args a in
      let (p, n') :=
        build_primitive (option_map force_white (makeAtomsMesh pdb s args)) n in
      (p, n', [CallMakeAtoms s args p])
  end.

Definition build_bonds (s : Ref) (on : bool) (n : Ref)
  : option Primitive * Ref * list CacheCall :=
  if on then
    let (p, n') := build_primitive (makeBondLines pdb s) n in
    (p, n', [CallMakeBonds s p])
  else (None, n, []).

Definition build_backbone (s : Ref) (o : OrFalse BackboneLineOptions) (n : Ref)
  : option Primitive * Ref * list CacheCall :=
  match o with
  | IsFalse => (None, n, [])
  | Obj _ b =>
      let c := nullish (color b) 16777215%Z in
      let (p, n') := build_primitive (makeBackboneLines pdb s c) n in
      (p, n', [CallMakeBackbone s c p])
  end.

(** The callback of the [useMemo] in [useSceneObjects]. *)
Definition build_objects (scene : option Ref) (opts : SceneBuildOptions) (n : Ref)
  : SceneObjects * Ref * list CacheCall :=
  match scene with
  | None => (no_objects, n, [])
  | Some s =>
      let '(a, n1, e1) := build_atoms s (atoms opts) n in
      let '(b, n2, e2) := build_bonds s (bonds opts) n1 in
      let '(k, n3, e3) := build_backbone s (backbone opts) n2 in
      ({| obj_atoms := a; obj_bonds := b; obj_backbone := k |}, n3, e1 ++ e2 ++ e3)
  end.

Definition build_group (res : option Object3D) (n : Ref) : option Cartoon * Ref :=
  match res with
  | Some o => let (c, n') := alloc_cartoon n o in (Some c, n')
  | None => (None, n)
  end.

(** The callback of the ribbon [useMemo] in [MoleculeView]. *)
Definition build_cartoon (scene : option Ref) (rep : Representation)
    (kind : MaterialKind) (thickness : number) (n : Ref)
  : option Cartoon * Ref * list CacheCall :=
  match scene with
  | None => (None, n, [])
  | Some s =>
      match rep with
      | ribbon_tube =>
          let args := tube_args kind in
          let (c, n') := build_group (makeRibbonMesh pdb s args) n in
          (c, n', [CallMakeRibbon s args c])
      | ribbon_flat =>
          let args := flat_args kind thickness in
          let (c, n') := build_group (makeFlatRibbonMesh pdb s args) n in
          (c, n', [CallMakeFlatRibbon s args c])
      | spheres => (None, n, [])
      end
  end.

End Builders.

Definition dep_of_scene (scene : option Ref) : Dep :=
  match scene with Some s => DRef s | None => DNull end.

Definition dep_of_primitive (p : option Primitive) : Dep :=
  match p with Some p => DRef (prim_id p) | None => DUndefined end.

Definition dep_of_cartoon (c : option Cartoon) : Dep :=
  match c with Some c => DRef (cartoon_id c) | None => DNull end.

(** [[scene, opts.atoms, opts.bonds, opts.backbone]] *)
Definition objects_deps (scene : option Ref) (opts : SceneBuildOptions) : list Dep :=
  [dep_of_scene scene; dep_of_option (atoms opts); DBool (bonds opts);
   dep_of_option (backbone opts)].

(** [[objects.atoms, objects.bonds, objects.backbone]] *)
Definition dispose_deps (o : SceneObjects) : list Dep :=
  [dep_of_primitive (obj_atoms o); dep_of_primitive (obj_bonds o);
   dep_of_primitive (obj_backbone o)].

(** [[scene, common.representation, common.materialKind, ribbon.thickness]] *)
Definition cartoon_deps (scene : option Ref) (rep : Representation)
    (kind : MaterialKind) (thickness : number) : list Dep :=
  [dep_of_scene scene; DRepr rep; DKind kind; DNum thickness].

(** The cleanup of the effect in [useSceneObjects]. *)
Definition dispose_primitive (p : option Primitive) : list CacheCall :=
  match p with
  | Some p => [Dispose (geometry p); Dispose (material p)]
  | None => []
  end.

Definition dispose_objects (o : SceneObjects) : list CacheCall :=
  dispose_primitive (obj_atoms o) ++ dispose_primitive (obj_bonds o)
    ++ dispose_primitive (obj_backbone o).

(** The cleanup of the ribbon effect: the callback handed to [traverse]
    disposes the geometry and the material, or each material of the array,
    of every [Mesh]. *)
Definition dispose_mesh (m : option (Ref * MaterialSlot)) : list CacheCall :=
  match m with
  | Some (g, OneMaterial x) => [Dispose g; Dispose x]
  | Some (g, MaterialArray ms) => Dispose g :: map Dispose ms
  | None => []
  end.

Definition dispose_cartoon (c : option Cartoon) : list CacheCall :=
  match c with
  | None => []
  | Some c => flat_map dispose_mesh (traverse (cartoon_obj c))
  end.

(** Hook state of the cache between render passes. *)
Record Cache := {
  next_ref : Ref;
  memo_objects : Slot SceneObjects;
  eff_objects : Slot SceneObjects;
  memo_cartoon : Slot (option Cartoon);
  eff_cartoon : Slot (option Cartoon);
  calls : list CacheCall
}.

Definition cleanup_calls {A} (dispose : A -> list CacheCall) (x : option A)
  : list CacheCall :=
  match x with Some a => dispose a | None => [] end.

(* ===================================================================== *)
(** ** CameraFitController: scheduler, bounds api, exceptions *)

(** What [api.refresh] is asked to measure: [api.refresh()] or
    [api.refresh(root)]. *)
Inductive FitTarget := WholeScene | ContentGroup.

(** The callbacks the component hands to the scheduler.  The two callbacks
    of the reload effect close over the variables [raf1], [raf2], [raf3] of
    the effect run that created them ([inst]) and over [sourceUrl]. *)
Inductive Callback :=
| InitialFit
| FirstFrame (inst : nat) (src : string)
| DoFit (inst : nat) (src : string).

(** What the controller log records: a scheduled callback starting to run,
    and the calls into three.js and drei, in order. *)
Inductive FitEvent :=
| Fired (h : nat) (cb : Callback)
| ComputeBoundingBox (g : Ref)
| ComputeBoundingSphere (g : Ref)
| Refresh (t : FitTarget)
| FitCall (t : FitTarget).

(** [let raf1 = 0, raf2 = 0, raf3 = 0] of one run of the reload effect. *)
Record RafVars := { raf1 : nat; raf2 : nat; raf3 : nat }.

(** Which of the calls into three.js and drei throw during one scheduler
    turn; chosen by the environment. *)
Record Outcome := {
  bounds_throw : bool;
  refresh_throws : bool;
  fit_throws : bool
}.

(** State of the controller between scheduler turns: the refs [did],
    [lastFittedSource] and [contentRef] (the children of the content group,
    [None] while the group is not attached); the slots of the two effects;
    the variables of every run of the reload effect; the pending timeouts
    and frame requests with their handles, which come from one counter that
    starts at 1; the camera, as the targets it was framed on, latest first;
    the log; the exceptions nobody caught. *)
Record Fit := {
  next_handle : nat;
  did : bool;
  lastFittedSource : option string;
  eff_initial : Slot (option nat);
  eff_reload : Slot (option nat);
  closures : list RafVars;
  timers : list (nat * Callback);
  rafs : list (nat * Callback);
  contentRef : option (list Object3D);
  camera : list FitTarget;
  fit_log : list FitEvent;
  uncaught : list string
}.

Definition set_next_handle x f := {| next_handle := x; did := did f; lastFittedSource := lastFittedSource f; eff_initial := eff_initial f; eff_reload := eff_reload f; closures := closures f; timers := timers f; rafs := rafs f; contentRef := contentRef f; camera := camera f; fit_log := fit_log f; uncaught := uncaught f |}.

Definition set_did x f := {| next_handle := next_handle f; did := x; lastFittedSource := lastFittedSource f; eff_initial := eff_initial f; eff_reload := eff_reload f; closures := closures f; timers := timers f; rafs := rafs f; contentRef := contentRef f; camera := camera f; fit_log := fit_log f; uncaught := uncaught f |}.

Definition set_lastFittedSource x f := {| next_handle := next_handle f; did := did f; lastFittedSource := x; eff_initial := eff_initial f; eff_reload := eff_reload f; closures := closures f; timers := timers f; rafs := rafs f; contentRef := contentRef f; camera := camera f; fit_log := fit_log f; uncaught := uncaught f |}.

Definition set_eff_initial x f := {| next_handle := next_handle f; did := did f; lastFittedSource := lastFittedSource f; eff_initial := x; eff_reload := eff_reload f; closures := closures f; timers := timers f; rafs := rafs f; contentRef := contentRef f; camera := camera f; fit_log := fit_log f; uncaught := uncaught f |}.

Definition set_eff_reload x f := {| next_handle := next_handle f; did := did f; lastFittedSource := lastFittedSource f; eff_initial := eff_initial f; eff_reload := x; closures := closures f; timers := timers f; rafs := rafs f; contentRef := contentRef f; camera := camera f; fit_log := fit_log f; uncaught := uncaught f |}.

Definition set_closures x f := {| next_handle := next_handle f; did := did f; lastFittedSource := lastFittedSource f; eff_initial := eff_initial f; eff_reload := eff_reload f; closures := x; timers := timers f; rafs := rafs f; contentRef := contentRef f; camera := camera f; fit_log := fit_log f; uncaught := uncaught f |}.

Definition set_timers x f := {| next_handle := next_handle f; did := did f; lastFittedSource := lastFittedSource f; eff_initial := eff_initial f; eff_reload := eff_reload f; closures := closures f; timers := x; rafs := rafs f; contentRef := contentRef f; camera := camera f; fit_log := fit_log f; uncaught := uncaught f |}.

Definition set_rafs x f := {| next_handle := next_handle f; did := did f; lastFittedSource := lastFittedSource f; eff_initial := eff_initial f; eff_reload := eff_reload f; closures := closures f; timers := timers f; rafs := x; contentRef := contentRef f; camera := camera f; fit_log := fit_log f; uncaught := uncaught f |}.

Definition set_contentRef x f := {| next_handle := next_handle f; did := did f; lastFittedSource := lastFittedSource f; eff_initial := eff_initial f; eff_reload := eff_reload f; closures := closures f; timers := timers f; rafs := rafs f; contentRef := x; camera := camera f; fit_log := fit_log f; uncaught := uncaught f |}.

Definition set_camera x f := {| next_handle := next_handle f; did := did f; lastFittedSource := lastFittedSource f; eff_initial := eff_initial f; eff_reload := eff_reload f; closures := closures f; timers := timers f; rafs := rafs f; contentRef := contentRef f; camera := x; fit_log := fit_log f; uncaught := uncaught f |}.

Definition set_fit_log x f := {| next_handle := next_handle f; did := did f; lastFittedSource := lastFittedSource f; eff_initial := eff_initial f; eff_reload := eff_reload f; closures := closures f; timers := timers f; rafs := rafs f; contentRef := contentRef f; camera := camera f; fit_log := x; uncaught := uncaught f |}.

Definition set_uncaught x f := {| next_handle := next_handle f; did := did f; lastFittedSource := lastFittedSource f; eff_initial := eff_initial f; eff_reload := eff_reload f; closures := closures f; timers := timers f; rafs := rafs f; contentRef := contentRef f; camera := camera f; fit_log := fit_log f; uncaught := x |}.

(** *** Computations over the controller state that may throw *)

Inductive Completion (A : Type) :=
| Normal (a : A)
| Abrupt (e : string).

Arguments Abrupt {A}.

Definition Run (A : Type) := Fit -> Completion A * Fit.

Definition ret {A} (a : A) : Run A := fun f => (Normal a, f).

Definition bind {A B} (c : Run A) (k : A -> Run B) : Run B :=
  fun f => match c f with
           | (Normal a, f') => k a f'
           | (Abrupt e, f') => (Abrupt e, f')
           end.

Definition throw {A} (e : string) : Run A := fun f => (Abrupt e, f).

(** [try { c } catch { handler }] *)
Definition try_catch {A} (c : Run A) (handler : string -> Run A) : Run A :=
  fun f => match c f with
           | (Normal a, f') => (Normal a, f')
           | (Abrupt e, f') => handler e f'
           end.

Definition read {A} (g : Fit -> A) : Run A := fun f => (Normal (g f), f).

Definition modify (g : Fit -> Fit) : Run unit := fun f => (Normal tt, g f).

Declare Scope run_scope.

Delimit Scope run_scope with run.

Notation "x <- c ;; k" := (bind c (fun x => k))
  (at level 61, c at next level, right associativity) : run_scope.

Notation "c ;; k" := (bind c (fun _ => k))
  (at level 61, right associativity) : run_scope.

Open Scope run_scope.

Fixpoint for_each {A} (l : list A) (k : A -> Run unit) : Run unit :=
  match l with
  | [] => ret tt
  | a :: r => k a ;; for_each r k
  end.

Definition when (b : bool) (c : Run unit) : Run unit := if b then c else ret tt.

Definition log (e : FitEvent) : Run unit :=
  modify (fun f => set_fit_log (fit_log f ++ [e]) f).

(** *** Scheduler *)

Definition enqueue (cb : Callback) (q : list (nat * Callback)) (h : nat) :=
  q ++ [(h, cb)].

Definition dequeue (h : nat) (q : list (nat * Callback)) :=
  filter (fun e => negb (fst e =? h)) q.

Definition requestAnimationFrame (cb : Callback) : Run nat :=
  fun f => let h := next_handle f in
           (Normal h, set_rafs (enqueue cb (rafs f) h) (set_next_handle (S h) f)).

Definition cancelAnimationFrame (h : nat) : Run unit :=
  modify (fun f => set_rafs (dequeue h (rafs f)) f).

Definition setTimeout (cb : Callback) : Run nat :=
  fun f => let h := next_handle f in
           (Normal h, set_timers (enqueue cb (timers f) h) (set_next_handle (S h) f)).

Definition clearTimeout (h : nat) : Run unit :=
  modify (fun f => set_timers (dequeue h (timers f)) f).

(** *** The closure variables [raf1], [raf2], [raf3] *)

Definition no_rafs : RafVars := {| raf1 := 0; raf2 := 0; raf3 := 0 |}.

Definition vars_of (inst : nat) (f : Fit) : RafVars := nth inst (closures f) no_rafs.

Fixpoint update_nth {A} (i : nat) (g : A -> A) (l : list A) : list A :=
  match l, i with
  | [], _ => []
  | a :: r, 0 => g a :: r
  | a :: r, S j => a :: update_nth j g r
  end.

Definition assign (inst : nat) (g : RafVars -> RafVars) : Run unit :=
  modify (fun f => set_closures (update_nth inst g (closures f)) f).

Definition with_raf1 (h : nat) (v : RafVars) := {| raf1 := h; raf2 := raf2 v; raf3 := raf3 v |}.

Definition with_raf2 (h : nat) (v : RafVars) := {| raf1 := raf1 v; raf2 := h; raf3 := raf3 v |}.

Definition with_raf3 (h : nat) (v : RafVars) := {| raf1 := raf1 v; raf2 := raf2 v; raf3 := h |}.

(** [let raf1 = 0, raf2 = 0, raf3 = 0] of a new run of the reload effect. *)
Definition new_closure : Run nat :=
  fun f => (Normal (List.length (closures f)), set_closures (closures f ++ [no_rafs]) f).

(** *** Calls into three.js and drei *)

Definition computeBoundingBox (o : Outcome) (g : Ref) : Run unit :=
  log (ComputeBoundingBox g) ;;
  if bounds_throw o then throw "computeBoundingBox" else ret tt.

Definition computeBoundingSphere (o : Outcome) (g : Ref) : Run unit :=
  log (ComputeBoundingSphere g) ;;
  if bounds_throw o then throw "computeBoundingSphere" else ret tt.

(** [api.refresh(target).fit()]: the camera moves only when [fit] returns. *)
Definition refresh_fit (o : Outcome) (t : FitTarget) : Run unit :=
  log (Refresh t) ;;
  (if refresh_throws o then throw "refresh" else ret tt) ;;
  log (FitCall t) ;;
  if fit_throws o then throw "fit"
  else modify (fun f => set_camera (t :: camera f) f).

(** *** The callbacks *)

(** Body of the timeout of the initial-fit effect. *)
Definition initialFit (o : Outcome) : Run unit :=
  try_catch (refresh_fit o WholeScene) (fun _ => ret tt) ;;
  modify (set_did true).

(** The callback handed to [root.traverse] in [doFit]. *)
Definition recompute_bounds (o : Outcome) (m : option (Ref * MaterialSlot)) : Run unit :=
  match m with
  | Some (g, _) => computeBoundingBox o g ;; computeBoundingSphere o g
  | None => ret tt
  end.

(** The [try] block of [doFit]. *)
Definition doFit_try (o : Outcome) (inst : nat) (src : string) : Run unit :=
  root <- read contentRef ;;
  match root with
  | Some children =>
      if List.length children =? 0 then
        h <- requestAnimationFrame (DoFit inst src) ;;
        assign inst (with_raf3 h)
      else
        for_each (traverse (Node None children)) (recompute_bounds o) ;;
        refresh_fit o ContentGroup ;;
        modify (set_lastFittedSource (Some src))
  | None =>
      refresh_fit o WholeScene ;;
      modify (set_lastFittedSource (Some src))
  end.

Definition doFit (o : Outcome) (inst : nat) (src : string) : Run unit :=
  try_catch (doFit_try o inst src) (fun _ => ret tt).

(** The callback of the first [requestAnimationFrame]. *)
Definition firstFrame (inst : nat) (src : string) : Run unit :=
  h <- requestAnimationFrame (DoFit inst src) ;;
  assign inst (with_raf2 h).

Definition call (o : Outcome) (cb : Callback) : Run unit :=
  match cb with
  | InitialFit => initialFit o
  | FirstFrame inst src => firstFrame inst src
  | DoFit inst src => doFit o inst src
  end.

(** Runs a computation to its end; an exception that reaches the scheduler
    or React is recorded as uncaught. *)
Definition exec {A} (c : Run A) (f : Fit) : Fit :=
  match c f with
  | (Normal _, f') => f'
  | (Abrupt e, f') => set_uncaught (uncaught f' ++ [e]) f'
  end.

Definition fire (o : Outcome) (f : Fit) (e : nat * Callback) : Fit :=
  exec (log (Fired (fst e) (snd e)) ;; call o (snd e)) f.

(** One animation frame: the callbacks pending at its start run in order;
    those they request wait for the next frame. *)
Definition frame (o : Outcome) (f : Fit) : Fit :=
  fold_left (fire o) (rafs f) (set_rafs [] f).

(** The timer task: the pending timeouts run. *)
Definition timeout (o : Outcome) (f : Fit) : Fit :=
  fold_left (fire o) (timers f) (set_timers [] f).

(** *** The two effects *)

(** Initial-fit effect; the result is the handle its cleanup closes over,
    [None] when the effect returns no cleanup. *)
Definition initial_effect : Run (option nat) :=
  d <- read did ;;
  if d then ret None
  else t <- setTimeout InitialFit ;; ret (Some t).

Definition initial_cleanup (t : option nat) : Run unit :=
  match t with
  | Some t => clearTimeout t
  | None => ret tt
  end.

Definition same_source (last : option string) (src : string) : bool :=
  match last with
  | Some s => if string_dec s src then true else false
  | None => false
  end.

(** Reload effect; the result is the effect run whose variables the cleanup
    closes over. *)
Definition reload_effect (scene : option Ref) (loading : bool) (src : string)
  : Run (option nat) :=
  match scene with
  | None => ret None
  | Some _ =>
      if loading then ret None
      else
        last <- read lastFittedSource ;;
        if same_source last src then ret None
        else
          inst <- new_closure ;;
          h <- requestAnimationFrame (FirstFrame inst src) ;;
          assign inst (with_raf1 h) ;;
          ret (Some inst)
  end.

Definition reload_cleanup (c : option nat) : Run unit :=
  match c with
  | None => ret tt
  | Some inst =>
      v <- read (vars_of inst) ;;
      when (negb (raf1 v =? 0)) (cancelAnimationFrame (raf1 v)) ;;
      v <- read (vars_of inst) ;;
      when (negb (raf2 v =? 0)) (cancelAnimationFrame (raf2 v)) ;;
      v <- read (vars_of inst) ;;
      when (negb (raf3 v =? 0)) (cancelAnimationFrame (raf3 v))
  end.

Definition initial_deps (api : Ref) : list Dep := [DRef api].

Definition reload_deps (scene : option Ref) (src : string) (loading : bool)
    (api : Ref) : list Dep :=
  [dep_of_scene scene; DStr src; DBool loading; DRef api].

Definition flatten {A} (x : option (option A)) : option A :=
  match x with Some y => y | None => None end.

(** Commit of a render pass, controller part: the ref of the content group
    is attached, the cleanups of the effects whose dependencies changed run,
    then those effects run. *)
Definition commit_fit (scene : option Ref) (src : string) (loading : bool)
    (api : Ref) (content : option (list Object3D)) : Run unit :=
  modify (set_contentRef content) ;;
  si <- read eff_initial ;;
  sr <- read eff_reload ;;
  let due_i := effect_due si (initial_deps api) in
  let due_r := effect_due sr (reload_deps scene src loading api) in
  when due_i (initial_cleanup (flatten (captured si))) ;;
  when due_r (reload_cleanup (flatten (captured sr))) ;;
  when due_i (t <- initial_effect ;;
              modify (set_eff_initial (Some (initial_deps api, t)))) ;;
  when due_r (c <- reload_effect scene loading src ;;
              modify (set_eff_reload (Some (reload_deps scene src loading api, c)))).

(** Unmount: the cleanups of both effects run and the hook state is gone. *)
Definition unmount_fit : Run unit :=
  si <- read eff_initial ;;
  sr <- read eff_reload ;;
  initial_cleanup (flatten (captured si)) ;;
  reload_cleanup (flatten (captured sr)) ;;
  modify (set_eff_initial None) ;;
  modify (set_eff_reload None) ;;
  modify (set_contentRef None).

(* ===================================================================== *)
(** ** ViewOrchestrator: [MoleculeView] *)

(** The values of the control panel ("Common", "Overlays", "Spheres",
    "Ribbon"). *)
Record Controls := {
  representation : Representation;
  common_materialKind : MaterialKind;
  background : string;
  overlay_atoms : bool;
  overlay_bonds : bool;
  overlay_backbone : bool;
  spheres_sphereDetail : number;
  spheres_radiusScale : number;
  ribbon_thickness : number
}.

(** What the hooks owned by collaborators return in one render pass:
    [useControls], [useMolScene], [useBounds], and whether the canvas has
    attached the content group to its ref. *)
Record Props := {
  controls : Controls;
  scene : option Ref;
  loading : bool;
  error : option string;
  api : Ref;
  attached : bool
}.

(** The argument of [useSceneObjects] in [MoleculeView]; each object
    literal is a new object. *)
Definition derive_options (c : Controls) (n : Ref) : SceneBuildOptions * Ref :=
  let (a, n1) :=
    if overlay_atoms c && is_spheres (representation c)
    then (Obj n {| sphereDetail := Some (spheres_sphereDetail c);
                   materialKind := Some (common_materialKind c);
                   radiusScale := Some (spheres_radiusScale c) |}, S n)
    else (IsFalse, n) in
  let (b, n2) :=
    if overlay_backbone c && is_spheres (representation c)
    then (Obj n1 {| color := None |}, S n1)
    else (IsFalse, n1) in
  ({| atoms := a; bonds := overlay_bonds c; backbone := b |}, n2).

Definition set_next_ref x c := {| next_ref := x; memo_objects := memo_objects c; eff_objects := eff_objects c; memo_cartoon := memo_cartoon c; eff_cartoon := eff_cartoon c; calls := calls c |}.

(** [useSceneObjects], render phase. *)
Definition useSceneObjects (pdb : MeshBuilders) (scene : option Ref)
    (opts : SceneBuildOptions) (c : Cache) : SceneObjects * Cache :=
  let '(objects, slot, n, ev) :=
    useMemo (memo_objects c) (objects_deps scene opts)
            (build_objects pdb scene opts) (next_ref c) in
  (objects,
   {| next_ref := n; memo_objects := slot; eff_objects := eff_objects c;
      memo_cartoon := memo_cartoon c; eff_cartoon := eff_cartoon c;
      calls := calls c ++ ev |}).

(** The ribbon [useMemo], render phase. *)
Definition useCartoon (pdb : MeshBuilders) (scene : option Ref) (ctl : Controls)
    (c : Cache) : option Cartoon * Cache :=
  let '(cartoon, slot, n, ev) :=
    useMemo (memo_cartoon c)
            (cartoon_deps scene (representation ctl) (common_materialKind ctl)
                          (ribbon_thickness ctl))
            (build_cartoon pdb scene (representation ctl)
                           (common_materialKind ctl) (ribbon_thickness ctl))
            (next_ref c) in
  (cartoon,
   {| next_ref := n; memo_objects := memo_objects c; eff_objects := eff_objects c;
      memo_cartoon := slot; eff_cartoon := eff_cartoon c;
      calls := calls c ++ ev |}).

(** Commit, cache part: the two dispose effects.  The cleanups of the
    effects whose dependencies changed run; the effects then install the
    cleanups that close over the current objects. *)
Definition commit_cache (objects : SceneObjects) (cartoon : option Cartoon)
    (c : Cache) : Cache :=
  let due_o := effect_due (eff_objects c) (dispose_deps objects) in
  let due_c := effect_due (eff_cartoon c) [dep_of_cartoon cartoon] in
  {| next_ref := next_ref c;
     memo_objects := memo_objects c;
     eff_objects :=
       if due_o then Some (dispose_deps objects, objects) else eff_objects c;
     memo_cartoon := memo_cartoon c;
     eff_cartoon :=
       if due_c then Some ([dep_of_cartoon cartoon], cartoon) else eff_cartoon c;
     calls := calls c
       ++ (if due_o then cleanup_calls dispose_objects (captured (eff_objects c)) else [])
       ++ (if due_c then cleanup_calls dispose_cartoon (captured (eff_cartoon c)) else []) |}.

Definition unmount_cache (c : Cache) : Cache :=
  {| next_ref := next_ref c;
     memo_objects := None; eff_objects := None;
     memo_cartoon := None; eff_cartoon := None;
     calls := calls c
       ++ cleanup_calls dispose_objects (captured (eff_objects c))
       ++ cleanup_calls dispose_cartoon (captured (eff_cartoon c)) |}.

(** The children of the content group. *)
Inductive Child :=
| ShowCartoon (c : Cartoon)
| ShowAtoms (p : Primitive)
| ShowBonds (p : Primitive)
| ShowBackbone (p : Primitive).

Definition show (mk : Primitive -> Child) (p : option Primitive) : list Child :=
  match p with Some p => [mk p] | None => [] end.

Definition display (ctl : Controls) (o : SceneObjects) (cartoon : option Cartoon)
  : list Child :=
  (if negb (is_spheres (representation ctl)) then
     match cartoon with
     | Some g =>
         ShowCartoon g
           :: (if overlay_bonds ctl then show ShowBonds (obj_bonds o) else [])
           ++ (if overlay_backbone ctl then show ShowBackbone (obj_backbone o) else [])
     | None => []
     end
   else [])
  ++ (if is_spheres (representation ctl) then
        show ShowAtoms (obj_atoms o) ++ show ShowBonds (obj_bonds o)
          ++ show ShowBackbone (obj_backbone o)
      else []).

(** The three.js object behind a child: an [InstancedMesh] is a [Mesh],
    [LineSegments] are not. *)
Definition child_object (c : Child) : Object3D :=
  match c with
  | ShowCartoon g => cartoon_obj g
  | ShowAtoms p => Node (Some (geometry p, OneMaterial (material p))) []
  | ShowBonds _ => Node None []
  | ShowBackbone _ => Node None []
  end.

Record View := {
  mounted : bool;
  sourceUrl : string;
  cache : Cache;
  fit : Fit;
  shown : list Child;
  page_background : string
}.

(** One render pass of [MoleculeView] and its commit. *)
Definition render (pdb : MeshBuilders) (p : Props) (v : View) : View :=
  let c := cache v in
  let (opts, n) := derive_options (controls p) (next_ref c) in
  let (objects, c1) := useSceneObjects pdb (scene p) opts (set_next_ref n c) in
  let (cartoon, c2) := useCartoon pdb (scene p) (controls p) c1 in
  let children := display (controls p) objects cartoon in
  {| mounted := true;
     sourceUrl := sourceUrl v;
     cache := commit_cache objects cartoon c2;
     fit := exec (commit_fit (scene p) (sourceUrl v) (loading p) (api p)
                    (if attached p then Some (map child_object children) else None))
                 (fit v);
     shown := children;
     page_background := background (controls p) |}.

Definition unmount (v : View) : View :=
  {| mounted := false;
     sourceUrl := sourceUrl v;
     cache := unmount_cache (cache v);
     fit := exec unmount_fit (fit v);
     shown := [];
     page_background := page_background v |}.

Definition setSourceUrl (s : string) (v : View) : View :=
  {| mounted := mounted v; sourceUrl := s; cache := cache v; fit := fit v;
     shown := shown v; page_background := page_background v |}.

Definition on_fit (g : Fit -> Fit) (v : View) : View :=
  {| mounted := mounted v; sourceUrl := sourceUrl v; cache := cache v;
     fit := g (fit v); shown := shown v; page_background := page_background v |}.

(** What can happen to a view: a render pass, the user editing the source
    field (state update and the render pass it causes), an animation frame,
    the timer task, unmounting. *)
Inductive Action :=
| Render (p : Props)
| ChangeSource (s : string) (p : Props)
| Frame (o : Outcome)
| Timeout (o : Outcome)
| Unmount.

Definition step (pdb : MeshBuilders) (v : View) (a : Action) : View :=
  match a with
  | Render p => if mounted v then render pdb p v else v
  | ChangeSource s p => if mounted v then render pdb p (setSourceUrl s v) else v
  | Frame o => on_fit (frame o) v
  | Timeout o => on_fit (timeout o) v
  | Unmount => if mounted v then unmount v else v
  end.

Definition run (pdb : MeshBuilders) (v : View) (acts : list Action) : View :=
  fold_left (step pdb) acts v.

Definition empty_cache : Cache :=
  {| next_ref := 1; memo_objects := None; eff_objects := None;
     memo_cartoon := None; eff_cartoon := None; calls := [] |}.

Definition empty_fit : Fit :=
  {| next_handle := 1; did := false; lastFittedSource := None;
     eff_initial := None; eff_reload := None; closures := [];
     timers := []; rafs := []; contentRef := None; camera := [];
     fit_log := []; uncaught := [] |}.

(** The view about to be rendered for the first time. *)
Definition mount : View :=
  {| mounted := true; sourceUrl := "/models/1IGY.pdb";
     cache := empty_cache; fit := empty_fit; shown := [];
     page_background := "" |}.

(* ===================================================================== *)
(** ** The view without representation modes *)

(** The [MoleculeView] that has a single "Render" panel: no representation
    modes, no ribbon group and no fit controller of its own (the canvas
    leaves the camera to [<Bounds fit clip observe>]).  It calls the same
    [useSceneObjects]; the ribbon slots of the cache stay empty. *)
Module SpheresOnly.

(** The values of the "Render" panel. *)
Record Controls := {
  render_atoms : bool;
  render_bonds : bool;
  render_backbone : bool;
  render_sphereDetail : number;
  render_materialKind : MaterialKind;
  render_background : string;
  render_radiusScale : number
}.

(** What [useControls] and [useMolScene] return in one render pass. *)
Record Props := {
  controls : Controls;
  scene : option Ref;
  loading : bool;
  error : option string
}.

(** The argument of [useSceneObjects]; each object literal is a new
    object. *)
Definition derive_options (c : Controls) (n : Ref) : SceneBuildOptions * Ref :=
  let (a, n1) :=
    if render_atoms c
    then (Obj n {| sphereDetail := Some (render_sphereDetail c);
                   materialKind := Some (render_materialKind c);
                   radiusScale := Some (render_radiusScale c) |}, S n)
    else (IsFalse, n) in
  let (b, n2) :=
    if render_backbone c
    then (Obj n1 {| color := None |}, S n1)
    else (IsFalse, n1) in
  ({| atoms := a; bonds := render_bonds c; backbone := b |}, n2).

(** Commit: the dispose effect of [useSceneObjects]. *)
Definition commit_cache (objects : SceneObjects) (c : Cache) : Cache :=
  let due_o := effect_due (eff_objects c) (dispose_deps objects) in
  {| next_ref := next_ref c;
     memo_objects := memo_objects c;
     eff_objects :=
       if due_o then Some (dispose_deps objects, objects) else eff_objects c;
     memo_cartoon := memo_cartoon c;
     eff_cartoon := eff_cartoon c;
     calls := calls c
       ++ (if due_o then cleanup_calls dispose_objects (captured (eff_objects c)) else []) |}.

Definition unmount_cache (c : Cache) : Cache :=
  {| next_ref := next_ref c;
     memo_objects := None; eff_objects := None;
     memo_cartoon := memo_cartoon c; eff_cartoon := eff_cartoon c;
     calls := calls c ++ cleanup_calls dispose_objects (captured (eff_objects c)) |}.

(** The children of [<Bounds>]. *)
Definition display (o : SceneObjects) : list Child :=
  show ShowAtoms (obj_atoms o) ++ show ShowBonds (obj_bonds o)
    ++ show ShowBackbone (obj_backbone o).

Record View := {
  mounted : bool;
  sourceUrl : string;
  cache : Cache;
  shown : list Child;
  page_background : string
}.

(** One render pass and its commit. *)
Definition render (pdb : MeshBuilders) (p : Props) (v : View) : View :=
  let c := cache v in
  let (opts, n) := derive_options (controls p) (next_ref c) in
  let (objects, c1) := useSceneObjects pdb (scene p) opts (set_next_ref n c) in
  {| mounted := true;
     sourceUrl := sourceUrl v;
     cache := commit_cache objects c1;
     shown := display objects;
     page_background := render_background (controls p) |}.

Definition unmount (v : View) : View :=
  {| mounted := false;
     sourceUrl := sourceUrl v;
     cache := unmount_cache (cache v);
     shown := [];
     page_background := page_background v |}.

Definition setSourceUrl (s : string) (v : View) : View :=
  {| mounted := mounted v; sourceUrl := s; cache := cache v;
     shown := shown v; page_background := page_background v |}.

Inductive Action :=
| Render (p : Props)
| ChangeSource (s : string) (p : Props)
| Unmount.

Definition step (pdb : MeshBuilders) (v : View) (a : Action) : View :=
  match a with
  | Render p => if mounted v then render pdb p v else v
  | ChangeSource s p => if mounted v then render pdb p (setSourceUrl s v) else v
  | Unmount => if mounted v then unmount v else v
  end.

Definition run (pdb : MeshBuilders) (v : View) (acts : list Action) : View :=
  fold_left (step pdb) acts v.

(** The view about to be rendered for the first time. *)
Definition mount : View :=
  {| mounted := true; sourceUrl := "/models/1IGY.pdb";
     cache := empty_cache; shown := []; page_background := "" |}.

(** The panel as it is when the view opens, and a loaded scene. *)
Definition default_controls : Controls :=
  {| render_atoms := true; render_bonds := true; render_backbone := true;
     render_sphereDetail := 16; render_materialKind := standard;
     render_background := "#111111"; render_radiusScale := 30 |}%Z.

Definition loaded (ctl : Controls) : Props :=
  {| controls := ctl; scene := Some 7; loading := false; error := None |}.

End SpheresOnly.

(* ===================================================================== *)
(** ** Observations *)

Definition disposed (l : list CacheCall) : list Ref :=
  flat_map (fun e => match e with Dispose r => [r] | _ => [] end) l.

Definition primitive_resources (p : option Primitive) : list Ref :=
  match p with Some p => [geometry p; material p] | None => [] end.

Definition objects_resources (o : SceneObjects) : list Ref :=
  primitive_resources (obj_atoms o) ++ primitive_resources (obj_bonds o)
    ++ primitive_resources (obj_backbone o).

Definition cartoon_resources (c : option Cartoon) : list Ref :=
  match c with Some c => object_resources (cartoon_obj c) | None => [] end.

(** Geometries and materials the builders have produced. *)
Definition produced (l : list CacheCall) : list Ref :=
  flat_map (fun e => match e with
                     | CallMakeAtoms _ _ p => primitive_resources p
                     | CallMakeBonds _ p => primitive_resources p
                     | CallMakeBackbone _ _ p => primitive_resources p
                     | CallMakeRibbon _ _ c => cartoon_resources c
                     | CallMakeFlatRibbon _ _ c => cartoon_resources c
                     | Dispose _ => []
                     end) l.

(** The primitive set [useSceneObjects] currently returns, and the current
    ribbon group. *)
Definition current_objects (c : Cache) : SceneObjects :=
  slot_value no_objects (memo_objects c).

Definition current_cartoon (c : Cache) : option Cartoon :=
  slot_value None (memo_cartoon c).

Definition held (c : Cache) : list Ref :=
  objects_resources (current_objects c) ++ cartoon_resources (current_cartoon c).

Definition is_builder_call (e : CacheCall) : bool :=
  match e with Dispose _ => false | _ => true end.

Definition fired (l : list FitEvent) : list nat :=
  flat_map (fun e => match e with Fired h _ => [h] | _ => [] end) l.

Definition initial_fits (l : list FitEvent) : nat :=
  List.length (filter (fun e => match e with Fired _ InitialFit => true | _ => false end) l).

Definition handles (q : list (nat * Callback)) : list nat := map fst q.

(** Each mesh of a ribbon group owns its geometry and its materials. *)
Definition unshared (pdb : MeshBuilders) : Prop :=
  (forall s a o, makeRibbonMesh pdb s a = Some o -> NoDup (object_resources o)) /\
  (forall s a o, makeFlatRibbonMesh pdb s a = Some o -> NoDup (object_resources o)).

(** The ribbon builder of the selected mode returns a group for the scene. *)
Definition ribbon_available (pdb : MeshBuilders) (s : Ref) (ctl : Controls) : Prop :=
  match representation ctl with
  | spheres => False
  | ribbon_tube =>
      makeRibbonMesh pdb s (tube_args (common_materialKind ctl)) <> None
  | ribbon_flat =>
      makeFlatRibbonMesh pdb s
        (flat_args (common_materialKind ctl) (ribbon_thickness ctl)) <> None
  end.

(** The calls made since the log was [before]. *)
Definition since {A} (before now : list A) : list A := skipn (List.length before) now.

(* ===================================================================== *)
(** ** Sample collaborators and inputs *)

Definition lit_material : MaterialProps :=
  {| vertexColors := Some true; mat_color := Some "#ff00ff"; needsUpdate := None |}.

Definition line_material : MaterialProps :=
  {| vertexColors := Some false; mat_color := Some "#ffffff"; needsUpdate := None |}.

(** Builders that always succeed; the tube ribbon is a group of two meshes,
    the second with a material array. *)
Definition sample_builders : MeshBuilders :=
  {| makeAtomsMesh := fun _ _ => Some lit_material;
     makeBondLines := fun _ => Some line_material;
     makeBackboneLines := fun _ _ => Some line_material;
     makeRibbonMesh := fun _ _ =>
       Some (Node None [Node (Some (0, OneMaterial 1)) [];
                        Node (Some (2, MaterialArray [3; 4])) []]);
     makeFlatRibbonMesh := fun _ _ => Some (Node (Some (0, OneMaterial 1)) []) |}.

(** The panel as it is when the view opens. *)
Definition default_controls : Controls :=
  {| representation := spheres; common_materialKind := standard;
     background := "#111111";
     overlay_atoms := true; overlay_bonds := true; overlay_backbone := true;
     spheres_sphereDetail := 16; spheres_radiusScale := 30;
     ribbon_thickness := 18 |}%Z.

Definition with_representation (r : Representation) (c : Controls) : Controls :=
  {| representation := r; common_materialKind := common_materialKind c;
     background := background c;
     overlay_atoms := overlay_atoms c; overlay_bonds := overlay_bonds c;
     overlay_backbone := overlay_backbone c;
     spheres_sphereDetail := spheres_sphereDetail c;
     spheres_radiusScale := spheres_radiusScale c;
     ribbon_thickness := ribbon_thickness c |}.

Definition with_background (b : string) (c : Controls) : Controls :=
  {| representation := representation c; common_materialKind := common_materialKind c;
     background := b;
     overlay_atoms := overlay_atoms c; overlay_bonds := overlay_bonds c;
     overlay_backbone := overlay_backbone c;
     spheres_sphereDetail := spheres_sphereDetail c;
     spheres_radiusScale := spheres_radiusScale c;
     ribbon_thickness := ribbon_thickness c |}.

(** A loaded scene, shown with the given controls. *)
Definition loaded (ctl : Controls) : Props :=
  {| controls := ctl; scene := Some 7; loading := false; error := None;
     api := 1; attached := true |}.

Definition all_fine : Outcome :=
  {| bounds_throw := false; refresh_throws := false; fit_throws := false |}.

Definition fit_fails : Outcome :=
  {| bounds_throw := false; refresh_throws := false; fit_throws := true |}.

(* ===================================================================== *)
(** ** Specification vocabulary

    Observations, closed forms of the effectful definitions above and the
    invariants the proofs below maintain. *)

(** Every identity of [l] was allocated between [lo] and [hi]. *)
Definition within (lo hi : nat) (l : list Ref) : Prop :=
  forall r, In r l -> lo <= r < hi.

(** Identities of the three.js objects themselves, as opposed to their
    geometries and materials. *)
Definition primitive_ids (p : option Primitive) : list Ref :=
  match p with Some p => [prim_id p] | None => [] end.

(** What one run of a [useMemo] callback does: it allocates the identities
    [ids] and the resources [res] between [n] and [n'], and its calls [ev]
    produce exactly [res] and dispose nothing. *)
Record built (n n' : Ref) (res ids : list Ref) (ev : list CacheCall) : Prop := {
  built_le : n <= n';
  built_within : within n n' res;
  built_nodup : NoDup res;
  built_ids : within n n' ids;
  built_produced : produced ev = res;
  built_disposed : disposed ev = []
}.

(** Identities of the primitives of a set, and of a ribbon group. *)
Definition objects_ids (o : SceneObjects) : list Ref :=
  primitive_ids (obj_atoms o) ++ primitive_ids (obj_bonds o)
    ++ primitive_ids (obj_backbone o).

Definition cartoon_ids (g : option Cartoon) : list Ref :=
  match g with Some g => [cartoon_id g] | None => [] end.

(** How often [r] occurs in [l]. *)
Definition count (l : list Ref) (r : Ref) : nat := count_occ Nat.eq_dec l r.

(** The effect slot mirrors the memo slot after every commit. *)
Definition synced {A} (edeps : A -> list Dep) (m e : Slot A) : Prop :=
  e = match m with Some (_, a) => Some (edeps a, a) | None => None end.

(** One render pass of a memo and its dispose effect: [m], [e] before,
    [m'], [e'] after; [ev] are the calls of the memo callback, [cl] those of
    the cleanup. *)
Record hook_pass {A} (res ids : A -> list Ref) (edeps : A -> list Dep)
    (empty : A) (m e m' e' : Slot A) (n n' : Ref) (v : A)
    (ev cl : list CacheCall) : Prop := {
  pass_synced : synced edeps m' e';
  pass_value : slot_value empty m' = v;
  pass_le : n <= n';
  pass_ids : within 0 n' (ids v);
  pass_cleanup_produces : produced cl = [];
  pass_build_disposes : disposed ev = [];
  pass_within : within n n' (produced ev);
  pass_nodup : NoDup (produced ev);
  pass_count : forall r,
    count (res (slot_value empty m)) r + count (produced ev) r
    = count (res v) r + count (disposed cl) r
}.

(** What the memo slots hold was computed by the memo callbacks from the
    inputs the stored dependency arrays were made of. *)
Record memo_inv (pdb : MeshBuilders) (c : Cache) : Prop := {
  inv_objects_from : forall d o, memo_objects c = Some (d, o) ->
    exists sc opts n,
      d = objects_deps sc opts /\ o = fst (fst (build_objects pdb sc opts n));
  inv_cartoon_from : forall d g, memo_cartoon c = Some (d, g) ->
    exists sc rep k t n,
      d = cartoon_deps sc rep k t /\ g = fst (fst (build_cartoon pdb sc rep k t n));
  inv_literals : forall d o id, memo_objects c = Some (d, o) ->
    In (DRef id) (tl d) -> id < next_ref c
}.

(** Resource accounting: what was produced is either still held by the
    current primitive set or has been disposed. *)
Record cache_inv (c : Cache) : Prop := {
  inv_objects_sync : synced dispose_deps (memo_objects c) (eff_objects c);
  inv_cartoon_sync :
    synced (fun g => [dep_of_cartoon g]) (memo_cartoon c) (eff_cartoon c);
  inv_objects_ids : within 0 (next_ref c) (objects_ids (current_objects c));
  inv_cartoon_ids : within 0 (next_ref c) (cartoon_ids (current_cartoon c));
  inv_fresh : within 0 (next_ref c) (produced (calls c));
  inv_nodup : NoDup (produced (calls c));
  inv_count : forall r,
    count (produced (calls c)) r = count (held c) r + count (disposed (calls c)) r
}.

(** The cache after one render pass and its commit. *)
Definition render_cache (pdb : MeshBuilders) (p : Props) (c : Cache) : Cache :=
  let (opts, n) := derive_options (controls p) (next_ref c) in
  let (objects, c1) := useSceneObjects pdb (scene p) opts (set_next_ref n c) in
  let (cartoon, c2) := useCartoon pdb (scene p) (controls p) c1 in
  commit_cache objects cartoon c2.

(** The part of the state of a view the cache claims rest on. *)
Record cache_ok (v : View) : Prop := {
  ok_resources : cache_inv (cache v);
  ok_unmounted : mounted v = false ->
    memo_objects (cache v) = None /\ memo_cartoon (cache v) = None
}.

(** A call is one the controls ask for. *)
Definition requested_by (ctl : Controls) (e : CacheCall) : Prop :=
  match e with
  | CallMakeAtoms _ _ _ => representation ctl = spheres /\ overlay_atoms ctl = true
  | CallMakeBackbone _ _ _ => representation ctl = spheres /\ overlay_backbone ctl = true
  | CallMakeBonds _ _ => overlay_bonds ctl = true
  | CallMakeRibbon _ _ _ => representation ctl = ribbon_tube
  | CallMakeFlatRibbon _ _ _ => representation ctl = ribbon_flat
  | Dispose _ => True
  end.

(** The color the atom override sets. *)
Definition white : string := "#ffffff".

(** By-value reading of the memoization tuple of [useSceneObjects]: the
    scene identity, the atoms-options value, the bonds flag and the
    backbone-options value. *)
Definition value_of {T} (o : OrFalse T) : option T :=
  match o with IsFalse => None | Obj _ v => Some v end.

Definition memo_key (sc : option Ref) (opts : SceneBuildOptions) :=
  (sc, value_of (atoms opts), bonds opts, value_of (backbone opts)).

(** [if (h) cancelAnimationFrame(h)] on the queue. *)
Definition cancel (h : nat) (q : list (nat * Callback)) : list (nat * Callback) :=
  if h =? 0 then q else dequeue h q.

(** The queue after the cleanup of the reload effect. *)
Definition cancel_all (v : RafVars) (q : list (nat * Callback)) :=
  cancel (raf3 v) (cancel (raf2 v) (cancel (raf1 v) q)).

(** The state after [requestAnimationFrame cb] followed by the assignment of
    the handle to a variable of run [inst]. *)
Definition requested (cb : Callback) (inst : nat) (w : nat -> RafVars -> RafVars)
    (f : Fit) : Fit :=
  set_closures (update_nth inst (w (next_handle f)) (closures f))
    (set_rafs (rafs f ++ [(next_handle f, cb)])
       (set_next_handle (S (next_handle f)) f)).

(** The reload effect gets past its two early returns. *)
Definition reload_guard (scene : option Ref) (loading : bool) (src : string)
    (f : Fit) : bool :=
  match scene with
  | Some _ => negb loading && negb (same_source (lastFittedSource f) src)
  | None => false
  end.

(** The state with [evs] appended to the log. *)
Definition logged (evs : list FitEvent) (f : Fit) : Fit :=
  set_fit_log (fit_log f ++ evs) f.

(** The bounds recomputation over the visited objects: the calls made and
    the exception that ended it, if any. *)
Fixpoint bounds_run (o : Outcome) (l : list (option (Ref * MaterialSlot)))
  : list FitEvent * option string :=
  match l with
  | [] => ([], None)
  | None :: r => bounds_run o r
  | Some (g, _) :: r =>
      if bounds_throw o then ([ComputeBoundingBox g], Some "computeBoundingBox")
      else let (evs, e) := bounds_run o r in
           (ComputeBoundingBox g :: ComputeBoundingSphere g :: evs, e)
  end.

(** The completion that goes with an optional exception. *)
Definition completion_of (e : option string) : Completion unit :=
  match e with Some x => Abrupt x | None => Normal tt end.

(** The state after [api.refresh(t).fit()]: the calls made are logged, the
    camera is framed on [t] when both return. *)
Definition attempt (o : Outcome) (t : FitTarget) (f : Fit) : Fit :=
  if refresh_throws o then logged [Refresh t] f
  else if fit_throws o then logged [Refresh t; FitCall t] f
  else set_camera (t :: camera f) (logged [Refresh t; FitCall t] f).

(** Neither [refresh] nor [fit] throws. *)
Definition attempt_ok (o : Outcome) : bool :=
  negb (refresh_throws o) && negb (fit_throws o).

(** [lastFittedSource.current = sourceUrl], reached when nothing threw. *)
Definition record_source (ok : bool) (src : string) (f : Fit) : Fit :=
  if ok then set_lastFittedSource (Some src) f else f.

(** The state [doFit] leaves. *)
Definition doFit_result (o : Outcome) (inst : nat) (src : string) (f : Fit) : Fit :=
  match contentRef f with
  | Some children =>
      if List.length children =? 0
      then requested (DoFit inst src) inst with_raf3 f
      else
        let (evs, e) := bounds_run o (traverse (Node None children)) in
        match e with
        | Some _ => logged evs f
        | None => record_source (attempt_ok o) src
                    (attempt o ContentGroup (logged evs f))
        end
  | None => record_source (attempt_ok o) src (attempt o WholeScene f)
  end.

(** The state a callback leaves. *)
Definition call_result (o : Outcome) (cb : Callback) (f : Fit) : Fit :=
  match cb with
  | InitialFit => set_did true (attempt o WholeScene f)
  | FirstFrame inst src => requested (DoFit inst src) inst with_raf2 f
  | DoFit inst src => doFit_result o inst src f
  end.

(** The four stages of a commit: the cleanups of the two effects, then the
    two effects, each only when its dependencies changed. *)
Definition stage_cancel_timer (due : bool) (t : option nat) (f : Fit) : Fit :=
  if due then
    match t with
    | Some h => set_timers (dequeue h (timers f)) f
    | None => f
    end
  else f.

Definition stage_cancel_rafs (due : bool) (c : option nat) (f : Fit) : Fit :=
  if due then
    match c with
    | Some inst => set_rafs (cancel_all (vars_of inst f) (rafs f)) f
    | None => f
    end
  else f.

Definition stage_initial (due : bool) (api : Ref) (f : Fit) : Fit :=
  if due then
    if did f then set_eff_initial (Some (initial_deps api, None)) f
    else set_eff_initial (Some (initial_deps api, Some (next_handle f)))
           (set_timers (timers f ++ [(next_handle f, InitialFit)])
              (set_next_handle (S (next_handle f)) f))
  else f.

Definition stage_reload (due : bool) (scene : option Ref) (src : string)
    (loading : bool) (api : Ref) (f : Fit) : Fit :=
  if due then
    if reload_guard scene loading src f
    then set_eff_reload
           (Some (reload_deps scene src loading api, Some (List.length (closures f))))
           (requested (FirstFrame (List.length (closures f)) src)
                      (List.length (closures f)) with_raf1
                      (set_closures (closures f ++ [no_rafs]) f))
    else set_eff_reload (Some (reload_deps scene src loading api, None)) f
  else f.

(** The controller after the commit of a render pass. *)
Definition commit_result (scene : option Ref) (src : string) (loading : bool)
    (api : Ref) (content : option (list Object3D)) (f : Fit) : Fit :=
  let due_i := effect_due (eff_initial f) (initial_deps api) in
  let due_r := effect_due (eff_reload f) (reload_deps scene src loading api) in
  stage_reload due_r scene src loading api
    (stage_initial due_i api
       (stage_cancel_rafs due_r (flatten (captured (eff_reload f)))
          (stage_cancel_timer due_i (flatten (captured (eff_initial f)))
             (set_contentRef content f)))).

(** The controller after unmounting. *)
Definition unmount_result (f : Fit) : Fit :=
  set_contentRef None
    (set_eff_reload None
       (set_eff_initial None
          (stage_cancel_rafs true (flatten (captured (eff_reload f)))
             (stage_cancel_timer true (flatten (captured (eff_initial f))) f)))).

(** At most one timeout is pending; it is the one the cleanup of the
    initial-fit effect closes over, and the initial fit has not run. *)
Definition timer_ok (f : Fit) : Prop :=
  timers f = []
  \/ exists h d, timers f = [(h, InitialFit)]
                 /\ eff_initial f = Some (d, Some h) /\ did f = false.

(** At most one animation-frame callback is pending; it belongs to the
    current run of the reload effect, its handle is in the variable the
    cleanup reads, and the source it is for has not been fitted. *)
Definition raf_ok (src : string) (f : Fit) : Prop :=
  rafs f = []
  \/ exists h inst sc l a,
       eff_reload f = Some (reload_deps sc src l a, Some inst)
       /\ inst < List.length (closures f) /\ 0 < h
       /\ lastFittedSource f <> Some src
       /\ ((rafs f = [(h, FirstFrame inst src)] /\ raf1 (vars_of inst f) = h)
           \/ (rafs f = [(h, DoFit inst src)]
               /\ (raf2 (vars_of inst f) = h \/ raf3 (vars_of inst f) = h))).

(** Handles come from the counter, pending ones have not fired, timeouts
    and frame requests do not share handles, no exception has escaped and
    the initial fit has fired at most once, not at all while [did] is
    false. *)
Record base_inv (f : Fit) : Prop := {
  fi_next : 0 < next_handle f;
  fi_uncaught : uncaught f = [];
  fi_timers : timer_ok f;
  fi_distinct : forall h, In h (handles (rafs f)) -> In h (handles (timers f)) -> False;
  fi_pending : forall h, In h (handles (rafs f) ++ handles (timers f)) ->
                         h < next_handle f /\ ~ In h (fired (fit_log f));
  fi_fired : forall h, In h (fired (fit_log f)) -> h < next_handle f;
  fi_once : initial_fits (fit_log f) <= 1
            /\ (did f = false -> initial_fits (fit_log f) = 0)
}.

(** The invariant of the controller while the source is [src]. *)
Definition fit_inv (src : string) (f : Fit) : Prop := base_inv f /\ raf_ok src f.

(** Calls into three.js and drei are not scheduler events. *)
Definition silent (evs : list FitEvent) : Prop :=
  fired evs = [] /\ initial_fits evs = 0.

(** The state in which a pending callback starts to run. *)
Definition firing (h : nat) (cb : Callback) (f : Fit) : Fit :=
  logged [Fired h cb] f.

(** What the ref of the content group points to after a commit. *)
Definition content_of (p : Props) (children : list Child) : option (list Object3D) :=
  if attached p then Some (map child_object children) else None.

(** What holds of the controller in every state of a run. *)
Record view_fit_inv (v : View) : Prop := {
  vf_inv : fit_inv (sourceUrl v) (fit v);
  vf_unmounted : mounted v = false -> timers (fit v) = [] /\ rafs (fit v) = []
}.



(** The calls [doFit] makes to recompute the bounds of the meshes of the
    content group. *)
Definition bounds_calls (children : list Object3D) : list FitEvent :=
  flat_map (fun m => match m with
                     | Some (g, _) => [ComputeBoundingBox g; ComputeBoundingSphere g]
                     | None => []
                     end)
           (traverse (Node None children)).


(** From [f] to [f']: handles are only added from the counter on, and only
    pending callbacks fire. *)
Definition grows (f f' : Fit) : Prop :=
  next_handle f <= next_handle f'
  /\ (forall x, In x (handles (rafs f') ++ handles (timers f')) ->
                In x (handles (rafs f) ++ handles (timers f)) \/ next_handle f <= x)
  /\ (forall x, In x (fired (fit_log f')) ->
                In x (fired (fit_log f)) \/ In x (handles (rafs f) ++ handles (timers f))).



(** The view asks [useSceneObjects] for atoms, for the backbone: the
    option it passes is an object literal rather than [false]. *)
Definition wants_atoms (ctl : Controls) : bool :=
  overlay_atoms ctl && is_spheres (representation ctl).

Definition wants_backbone (ctl : Controls) : bool :=
  overlay_backbone ctl && is_spheres (representation ctl).

(** The dependency array of the ribbon memo, read by value. *)
Definition ribbon_key (p : Props) :=
  (scene p, representation (controls p), common_materialKind (controls p),
   ribbon_thickness (controls p)).

(** Kinds of calls the cache makes. *)
Definition is_objects_build (e : CacheCall) : bool :=
  match e with
  | CallMakeAtoms _ _ _ | CallMakeBonds _ _ | CallMakeBackbone _ _ _ => true
  | _ => false
  end.

Definition is_ribbon_build (e : CacheCall) : bool :=
  match e with
  | CallMakeRibbon _ _ _ | CallMakeFlatRibbon _ _ _ => true
  | _ => false
  end.


(** A builder call passes the scene of the render pass and arguments made
    of the current control values and the constants of [MoleculeView]. *)
Definition forwarded (p : Props) (e : CacheCall) : Prop :=
  match e with
  | CallMakeAtoms s a _ =>
      scene p = Some s
      /\ a = {| arg_sphereDetail := spheres_sphereDetail (controls p);
                arg_materialKind := common_materialKind (controls p);
                arg_radiusScale := spheres_radiusScale (controls p) |}
  | CallMakeBonds s _ => scene p = Some s
  | CallMakeBackbone s c _ => scene p = Some s /\ c = 16777215%Z
  | CallMakeRibbon s a _ =>
      scene p = Some s /\ a = tube_args (common_materialKind (controls p))
  | CallMakeFlatRibbon s a _ =>
      scene p = Some s
      /\ a = flat_args (common_materialKind (controls p)) (ribbon_thickness (controls p))
  | Dispose _ => True
  end.

(** The action leaves the dependency array of the reload effect as it is:
    an animation frame, the timer task, or a render pass with the same
    scene, loading flag and bounds api and no edit of the source field. *)
Definition keeps_reload_deps (sc : option Ref) (l : bool) (ap : Ref) (a : Action)
  : Prop :=
  match a with
  | Render p => scene p = sc /\ loading p = l /\ api p = ap
  | Frame _ => True
  | Timeout _ => True
  | ChangeSource _ _ => False
  | Unmount => False
  end.

(** [doFit] starting to run, and the calls only [doFit] makes. *)
Definition is_reload_fit (e : FitEvent) : bool :=
  match e with
  | Fired _ (DoFit _ _) => true
  | Refresh ContentGroup => true
  | FitCall ContentGroup => true
  | ComputeBoundingBox _ => true
  | ComputeBoundingSphere _ => true
  | _ => false
  end.

(** A call of the spheres-only view is one its panel asks for, with the
    panel values as arguments. *)
Definition panel_request (p : SpheresOnly.Props) (e : CacheCall) : Prop :=
  match e with
  | CallMakeAtoms s a _ =>
      SpheresOnly.render_atoms (SpheresOnly.controls p) = true
      /\ SpheresOnly.scene p = Some s
      /\ a = {| arg_sphereDetail := SpheresOnly.render_sphereDetail (SpheresOnly.controls p);
                arg_materialKind := SpheresOnly.render_materialKind (SpheresOnly.controls p);
                arg_radiusScale := SpheresOnly.render_radiusScale (SpheresOnly.controls p) |}
  | CallMakeBonds s _ =>
      SpheresOnly.render_bonds (SpheresOnly.controls p) = true
      /\ SpheresOnly.scene p = Some s
  | CallMakeBackbone s c _ =>
      SpheresOnly.render_backbone (SpheresOnly.controls p) = true
      /\ SpheresOnly.scene p = Some s /\ c = 16777215%Z
  | CallMakeRibbon _ _ _ => False
  | CallMakeFlatRibbon _ _ _ => False
  | Dispose _ => True
  end.

(** The part of the cache invariant that concerns the primitive set alone;
    it holds whatever the ribbon builders return. *)
Record objects_inv (c : Cache) : Prop := {
  oi_sync : synced dispose_deps (memo_objects c) (eff_objects c);
  oi_ids : within 0 (next_ref c) (objects_ids (current_objects c));
  oi_res : within 0 (next_ref c) (objects_resources (current_objects c))
}.


(* ===================================================================== *)
(** ** Dependency arrays *)

Lemma same_deps_true (a b : list Dep) : same_deps a b = true <-> a = b.
Proof.
  unfold same_deps. destruct (list_eq_dec Object_is a b); split; congruence.
Qed.

Lemma same_deps_refl (a : list Dep) : same_deps a a = true.
Proof. now apply same_deps_true. Qed.

Lemma same_deps_false (a b : list Dep) : same_deps a b = false <-> a <> b.
Proof.
  unfold same_deps. destruct (list_eq_dec Object_is a b); split; congruence.
Qed.

Lemma is_spheres_true r : is_spheres r = true <-> r = spheres.
Proof. unfold is_spheres. destruct (Representation_eq_dec r spheres); split; congruence. Qed.

(* ===================================================================== *)
(** ** Object trees *)

(** Induction on an object with the hypothesis for every child. *)
Lemma Object3D_induction (P : Object3D -> Prop) :
  (forall m cs, Forall P cs -> P (Node m cs)) -> forall o, P o.
Proof.
  intros H. fix IH 1. intros [m cs]. apply H.
  induction cs as [ | c r IHr]; constructor; [apply IH | exact IHr].
Qed.

Lemma mesh_resources_relocate b m :
  mesh_resources (relocate_mesh b m) = map (Nat.add b) (mesh_resources m).
Proof.
  destruct m as [[g [x | ms]] | ]; reflexivity.
Qed.

Lemma traverse_relocate b o :
  traverse (relocate b o) = map (relocate_mesh b) (traverse o).
Proof.
  induction o as [m cs IH] using Object3D_induction. simpl. f_equal.
  induction IH as [ | c r Hc _ IHr]; simpl; [reflexivity | ].
  now rewrite map_app, Hc, IHr.
Qed.

Lemma object_resources_relocate b o :
  object_resources (relocate b o) = map (Nat.add b) (object_resources o).
Proof.
  unfold object_resources. rewrite traverse_relocate.
  induction (traverse o) as [ | m l IH]; simpl; [reflexivity | ].
  now rewrite map_app, mesh_resources_relocate, IH.
Qed.

Lemma span_bound l r : In r l -> r < span l.
Proof.
  unfold span. induction l as [ | a l IH]; cbn [fold_right In]; [tauto | ].
  intros [-> | H]; [ | specialize (IH H)]; lia.
Qed.

Lemma disposed_app a b : disposed (a ++ b) = disposed a ++ disposed b.
Proof. apply flat_map_app. Qed.

Lemma produced_app a b : produced (a ++ b) = produced a ++ produced b.
Proof. apply flat_map_app. Qed.

Lemma disposed_dispose_mesh m :
  disposed (dispose_mesh m) = mesh_resources m /\ produced (dispose_mesh m) = [].
Proof.
  destruct m as [[g [x | ms]] | ]; simpl; auto.
  induction ms as [ | a ms [IH1 IH2]]; simpl; auto.
  split; [ | assumption]. injection IH1 as IH1. now rewrite IH1.
Qed.

Lemma disposed_dispose_cartoon g :
  disposed (dispose_cartoon g) = cartoon_resources g
  /\ produced (dispose_cartoon g) = [].
Proof.
  destruct g as [g | ]; simpl; auto. unfold object_resources.
  induction (traverse (cartoon_obj g)) as [ | m l [IH1 IH2]]; simpl; auto.
  destruct (disposed_dispose_mesh m) as [H1 H2].
  now rewrite disposed_app, produced_app, H1, H2, IH1, IH2.
Qed.

Lemma disposed_dispose_objects o :
  disposed (dispose_objects o) = objects_resources o
  /\ produced (dispose_objects o) = [].
Proof.
  destruct o as [[a | ] [b | ] [k | ]]; split; reflexivity.
Qed.

(* ===================================================================== *)
(** ** What a builder call allocates *)

Lemma within_app lo hi a b : within lo hi a -> within lo hi b -> within lo hi (a ++ b).
Proof. intros Ha Hb r Hr. apply in_app_or in Hr as [H | H]; auto. Qed.

Lemma within_weaken lo hi lo' hi' l :
  lo' <= lo -> hi <= hi' -> within lo hi l -> within lo' hi' l.
Proof. intros ? ? H r Hr. specialize (H r Hr). lia. Qed.

Lemma within_nil lo hi : within lo hi [].
Proof. intros r []. Qed.

Lemma NoDup_app_within lo mid hi (a b : list Ref) :
  NoDup a -> NoDup b -> within lo mid a -> within mid hi b -> NoDup (a ++ b).
Proof.
  intros Ha Hb Wa Wb. induction Ha as [ | x a Hx Ha IH]; simpl; [assumption | ].
  constructor.
  - intros H. apply in_app_or in H as [H | H]; [tauto | ].
    specialize (Wa x (or_introl eq_refl)). specialize (Wb x H). lia.
  - apply IH. intros r Hr. apply Wa. now right.
Qed.

Lemma build_primitive_spec res n p n' :
  build_primitive res n = (p, n') ->
  n <= n' /\ within n n' (primitive_resources p) /\ NoDup (primitive_resources p)
  /\ within n n' (primitive_ids p)
  /\ (p = None <-> res = None)
  /\ (forall x, p = Some x -> res = Some (props x)).
Proof.
  destruct res as [m | ]; simpl; intros H; injection H as <- <-; simpl.
  - repeat split; try lia; try congruence.
    + destruct H as [<- | [<- | []]]; lia.
    + destruct H as [<- | [<- | []]]; lia.
    + repeat constructor; simpl; intuition lia.
    + destruct H as [<- | []]; lia.
    + destruct H as [<- | []]; lia.
    + intros x [= <-]. reflexivity.
  - split; [lia | ]. split; [apply within_nil | ]. split; [constructor | ].
    split; [apply within_nil | ]. split; [tauto | congruence].
Qed.

Lemma built_nothing n : built n n [] [] [].
Proof.
  constructor; auto using within_nil; constructor.
Qed.

Lemma built_app n n1 n2 r1 r2 i1 i2 e1 e2 :
  built n n1 r1 i1 e1 -> built n1 n2 r2 i2 e2 ->
  built n n2 (r1 ++ r2) (i1 ++ i2) (e1 ++ e2).
Proof.
  intros [L1 W1 D1 I1 P1 X1] [L2 W2 D2 I2 P2 X2]. constructor.
  - lia.
  - apply within_app; (eapply within_weaken; [ | | eassumption]; lia).
  - eapply NoDup_app_within; eassumption.
  - apply within_app; (eapply within_weaken; [ | | eassumption]; lia).
  - now rewrite produced_app, P1, P2.
  - now rewrite disposed_app, X1, X2.
Qed.

Lemma built_primitive res n p n' (mk : option Primitive -> CacheCall) :
  build_primitive res n = (p, n') ->
  produced [mk p] = primitive_resources p -> disposed [mk p] = [] ->
  built n n' (primitive_resources p) (primitive_ids p) [mk p].
Proof.
  intros H Hp Hd. apply build_primitive_spec in H as (L & W & D & I & _).
  constructor; auto.
Qed.

Section BuilderFacts.

Variable pdb : MeshBuilders.

Lemma build_atoms_spec s o n p n' ev :
  build_atoms pdb s o n = (p, n', ev) ->
  built n n' (primitive_resources p) (primitive_ids p) ev.
Proof.
  unfold build_atoms. destruct o as [ | id a].
  - intros [= <- <- <-]. apply built_nothing.
  - destruct (build_primitive _ n) as [q m] eqn:E. intros [= <- <- <-].
    eapply built_primitive; [eassumption | | reflexivity].
    simpl. apply app_nil_r.
Qed.

Lemma build_bonds_spec s on n p n' ev :
  build_bonds pdb s on n = (p, n', ev) ->
  built n n' (primitive_resources p) (primitive_ids p) ev.
Proof.
  unfold build_bonds. destruct on.
  - destruct (build_primitive _ n) as [q m] eqn:E. intros [= <- <- <-].
    eapply built_primitive; [eassumption | | reflexivity].
    simpl. apply app_nil_r.
  - intros [= <- <- <-]. apply built_nothing.
Qed.

Lemma build_backbone_spec s o n p n' ev :
  build_backbone pdb s o n = (p, n', ev) ->
  built n n' (primitive_resources p) (primitive_ids p) ev.
Proof.
  unfold build_backbone. destruct o as [ | id b].
  - intros [= <- <- <-]. apply built_nothing.
  - destruct (build_primitive _ n) as [q m] eqn:E. intros [= <- <- <-].
    eapply built_primitive; [eassumption | | reflexivity].
    simpl. apply app_nil_r.
Qed.

Lemma build_objects_spec sc opts n o n' ev :
  build_objects pdb sc opts n = (o, n', ev) ->
  built n n' (objects_resources o) (objects_ids o) ev.
Proof.
  unfold build_objects. destruct sc as [s | ].
  - destruct (build_atoms pdb s (atoms opts) n) as [[a n1] e1] eqn:Ea.
    destruct (build_bonds pdb s (bonds opts) n1) as [[b n2] e2] eqn:Eb.
    destruct (build_backbone pdb s (backbone opts) n2) as [[k n3] e3] eqn:Ek.
    intros [= <- <- <-].
    apply build_atoms_spec in Ea. apply build_bonds_spec in Eb.
    apply build_backbone_spec in Ek.
    unfold objects_resources, objects_ids. simpl.
    eapply built_app; [eassumption | ]. eapply built_app; eassumption.
  - intros [= <- <- <-]. apply built_nothing.
Qed.

Lemma build_group_spec res n g n' (mk : option Cartoon -> CacheCall) :
  (forall o, res = Some o -> NoDup (object_resources o)) ->
  build_group res n = (g, n') ->
  produced [mk g] = cartoon_resources g -> disposed [mk g] = [] ->
  built n n' (cartoon_resources g) (cartoon_ids g) [mk g].
Proof.
  intros Hun. destruct res as [o | ]; simpl; intros [= <- <-] Hp Hd.
  - constructor; simpl; auto; try lia.
    + rewrite object_resources_relocate. intros r Hr.
      apply in_map_iff in Hr as (x & <- & Hx). apply span_bound in Hx. lia.
    + rewrite object_resources_relocate.
      apply Finite.Injective_map_NoDup; [ | now apply Hun].
      intros x y. lia.
    + intros r [<- | []]. lia.
  - constructor; simpl; auto using within_nil. constructor.
Qed.

Lemma build_cartoon_spec sc rep kind th n g n' ev :
  unshared pdb ->
  build_cartoon pdb sc rep kind th n = (g, n', ev) ->
  built n n' (cartoon_resources g) (cartoon_ids g) ev.
Proof.
  intros [Ht Hf]. unfold build_cartoon. destruct sc as [s | ].
  - destruct rep.
    + intros [= <- <- <-]. apply built_nothing.
    + destruct (build_group _ n) as [c m] eqn:E. intros [= <- <- <-].
      eapply build_group_spec; [ | eassumption | | reflexivity].
      * intros o Ho. eapply Ht; eassumption.
      * simpl. apply app_nil_r.
    + destruct (build_group _ n) as [c m] eqn:E. intros [= <- <- <-].
      eapply build_group_spec; [ | eassumption | | reflexivity].
      * intros o Ho. eapply Hf; eassumption.
      * simpl. apply app_nil_r.
  - intros [= <- <- <-]. apply built_nothing.
Qed.

End BuilderFacts.

(* ===================================================================== *)
(** ** A memo and the effect that disposes what it made *)

Lemma count_app a b r : count (a ++ b) r = count a r + count b r.
Proof. apply count_occ_app. Qed.

Lemma count_nil r : count [] r = 0.
Proof. reflexivity. Qed.

Lemma count_In l r : In r l <-> 0 < count l r.
Proof. apply count_occ_In. Qed.

Lemma count_NoDup l : NoDup l <-> forall r, count l r <= 1.
Proof. apply NoDup_count_occ. Qed.

Section MemoWithDispose.

Context {A : Type}.

Variables (res ids : A -> list Ref) (edeps : A -> list Dep).

Variables (dispose : A -> list CacheCall) (empty : A).

Hypothesis dispose_ok :
  forall a, disposed (dispose a) = res a /\ produced (dispose a) = [].

Hypothesis empty_res : res empty = [].

Hypothesis no_ids_no_res : forall a, ids a = [] -> res a = [].

Hypothesis separated : forall a a' n n',
  edeps a = edeps a' -> within 0 n (ids a) -> within n n' (ids a') -> a = a'.

Lemma memo_then_dispose (m e : Slot A) deps compute n v m' n' ev :
  synced edeps m e ->
  within 0 n (ids (slot_value empty m)) ->
  (forall v n' ev, compute n = (v, n', ev) -> built n n' (res v) (ids v) ev) ->
  useMemo m deps compute n = (v, m', n', ev) ->
  let due := effect_due e (edeps v) in
  hook_pass res ids edeps empty m e m' (if due then Some (edeps v, v) else e) n n' v ev
            (if due then cleanup_calls dispose (captured e) else []).
Proof.
  intros Hs Hids Hc Hm due. unfold useMemo in Hm.
  assert (Hmiss : forall old,
            (e = None \/ exists d, e = Some (edeps old, old) /\ m = Some (d, old)) ->
            res (slot_value empty m) = match e with Some _ => res old | None => [] end ->
            compute n = (v, n', ev) -> m' = Some (deps, v) ->
            hook_pass res ids edeps empty m e m' (if due then Some (edeps v, v) else e) n n' v ev
              (if due then cleanup_calls dispose (captured e) else [])).
  { intros old He Hres Hcomp ->. specialize (Hc _ _ _ Hcomp).
    destruct Hc as [L W D I P X].
    assert (Hv : within 0 n' (ids v)) by (eapply within_weaken; [ | | exact I]; lia).
    destruct He as [-> | (d & -> & ->)].
    - subst due. simpl.
      constructor; auto; try (rewrite P; assumption); try reflexivity.
      intros x. rewrite Hres, P. simpl. lia.
    - subst due. simpl. simpl in Hres, Hids.
      destruct (same_deps (edeps old) (edeps v)) eqn:Hd; simpl.
      + apply same_deps_true in Hd.
        assert (old = v) by (eapply separated; eassumption). subst old.
        assert (Hnil : ids v = []).
        { destruct (ids v) as [ | x l] eqn:Ei; [reflexivity | exfalso].
          specialize (Hids x (or_introl eq_refl)).
          specialize (I x (or_introl eq_refl)). lia. }
        constructor; auto; try (rewrite P; assumption); try reflexivity.
        intros x. simpl. rewrite P, (no_ids_no_res Hnil). reflexivity.
      + destruct (dispose_ok old) as [H1 H2].
        constructor; auto; try (rewrite P; assumption); try reflexivity.
        intros x. simpl. rewrite P, H1. lia. }
  destruct m as [[d old] | ].
  - destruct (same_deps d deps) eqn:Hd.
    + injection Hm as <- <- <- <-. red in Hs. subst due. rewrite Hs. simpl.
      rewrite same_deps_refl. simpl.
      constructor; simpl; auto using within_nil; try constructor.
    + destruct (compute n) as [[v0 n0] ev0] eqn:Hcomp.
      injection Hm as <- <- <- <-.
      apply (Hmiss old); auto.
      * right. exists d. split; [exact Hs | reflexivity].
      * red in Hs. rewrite Hs. reflexivity.
  - destruct (compute n) as [[v0 n0] ev0] eqn:Hcomp.
    injection Hm as <- <- <- <-.
    apply (Hmiss empty); auto.
    red in Hs. rewrite Hs. simpl. exact empty_res.
Qed.

(** The memo slot after a pass is the old one, or holds what the callback
    has just computed. *)
Lemma useMemo_cases {E} (m : Slot A) deps (compute : Ref -> A * Ref * list E)
    n v m' n' ev :
  useMemo m deps compute n = (v, m', n', ev) ->
  (exists d, m = Some (d, v) /\ d = deps /\ m' = m /\ n' = n /\ ev = [])
  \/ (compute n = (v, n', ev) /\ m' = Some (deps, v)
      /\ forall d a, m = Some (d, a) -> d <> deps).
Proof.
  unfold useMemo. destruct m as [[d old] | ].
  - destruct (same_deps d deps) eqn:Hd.
    + intros [= <- <- <- <-]. left. exists d. apply same_deps_true in Hd.
      repeat split; auto.
    + destruct (compute n) as [[v0 n0] ev0]. intros [= <- <- <- <-]. right.
      repeat split; auto. intros d' a [= -> ->]. now apply same_deps_false.
  - destruct (compute n) as [[v0 n0] ev0]. intros [= <- <- <- <-]. right.
    repeat split; auto. intros d a [=].
Qed.

End MemoWithDispose.

(* ===================================================================== *)
(** ** Invariant of the cache *)

Lemma objects_no_ids o : objects_ids o = [] -> objects_resources o = [].
Proof.
  destruct o as [[a | ] [b | ] [k | ]]; simpl; intros H;
    try discriminate H; reflexivity.
Qed.

Lemma objects_separated o o' n n' :
  dispose_deps o = dispose_deps o' ->
  within 0 n (objects_ids o) -> within n n' (objects_ids o') -> o = o'.
Proof.
  unfold dispose_deps, objects_ids.
  destruct o as [a b k], o' as [a' b' k']; simpl. intros [= Ha Hb Hk] W W'.
  assert (sep : forall p q, dep_of_primitive p = dep_of_primitive q ->
                  (forall r, In r (primitive_ids p) -> r < n) ->
                  (forall r, In r (primitive_ids q) -> n <= r) -> p = q).
  { intros [p | ] [q | ]; simpl; try congruence. intros [= E] Hp Hq.
    specialize (Hp _ (or_introl eq_refl)). specialize (Hq _ (or_introl eq_refl)).
    lia. }
  f_equal; apply sep; auto; intros r Hr.
  - apply (W r). apply in_or_app. now left.
  - apply (W' r). apply in_or_app. now left.
  - apply (W r). apply in_or_app. right. apply in_or_app. now left.
  - apply (W' r). apply in_or_app. right. apply in_or_app. now left.
  - apply (W r). apply in_or_app. right. apply in_or_app. now right.
  - apply (W' r). apply in_or_app. right. apply in_or_app. now right.
Qed.

Lemma cartoon_no_ids g : cartoon_ids g = [] -> cartoon_resources g = [].
Proof. destruct g; simpl; intros H; try discriminate H; reflexivity. Qed.

Lemma cartoon_separated (g g' : option Cartoon) n n' :
  [dep_of_cartoon g] = [dep_of_cartoon g'] ->
  within 0 n (cartoon_ids g) -> within n n' (cartoon_ids g') -> g = g'.
Proof.
  destruct g as [g | ], g' as [g' | ]; simpl; try congruence.
  intros [= E] W W'. specialize (W _ (or_introl eq_refl)).
  specialize (W' _ (or_introl eq_refl)). lia.
Qed.

Lemma empty_cache_inv : cache_inv empty_cache.
Proof.
  constructor; simpl; try discriminate; try reflexivity;
    auto using within_nil; constructor.
Qed.

Lemma empty_memo_inv pdb : memo_inv pdb empty_cache.
Proof. constructor; simpl; discriminate. Qed.

Lemma derive_options_spec ctl n opts n' :
  derive_options ctl n = (opts, n') ->
  n <= n'
  /\ (forall id, In (DRef id) (tl (objects_deps None opts)) -> n <= id < n')
  /\ bonds opts = overlay_bonds ctl
  /\ (atoms opts = IsFalse <->
        overlay_atoms ctl && is_spheres (representation ctl) = false)
  /\ (backbone opts = IsFalse <->
        overlay_backbone ctl && is_spheres (representation ctl) = false)
  /\ (forall id a, atoms opts = Obj id a -> id = n).
Proof.
  unfold derive_options.
  destruct (overlay_atoms ctl && is_spheres (representation ctl));
    destruct (overlay_backbone ctl && is_spheres (representation ctl));
    intros [= <- <-]; simpl; repeat split; try lia; try congruence;
    match goal with
    | H : _ \/ _ |- _ =>
        destruct H as [H | [H | [H | []]]]; try discriminate H;
        injection H; lia
    end.
Qed.

Lemma cache_render pdb p v : cache (render pdb p v) = render_cache pdb p (cache v).
Proof.
  unfold render, render_cache.
  destruct (derive_options _ _) as [opts n].
  destruct (useSceneObjects _ _ _ _) as [objects c1].
  destruct (useCartoon _ _ _ _) as [cartoon c2]. reflexivity.
Qed.

Lemma within_both lo mid hi l : within lo mid l -> within mid hi l -> l = [].
Proof.
  destruct l as [ | x l]; [reflexivity | intros A B; exfalso].
  specialize (A x (or_introl eq_refl)). specialize (B x (or_introl eq_refl)). lia.
Qed.

Lemma count_fresh l n r : within 0 n l -> n <= r -> count l r = 0.
Proof.
  intros W Hr. destruct (count l r) eqn:E; [reflexivity | exfalso].
  assert (H : In r l) by (apply count_In; lia). specialize (W r H). lia.
Qed.

Lemma render_memo_inv pdb p c :
  memo_inv pdb c -> memo_inv pdb (render_cache pdb p c).
Proof.
  intros [Fo Fc Lit]. unfold render_cache.
  destruct (derive_options (controls p) (next_ref c)) as [opts n] eqn:Ed.
  apply derive_options_spec in Ed as (Ln & Lid & _).
  unfold useSceneObjects. simpl.
  destruct (useMemo (memo_objects c) _ _ n) as [[[objects mo] n1] ev1] eqn:Eo.
  unfold useCartoon. simpl.
  destruct (useMemo (memo_cartoon c) _ _ n1) as [[[cartoon mc] n2] ev2] eqn:Ec.
  pose proof (@useMemo_cases _ _ _ _ _ _ _ _ _ _ Eo) as Co.
  pose proof (@useMemo_cases _ _ _ _ _ _ _ _ _ _ Ec) as Cc.
  assert (L1 : n <= n1).
  { destruct Co as [(d0 & _ & _ & _ & -> & _) | (Hcomp & _)]; [lia | ].
    apply build_objects_spec in Hcomp. apply Hcomp. }
  constructor; simpl.
  - intros d o Hm. destruct Co as [(d0 & E1 & _ & -> & _) | (Hcomp & -> & _)].
    + eauto.
    + injection Hm as <- <-. exists (scene p), opts, n. now rewrite Hcomp.
  - intros d g Hm. destruct Cc as [(d0 & E1 & _ & -> & _) | (Hcomp & -> & _)].
    + eauto.
    + injection Hm as <- <-.
      exists (scene p), (representation (controls p)),
        (common_materialKind (controls p)), (ribbon_thickness (controls p)), n1.
      now rewrite Hcomp.
  - intros d o id Hm Hin.
    assert (L2 : n1 <= n2).
    { destruct Cc as [(d0 & _ & _ & _ & -> & _) | (Hcomp & _)]; [lia | ].
      clear - Hcomp. unfold build_cartoon in Hcomp.
      destruct (scene p); [ | injection Hcomp; lia].
      destruct (representation (controls p)); [injection Hcomp; lia | | ];
        destruct (build_group _ n1) as [g m] eqn:E; injection Hcomp as _ <- _;
        unfold build_group in E;
        match type of E with
        | context [match ?x with _ => _ end] => destruct x
        end; simpl in E; injection E; lia. }
    destruct Co as [(d0 & E1 & _ & -> & _) | (Hcomp & -> & _)].
    + specialize (Lit _ _ _ Hm Hin). lia.
    + injection Hm as <- <-. specialize (Lid id Hin). lia.
Qed.

Lemma unmount_memo_inv pdb c : memo_inv pdb (unmount_cache c).
Proof. constructor; simpl; discriminate. Qed.

Lemma render_cache_inv pdb p c :
  unshared pdb -> cache_inv c -> cache_inv (render_cache pdb p c).
Proof.
  intros Hun [So Sc Io Ic Fr Nd Ct]. unfold render_cache.
  destruct (derive_options (controls p) (next_ref c)) as [opts n] eqn:Ed.
  apply derive_options_spec in Ed as (Ln & Lid & _).
  unfold useSceneObjects. simpl.
  destruct (useMemo (memo_objects c) _ _ n) as [[[objects mo] n1] ev1] eqn:Eo.
  unfold useCartoon. simpl.
  destruct (useMemo (memo_cartoon c) _ _ n1) as [[[cartoon mc] n2] ev2] eqn:Ec.
  pose proof (@useMemo_cases _ _ _ _ _ _ _ _ _ _ Eo) as Co.
  pose proof (@useMemo_cases _ _ _ _ _ _ _ _ _ _ Ec) as Cc.
  eapply (@memo_then_dispose _ objects_resources objects_ids dispose_deps
            dispose_objects no_objects) in Eo;
    [ | apply disposed_dispose_objects | reflexivity | apply objects_no_ids
      | apply objects_separated | exact So
      | eapply within_weaken; [ | | exact Io]; lia
      | intros; eapply build_objects_spec; eassumption ].
  destruct Eo as [So' Vo Lo Io' Po Do Wo No Cto].
  eapply (@memo_then_dispose _ cartoon_resources cartoon_ids
            (fun g => [dep_of_cartoon g]) dispose_cartoon None) in Ec;
    [ | apply disposed_dispose_cartoon | reflexivity | apply cartoon_no_ids
      | apply cartoon_separated | exact Sc
      | eapply within_weaken; [ | | exact Ic]; lia
      | intros; eapply build_cartoon_spec; eassumption ].
  destruct Ec as [Sc' Vc Lc Ic' Pc Dc Wc Nc Ctc].
  unfold commit_cache. simpl.
  set (cl_o := if effect_due (eff_objects c) (dispose_deps objects)
               then cleanup_calls dispose_objects (captured (eff_objects c)) else []) in *.
  set (cl_c := if effect_due (eff_cartoon c) [dep_of_cartoon cartoon]
               then cleanup_calls dispose_cartoon (captured (eff_cartoon c)) else []) in *.
  assert (Hprod : produced (((calls c ++ ev1) ++ ev2) ++ cl_o ++ cl_c)
                  = produced (calls c) ++ produced ev1 ++ produced ev2).
  { rewrite !produced_app, Po, Pc, !app_nil_r. now rewrite <- app_assoc. }
  assert (Hdisp : disposed (((calls c ++ ev1) ++ ev2) ++ cl_o ++ cl_c)
                  = disposed (calls c) ++ disposed cl_o ++ disposed cl_c).
  { rewrite !disposed_app, Do, Dc, !app_nil_r. reflexivity. }
  constructor; simpl.
  - exact So'.
  - exact Sc'.
  - unfold current_objects. simpl. rewrite Vo.
    eapply within_weaken; [ | | exact Io']; lia.
  - unfold current_cartoon. simpl. rewrite Vc. exact Ic'.
  - rewrite Hprod. apply within_app; [ | apply within_app].
    + eapply within_weaken; [ | | exact Fr]; lia.
    + eapply within_weaken; [ | | exact Wo]; lia.
    + eapply within_weaken; [ | | exact Wc]; lia.
  - rewrite Hprod. eapply (NoDup_app_within (lo := 0) (mid := n) (hi := n2)); auto.
    + eapply NoDup_app_within; eassumption.
    + eapply within_weaken; [ | | exact Fr]; lia.
    + apply within_app; [ | eapply within_weaken; [ | | exact Wc]; lia ].
      eapply within_weaken; [ | | exact Wo]; lia.
  - intros r. rewrite Hprod, Hdisp. unfold held, current_objects, current_cartoon.
    simpl. rewrite Vo, Vc, !count_app.
    specialize (Ct r). specialize (Cto r). specialize (Ctc r).
    unfold held, current_objects, current_cartoon in Ct.
    rewrite count_app in Ct. lia.
Qed.

Lemma unmount_cache_inv c : cache_inv c -> cache_inv (unmount_cache c).
Proof.
  intros [So Sc Io Ic Fr Nd Ct].
  assert (Hprod : produced (calls (unmount_cache c)) = produced (calls c)).
  { simpl. rewrite !produced_app.
    red in So, Sc. rewrite So, Sc.
    destruct (memo_objects c) as [[? o] | ], (memo_cartoon c) as [[? g] | ]; simpl;
      rewrite ?(proj2 (disposed_dispose_objects _)),
              ?(proj2 (disposed_dispose_cartoon _)), ?app_nil_r; reflexivity. }
  assert (Hdisp : disposed (calls (unmount_cache c)) = disposed (calls c) ++ held c).
  { simpl. rewrite !disposed_app. unfold held, current_objects, current_cartoon.
    red in So, Sc. rewrite So, Sc.
    destruct (memo_objects c) as [[? o] | ], (memo_cartoon c) as [[? g] | ]; simpl;
      rewrite ?(proj1 (disposed_dispose_objects _)),
              ?(proj1 (disposed_dispose_cartoon _)); reflexivity. }
  constructor; try rewrite Hprod; try rewrite Hdisp; auto;
    try (simpl; discriminate); try reflexivity;
    try (unfold current_objects, current_cartoon; simpl; apply within_nil).
  intros r. rewrite count_app. specialize (Ct r). unfold held at 1. simpl. lia.
Qed.

(* ===================================================================== *)
(** ** Runs of the view *)

Lemma run_app pdb v a b : run pdb v (a ++ b) = run pdb (run pdb v a) b.
Proof. apply fold_left_app. Qed.

Lemma run_snoc pdb v acts a : run pdb v (acts ++ [a]) = step pdb (run pdb v acts) a.
Proof. now rewrite run_app. Qed.

(** An invariant of the steps holds after every run. *)
Lemma run_invariant pdb (I : View -> Prop) :
  (forall v a, I v -> I (step pdb v a)) ->
  forall acts v, I v -> I (run pdb v acts).
Proof.
  intros Hstep acts. induction acts as [ | a acts IH]; simpl; auto.
Qed.

Lemma cache_step pdb v a :
  cache (step pdb v a)
  = match a with
    | Render p | ChangeSource _ p =>
        if mounted v then render_cache pdb p (cache v) else cache v
    | Frame _ | Timeout _ => cache v
    | Unmount => if mounted v then unmount_cache (cache v) else cache v
    end.
Proof.
  destruct a; simpl; try reflexivity; destruct (mounted v); try reflexivity;
    rewrite cache_render; reflexivity.
Qed.

Lemma mounted_step pdb v a :
  mounted (step pdb v a)
  = match a with Unmount => false | _ => mounted v end.
Proof.
  destruct a; simpl; try reflexivity; destruct (mounted v) eqn:E; simpl; auto;
    unfold render;
    destruct (derive_options _ _); destruct (useSceneObjects _ _ _ _);
    destruct (useCartoon _ _ _ _); reflexivity.
Qed.

Lemma cache_ok_step pdb v a : unshared pdb -> cache_ok v -> cache_ok (step pdb v a).
Proof.
  intros Hun [Hc Hu]. constructor.
  - rewrite cache_step. destruct a; try assumption; destruct (mounted v);
      auto using render_cache_inv, unmount_cache_inv.
  - rewrite cache_step, mounted_step.
    destruct a; try assumption; destruct (mounted v) eqn:E; auto; try discriminate.
Qed.

Lemma cache_ok_run pdb acts : unshared pdb -> cache_ok (run pdb mount acts).
Proof.
  intros Hun. apply run_invariant; [intros; now apply cache_ok_step | ].
  constructor; [apply empty_cache_inv | discriminate].
Qed.

Lemma memo_inv_run pdb acts : memo_inv pdb (cache (run pdb mount acts)).
Proof.
  apply (run_invariant pdb (fun v => memo_inv pdb (cache v)));
    [ | apply empty_memo_inv].
  intros v a H. rewrite cache_step. destruct a; try assumption;
    destruct (mounted v); auto using render_memo_inv, unmount_memo_inv.
Qed.



Lemma unmounted_run pdb acts :
  mounted (run pdb mount acts) = false ->
  memo_objects (cache (run pdb mount acts)) = None
  /\ memo_cartoon (cache (run pdb mount acts)) = None
  /\ shown (run pdb mount acts) = [].
Proof.
  apply (run_invariant pdb (fun v => mounted v = false ->
           memo_objects (cache v) = None /\ memo_cartoon (cache v) = None
           /\ shown v = [])); [ | discriminate].
  intros v a IH. rewrite mounted_step.
  destruct a; simpl; try assumption; destruct (mounted v) eqn:E; auto;
    discriminate.
Qed.

Lemma since_app {A} (l more : list A) : since l (l ++ more) = more.
Proof.
  unfold since. induction l as [ | x l IH]; simpl; auto.
Qed.

Lemma since_same {A} (l : list A) : since l l = [].
Proof. rewrite <- (app_nil_r l) at 2. apply since_app. Qed.

(* ===================================================================== *)
(** ** What a render pass asks of the builders *)

Lemma requested_dispose_objects ctl o : Forall (requested_by ctl) (dispose_objects o).
Proof.
  destruct o as [[a | ] [b | ] [k | ]]; repeat constructor.
Qed.

Lemma requested_dispose_cartoon ctl g : Forall (requested_by ctl) (dispose_cartoon g).
Proof.
  destruct g as [g | ]; simpl; [ | constructor].
  induction (traverse (cartoon_obj g)) as [ | m l IH]; simpl; [constructor | ].
  apply Forall_app. split; [ | assumption].
  destruct m as [[x [y | ms]] | ]; repeat constructor.
  induction ms; simpl; repeat constructor; assumption.
Qed.

Lemma requested_cleanup ctl {A} (dispose : A -> list CacheCall) (x : option A) (b : bool) :
  (forall a, Forall (requested_by ctl) (dispose a)) ->
  Forall (requested_by ctl) (if b then cleanup_calls dispose x else []).
Proof.
  intros H. destruct b, x; simpl; auto.
Qed.

Lemma andb_spheres b r : b && is_spheres r = true <-> r = spheres /\ b = true.
Proof.
  rewrite andb_true_iff, is_spheres_true. tauto.
Qed.

Lemma requested_build_objects pdb ctl n sc n' :
  Forall (requested_by ctl)
         (snd (build_objects pdb sc (fst (derive_options ctl n)) n')).
Proof.
  destruct (derive_options ctl n) as [opts m] eqn:Ed.
  apply derive_options_spec in Ed as (_ & _ & Hb & Ha & Hk & _). simpl.
  unfold build_objects. destruct sc as [s | ]; [ | constructor].
  destruct (build_atoms pdb s (atoms opts) n') as [[a n1] e1] eqn:Ea.
  destruct (build_bonds pdb s (bonds opts) n1) as [[b n2] e2] eqn:Eb.
  destruct (build_backbone pdb s (backbone opts) n2) as [[k n3] e3] eqn:Ek.
  simpl. repeat (apply Forall_app; split).
  - unfold build_atoms in Ea. destruct (atoms opts) as [ | id o] eqn:E.
    + injection Ea as _ _ <-. constructor.
    + destruct (build_primitive _ n') as [q m']. injection Ea as _ _ <-.
      repeat constructor; simpl;
        destruct (overlay_atoms ctl && is_spheres (representation ctl)) eqn:X;
        try (apply andb_spheres in X; tauto);
        destruct Ha as [_ Ha]; specialize (Ha eq_refl); discriminate.
  - unfold build_bonds in Eb. rewrite Hb in Eb.
    destruct (overlay_bonds ctl) eqn:E.
    + destruct (build_primitive _ n1) as [q m']. injection Eb as _ _ <-.
      repeat constructor. simpl. assumption.
    + injection Eb as _ _ <-. constructor.
  - unfold build_backbone in Ek. destruct (backbone opts) as [ | id o] eqn:E.
    + injection Ek as _ _ <-. constructor.
    + destruct (build_primitive _ n2) as [q m']. injection Ek as _ _ <-.
      repeat constructor; simpl;
        destruct (overlay_backbone ctl && is_spheres (representation ctl)) eqn:X;
        try (apply andb_spheres in X; tauto);
        destruct Hk as [_ Hk]; specialize (Hk eq_refl); discriminate.
Qed.

Lemma requested_build_cartoon pdb ctl sc n :
  Forall (requested_by ctl)
         (snd (build_cartoon pdb sc (representation ctl) (common_materialKind ctl)
                             (ribbon_thickness ctl) n)).
Proof.
  unfold build_cartoon. destruct sc as [s | ]; [ | constructor].
  destruct (representation ctl) eqn:E; [constructor | | ];
    destruct (build_group _ n) as [g m]; repeat constructor; simpl; assumption.
Qed.

(** One render pass, as the rest of the development sees it. *)
Lemma render_pass pdb p v :
  let c := cache v in
  let ctl := controls p in
  let opts := fst (derive_options ctl (next_ref c)) in
  exists objects cartoon more,
    memo_objects (cache (render pdb p v)) = Some (objects_deps (scene p) opts, objects)
    /\ memo_cartoon (cache (render pdb p v))
       = Some (cartoon_deps (scene p) (representation ctl)
                            (common_materialKind ctl) (ribbon_thickness ctl), cartoon)
    /\ shown (render pdb p v) = display ctl objects cartoon
    /\ calls (cache (render pdb p v)) = calls c ++ more
    /\ Forall (requested_by ctl) more.
Proof.
  intros c ctl opts. unfold render. subst opts c ctl.
  destruct (derive_options (controls p) (next_ref (cache v))) as [opts n] eqn:Ed.
  unfold useSceneObjects. simpl.
  destruct (useMemo (memo_objects (cache v)) _ _ n) as [[[objects mo] n1] ev1] eqn:Eo.
  unfold useCartoon. simpl.
  destruct (useMemo (memo_cartoon (cache v)) _ _ n1) as [[[cartoon mc] n2] ev2] eqn:Ec.
  simpl.
  pose proof (@useMemo_cases _ _ _ _ _ _ _ _ _ _ Eo) as Co.
  pose proof (@useMemo_cases _ _ _ _ _ _ _ _ _ _ Ec) as Cc.
  exists objects, cartoon. eexists. split; [ | split; [ | split; [ | split]]].
  - destruct Co as [(d & E1 & -> & -> & _) | (_ & -> & _)]; [exact E1 | reflexivity].
  - destruct Cc as [(d & E1 & -> & -> & _) | (_ & -> & _)]; [exact E1 | reflexivity].
  - reflexivity.
  - rewrite <- !app_assoc. reflexivity.
  - repeat (apply Forall_app; split).
    + destruct Co as [(d & _ & _ & _ & _ & ->) | (Hc & _)]; [constructor | ].
      pose proof (requested_build_objects pdb (controls p) (next_ref (cache v))
                    (scene p) n) as H.
      rewrite Ed in H. simpl in H. now rewrite Hc in H.
    + destruct Cc as [(d & _ & _ & _ & _ & ->) | (Hc & _)]; [constructor | ].
      pose proof (requested_build_cartoon pdb (controls p) (scene p) n1) as H.
      now rewrite Hc in H.
    + apply requested_cleanup. apply requested_dispose_objects.
    + apply requested_cleanup. apply requested_dispose_cartoon.
Qed.

(* ===================================================================== *)
(** ** Facts about the memo callbacks *)

Lemma dep_of_scene_inj a b : dep_of_scene a = dep_of_scene b -> a = b.
Proof. destruct a, b; simpl; congruence. Qed.

Lemma objects_deps_inj sc opts sc' opts' :
  objects_deps sc opts = objects_deps sc' opts' ->
  sc = sc' /\ bonds opts = bonds opts'
  /\ (atoms opts = IsFalse <-> atoms opts' = IsFalse)
  /\ (backbone opts = IsFalse <-> backbone opts' = IsFalse).
Proof.
  unfold objects_deps. intros [= Hs Ha Hb Hk].
  apply dep_of_scene_inj in Hs.
  repeat split; auto; intros E; rewrite E in *; simpl in *;
    match goal with
    | H : context [dep_of_option ?x] |- ?x = _ => destruct x; [reflexivity | discriminate]
    end.
Qed.

Lemma cartoon_deps_inj sc r k t sc' r' k' t' :
  cartoon_deps sc r k t = cartoon_deps sc' r' k' t' ->
  sc = sc' /\ r = r' /\ k = k' /\ t = t'.
Proof.
  unfold cartoon_deps. intros [= Hs -> -> ->].
  apply dep_of_scene_inj in Hs. auto.
Qed.

Lemma build_objects_backbone_off pdb sc opts n :
  backbone opts = IsFalse ->
  obj_backbone (fst (fst (build_objects pdb sc opts n))) = None.
Proof.
  intros E. unfold build_objects. destruct sc as [s | ]; [ | reflexivity].
  destruct (build_atoms pdb s (atoms opts) n) as [[a n1] e1].
  destruct (build_bonds pdb s (bonds opts) n1) as [[b n2] e2].
  rewrite E. reflexivity.
Qed.


Lemma build_objects_atoms pdb sc opts n p :
  obj_atoms (fst (fst (build_objects pdb sc opts n))) = Some p ->
  exists s id o m, sc = Some s /\ atoms opts = Obj id o
    /\ makeAtomsMesh pdb s (atom_args o) = Some m /\ props p = force_white m.
Proof.
  unfold build_objects. destruct sc as [s | ]; [ | discriminate].
  destruct (build_atoms pdb s (atoms opts) n) as [[a n1] e1] eqn:Ea.
  destruct (build_bonds pdb s (bonds opts) n1) as [[b n2] e2].
  destruct (build_backbone pdb s (backbone opts) n2) as [[k n3] e3]. simpl.
  intros ->. unfold build_atoms in Ea.
  destruct (atoms opts) as [ | id o]; [discriminate | ].
  destruct (build_primitive _ n) as [q m'] eqn:Eq. injection Ea as -> _ _.
  apply build_primitive_spec in Eq as (_ & _ & _ & _ & _ & Hq).
  specialize (Hq _ eq_refl).
  destruct (makeAtomsMesh pdb s (atom_args o)) as [m | ] eqn:Em; [ | discriminate].
  exists s, id, o, m. simpl in Hq. repeat split; congruence.
Qed.

Lemma build_cartoon_some pdb sc ctl n :
  fst (fst (build_cartoon pdb sc (representation ctl) (common_materialKind ctl)
                          (ribbon_thickness ctl) n)) <> None <->
  exists s, sc = Some s /\ ribbon_available pdb s ctl.
Proof.
  unfold build_cartoon, ribbon_available. destruct sc as [s | ].
  - destruct (representation ctl).
    + simpl. split; [congruence | intros (? & _ & [])].
    + destruct (makeRibbonMesh pdb s _) as [o | ] eqn:E; simpl; split.
      * intros _. exists s. split; congruence.
      * discriminate.
      * congruence.
      * intros (? & [= <-] & H). congruence.
    + destruct (makeFlatRibbonMesh pdb s _) as [o | ] eqn:E; simpl; split.
      * intros _. exists s. split; congruence.
      * discriminate.
      * congruence.
      * intros (? & [= <-] & H). congruence.
  - simpl. split; [congruence | intros (? & [=] & _)].
Qed.

Lemma ribbon_available_mode pdb s ctl :
  ribbon_available pdb s ctl ->
  representation ctl = ribbon_tube \/ representation ctl = ribbon_flat.
Proof.
  unfold ribbon_available. destruct (representation ctl); tauto.
Qed.


(* ===================================================================== *)
(** ** Claims about the scene-object cache *)

(** C7.  Whenever atoms are enabled and the builder returns a mesh whose
    material has a color, the atom primitive built by the memo callback of
    useSceneObjects has vertex colors off and the color "#ffffff", for
    every options value and so for every material kind; and in every state
    a run of the view reaches, the atom primitive useSceneObjects returns
    has vertex colors off and, if its material has a color, that color is
    white. *)
Theorem atoms_forced_white pdb :
  (forall s opts id o n m,
      atoms opts = Obj id o ->
      makeAtomsMesh pdb s (atom_args o) = Some m ->
      mat_color m <> None ->
      exists p,
        obj_atoms (fst (fst (build_objects pdb (Some s) opts n))) = Some p
        /\ vertexColors (props p) <> Some true
        /\ mat_color (props p) = Some white)
  /\ (forall acts p,
        obj_atoms (current_objects (cache (run pdb mount acts))) = Some p ->
        vertexColors (props p) <> Some true
        /\ (mat_color (props p) <> None -> mat_color (props p) = Some white)).
Proof.
  assert (W : forall m, vertexColors (force_white m) <> Some true
              /\ (mat_color (force_white m) <> None ->
                  mat_color (force_white m) = Some white)).
  { intros m. unfold force_white. simpl.
    destruct (vertexColors m), (mat_color m); split;
      try discriminate; try (intros _; reflexivity); congruence. }
  split.
  - intros s opts id o n m Ha Hm Hc. unfold build_objects.
    destruct (build_atoms pdb s (atoms opts) n) as [[a n1] e1] eqn:Ea.
    destruct (build_bonds pdb s (bonds opts) n1) as [[b n2] e2].
    destruct (build_backbone pdb s (backbone opts) n2) as [[k n3] e3]. simpl.
    unfold build_atoms in Ea. rewrite Ha, Hm in Ea. simpl in Ea.
    injection Ea as <- _ _. eexists. split; [reflexivity | ]. simpl.
    destruct (W m) as [W1 W2]. split; [exact W1 | ]. apply W2.
    unfold force_white. simpl. destruct (mat_color m); congruence.
  - intros acts p Hp. destruct (memo_inv_run pdb acts) as [Fo _ _].
    unfold current_objects in Hp.
    destruct (memo_objects (cache (run pdb mount acts))) as [[d o] | ] eqn:E;
      [ | discriminate].
    destruct (Fo _ _ eq_refl) as (sc & opts & n & _ & ->). simpl in Hp.
    apply build_objects_atoms in Hp as (s & id & a & m & _ & _ & _ & ->).
    apply W.
Qed.

Lemma atoms_forced_white_witness :
  atoms (fst (derive_options default_controls 1)) = Obj 1
    {| sphereDetail := Some 16%Z; materialKind := Some standard;
       radiusScale := Some 30%Z |}
  /\ mat_color lit_material <> None
  /\ exists p,
       obj_atoms (fst (fst (build_objects sample_builders (Some 7)
                              (fst (derive_options default_controls 1)) 3))) = Some p
       /\ vertexColors (props p) <> Some true
       /\ mat_color (props p) = Some white.
Proof.
  split; [reflexivity | ]. split; [discriminate | ].
  apply (proj1 (atoms_forced_white sample_builders) 7
           (fst (derive_options default_controls 1)) 1
           {| sphereDetail := Some 16%Z; materialKind := Some standard;
              radiusScale := Some 30%Z |} 3 lit_material);
    [reflexivity | reflexivity | discriminate].
Defined.

(** C1 (the code departs from the claim).  Two consecutive render passes
    with the same scene and the same controls have memoization tuples that
    are equal by value, yet the second pass calls the three builders again,
    disposes the six resources of the first pass and returns a different
    atom primitive: the options objects are new literals in every pass and
    the dependency array compares them by identity. *)
Theorem equal_tuple_still_rebuilds :
  let p := loaded default_controls in
  let v1 := run sample_builders mount [Render p] in
  let v2 := step sample_builders v1 (Render p) in
  let opts1 := fst (derive_options (controls p) (next_ref (cache mount))) in
  let opts2 := fst (derive_options (controls p) (next_ref (cache v1))) in
  memo_key (scene p) opts1 = memo_key (scene p) opts2
  /\ objects_deps (scene p) opts1 <> objects_deps (scene p) opts2
  /\ map is_builder_call (since (calls (cache v1)) (calls (cache v2)))
     = [true; true; true; false; false; false; false; false; false]
  /\ disposed (since (calls (cache v1)) (calls (cache v2)))
     = held (cache v1)
  /\ option_map prim_id (obj_atoms (current_objects (cache v1))) = Some 3
  /\ option_map prim_id (obj_atoms (current_objects (cache v2))) = Some 14.
Proof.
  vm_compute. repeat split; try reflexivity. discriminate.
Qed.

(** With the atoms overlay on in spheres mode and a scene, no render pass
    of any run reuses the memoized primitives: the options literal is new,
    the memo callback runs and calls makeAtomsMesh again. *)
Lemma atoms_enabled_rebuilds pdb acts p s :
  let v := run pdb mount acts in
  mounted v = true -> scene p = Some s ->
  overlay_atoms (controls p) = true -> representation (controls p) = spheres ->
  exists a r,
    In (CallMakeAtoms s a r)
       (since (calls (cache v)) (calls (cache (step pdb v (Render p))))).
Proof.
  intros v M Hs Ha Hr. simpl. rewrite M, cache_render.
  destruct (memo_inv_run pdb acts) as [_ _ Lit]. fold v in Lit.
  unfold render_cache.
  destruct (derive_options (controls p) (next_ref (cache v))) as [opts n] eqn:Ed.
  apply derive_options_spec in Ed as (_ & _ & _ & Hoff & _ & Hid).
  destruct (atoms opts) as [ | id o] eqn:Eo.
  { destruct Hoff as [Hoff _]. specialize (Hoff eq_refl).
    rewrite Ha, Hr in Hoff. discriminate. }
  specialize (Hid _ _ eq_refl). subst id.
  unfold useSceneObjects. simpl.
  destruct (useMemo (memo_objects (cache v)) _ _ n) as [[[objects mo] n1] ev1] eqn:Em.
  unfold useCartoon. simpl.
  destruct (useMemo (memo_cartoon (cache v)) _ _ n1) as [[[cartoon mc] n2] ev2].
  simpl. rewrite <- !app_assoc, since_app.
  apply useMemo_cases in Em as [(d & E & -> & _) | (Hc & _)].
  - exfalso. specialize (Lit _ _ (next_ref (cache v)) E).
    assert (next_ref (cache v) < next_ref (cache v)); [ | lia].
    apply Lit. simpl. rewrite Eo. now left.
  - rewrite Hs in Hc. unfold build_objects in Hc.
    destruct (build_atoms pdb s (atoms opts) n) as [[a n'] e1] eqn:Ea.
    destruct (build_bonds pdb s (bonds opts) n') as [[b n''] e2].
    destruct (build_backbone pdb s (backbone opts) n'') as [[k n3] e3].
    injection Hc as _ _ <-. rewrite Eo in Ea. unfold build_atoms in Ea.
    destruct (build_primitive _ n) as [q m]. injection Ea as _ _ <-.
    exists (atom_args o), q. simpl. now left.
Qed.

(** C8.  In every render pass of every run: a call of makeAtomsMesh or
    makeBackboneLines happens only with representation = spheres (and the
    overlay on), makeRibbonMesh only with ribbon-tube, makeFlatRibbonMesh
    only with ribbon-flat, makeBondLines only with the bonds toggle on; the
    ribbon group is null unless the representation is a ribbon mode and the
    scene is non-null; the bonds option is the bonds toggle whatever the
    representation, and with a scene the memo callback then calls
    makeBondLines. *)
Theorem representation_gating pdb acts p :
  let v := run pdb mount acts in
  let v' := step pdb v (Render p) in
  let ctl := controls p in
  Forall (requested_by ctl) (since (calls (cache v)) (calls (cache v')))
  /\ (current_cartoon (cache v') <> None ->
      (representation ctl = ribbon_tube \/ representation ctl = ribbon_flat)
      /\ scene p <> None)
  /\ (forall n, atoms (fst (derive_options ctl n)) <> IsFalse ->
                representation ctl = spheres)
  /\ (forall n, backbone (fst (derive_options ctl n)) <> IsFalse ->
                representation ctl = spheres)
  /\ (forall n, bonds (fst (derive_options ctl n)) = overlay_bonds ctl)
  /\ (forall n n' s, overlay_bonds ctl = true ->
        exists r, In (CallMakeBonds s r)
                     (snd (build_objects pdb (Some s) (fst (derive_options ctl n)) n'))).
Proof.
  intros v v' ctl.
  assert (Hopt : forall n,
            bonds (fst (derive_options ctl n)) = overlay_bonds ctl
            /\ (atoms (fst (derive_options ctl n)) <> IsFalse -> representation ctl = spheres)
            /\ (backbone (fst (derive_options ctl n)) <> IsFalse -> representation ctl = spheres)).
  { intros n. destruct (derive_options ctl n) as [opts m] eqn:Ed.
    apply derive_options_spec in Ed as (_ & _ & Hb & Ha & Hk & _). simpl.
    split; [exact Hb | ].
    split; intros H.
    - destruct (overlay_atoms ctl && is_spheres (representation ctl)) eqn:X;
        [apply andb_spheres in X; tauto | tauto].
    - destruct (overlay_backbone ctl && is_spheres (representation ctl)) eqn:X;
        [apply andb_spheres in X; tauto | tauto]. }
  split; [ | split; [ | split; [ | split; [ | split]]]]; try (intros n; apply Hopt).
  - subst v'. simpl. destruct (mounted v) eqn:M.
    + destruct (render_pass pdb p v) as (o & g & more & _ & _ & _ & -> & H).
      now rewrite since_app.
    + rewrite since_same. constructor.
  - subst v'. simpl. destruct (mounted v) eqn:M.
    + intros H.
      assert (I : memo_inv pdb (cache (render pdb p v))).
      { pose proof (memo_inv_run pdb (acts ++ [Render p])) as I.
        rewrite run_snoc in I. simpl in I. fold v in I. now rewrite M in I. }
      destruct I as [_ Fc _]. unfold current_cartoon in H.
      destruct (render_pass pdb p v) as (o & g & more & _ & Eg & _).
      rewrite Eg in H. simpl in H.
      destruct (Fc _ _ Eg) as (sc & r & k & t & n & Hd & Hg).
      apply cartoon_deps_inj in Hd as (<- & <- & <- & <-).
      rewrite Hg in H. apply build_cartoon_some in H as (s & Hs & Hr).
      split; [eapply ribbon_available_mode; eassumption | congruence].
    + intros H. exfalso. apply H. unfold current_cartoon.
      destruct (unmounted_run pdb acts M) as (_ & E & _). fold v in E.
      now rewrite E.
  - intros n n' s Hb. destruct (Hopt n) as (Eb & _).
    unfold build_objects.
    destruct (build_atoms pdb s _ n') as [[a n1] e1].
    rewrite Eb, Hb. unfold build_bonds.
    destruct (build_primitive (makeBondLines pdb s) n1) as [q m].
    destruct (build_backbone pdb s _ m) as [[k n3] e3]. simpl.
    exists q. apply in_or_app. right. now left.
Qed.

Lemma representation_gating_witness :
  let v := run sample_builders mount [Render (loaded default_controls)] in
  let p := loaded (with_representation ribbon_tube default_controls) in
  let v' := step sample_builders v (Render p) in
  current_cartoon (cache v') <> None
  /\ overlay_bonds (controls p) = true
  /\ representation (controls p) = ribbon_tube
  /\ Forall (requested_by (controls p)) (since (calls (cache v)) (calls (cache v'))).
Proof.
  pose proof (representation_gating sample_builders
                [Render (loaded default_controls)]
                (loaded (with_representation ribbon_tube default_controls))) as H.
  simpl in H. destruct H as (H1 & H2 & _).
  split; [vm_compute; discriminate | ].
  split; [reflexivity | ]. split; [reflexivity | exact H1].
Defined.




Lemma sample_unshared : unshared sample_builders.
Proof.
  split; intros s a o [= <-]; repeat constructor; simpl; intuition discriminate.
Defined.


(* ===================================================================== *)
(** ** The controller, in closed form *)

Lemma initial_cleanup_eq t f :
  initial_cleanup t f
  = (Normal tt, match t with
                | Some h => set_timers (dequeue h (timers f)) f
                | None => f
                end).
Proof. destruct t; reflexivity. Qed.

Lemma reload_cleanup_eq c f :
  reload_cleanup c f
  = (Normal tt, match c with
                | Some inst => set_rafs (cancel_all (vars_of inst f) (rafs f)) f
                | None => f
                end).
Proof.
  destruct c as [inst | ]; [ | reflexivity].
  destruct f. unfold reload_cleanup, bind, read, when, cancelAnimationFrame,
    modify, ret, cancel_all, cancel, vars_of. simpl.
  repeat match goal with
         | |- context [?x =? 0] => destruct (x =? 0); simpl
         end; reflexivity.
Qed.

Lemma initial_effect_eq f :
  initial_effect f
  = if did f then (Normal None, f)
    else (Normal (Some (next_handle f)),
          set_timers (timers f ++ [(next_handle f, InitialFit)])
                     (set_next_handle (S (next_handle f)) f)).
Proof.
  unfold initial_effect, bind, read. destruct (did f); reflexivity.
Qed.

Lemma nth_update_nth {A} i j (g : A -> A) l d :
  nth j (update_nth i g l) d
  = if (i =? j) && (j <? List.length l) then g (nth j l d) else nth j l d.
Proof.
  revert i j. induction l as [ | a l IH]; intros [ | i] [ | j]; simpl; auto;
    try (now rewrite andb_false_r).
Qed.

Lemma length_update_nth {A} i (g : A -> A) l :
  List.length (update_nth i g l) = List.length l.
Proof.
  revert i. induction l as [ | a l IH]; intros [ | i]; simpl; auto.
Qed.

Lemma update_nth_last {A} (g : A -> A) l a :
  update_nth (List.length l) g (l ++ [a]) = l ++ [g a].
Proof. induction l as [ | x l IH]; simpl; congruence. Qed.

Lemma reload_effect_eq scene loading src f :
  reload_effect scene loading src f
  = if reload_guard scene loading src f
    then (Normal (Some (List.length (closures f))),
          requested (FirstFrame (List.length (closures f)) src)
                    (List.length (closures f)) with_raf1
                    (set_closures (closures f ++ [no_rafs]) f))
    else (Normal None, f).
Proof.
  unfold reload_effect, reload_guard. destruct scene as [s | ]; [ | reflexivity].
  destruct loading; [reflexivity | ]. unfold bind, read. simpl.
  destruct (same_source (lastFittedSource f) src); reflexivity.
Qed.

Lemma firstFrame_eq inst src f :
  firstFrame inst src f
  = (Normal tt, requested (DoFit inst src) inst with_raf2 f).
Proof. reflexivity. Qed.

Lemma logged_nil f : logged [] f = f.
Proof. destruct f. unfold logged. simpl. now rewrite app_nil_r. Qed.

Lemma logged_logged a b f : logged b (logged a f) = logged (a ++ b) f.
Proof. unfold logged. simpl. now rewrite app_assoc. Qed.

Lemma log_eq e f : log e f = (Normal tt, logged [e] f).
Proof. reflexivity. Qed.

Lemma recompute_bounds_eq o g s f :
  recompute_bounds o (Some (g, s)) f
  = if bounds_throw o
    then (Abrupt "computeBoundingBox", logged [ComputeBoundingBox g] f)
    else (Normal tt, logged [ComputeBoundingBox g; ComputeBoundingSphere g] f).
Proof.
  unfold recompute_bounds, computeBoundingBox, computeBoundingSphere, bind.
  rewrite !log_eq. destruct (bounds_throw o); simpl; [reflexivity | ].
  unfold logged. simpl. now rewrite <- app_assoc.
Qed.

Lemma for_each_bounds_eq o l f :
  for_each l (recompute_bounds o) f
  = (completion_of (snd (bounds_run o l)), logged (fst (bounds_run o l)) f).
Proof.
  revert f. induction l as [ | m l IH]; intros f; cbn [for_each bounds_run].
  - simpl. now rewrite logged_nil.
  - destruct m as [[g s] | ].
    + unfold bind. rewrite recompute_bounds_eq.
      destruct (bounds_throw o); [reflexivity | ]. rewrite IH.
      destruct (bounds_run o l) as [evs e]. simpl.
      now rewrite logged_logged.
    + unfold bind. simpl. apply IH.
Qed.

Lemma refresh_fit_eq o t f :
  exists c, refresh_fit o t f = (c, attempt o t f)
            /\ (c = Normal tt <-> attempt_ok o = true).
Proof.
  unfold refresh_fit, attempt, attempt_ok, bind, log, modify, ret, throw, logged.
  destruct (refresh_throws o); simpl.
  - eexists. split; [reflexivity | ]. split; discriminate.
  - destruct (fit_throws o); simpl; rewrite <- app_assoc; simpl.
    + eexists. split; [reflexivity | ]. split; discriminate.
    + eexists. split; [reflexivity | ]. tauto.
Qed.

Lemma doFit_eq o inst src f :
  doFit o inst src f = (Normal tt, doFit_result o inst src f).
Proof.
  unfold doFit, try_catch, doFit_try, doFit_result, bind at 1, read.
  destruct (contentRef f) as [children | ].
  - destruct (List.length children =? 0); [reflexivity | ].
    unfold bind at 1. rewrite for_each_bounds_eq.
    destruct (bounds_run o (traverse (Node None children))) as [evs [e | ]]; simpl;
      [reflexivity | ].
    unfold bind. destruct (refresh_fit_eq o ContentGroup (logged evs f))
      as (c & -> & Hc).
    unfold record_source. destruct c as [[] | e].
    + rewrite (proj1 Hc eq_refl). reflexivity.
    + destruct (attempt_ok o); [ | reflexivity].
      destruct Hc as [_ Hc]. discriminate (Hc eq_refl).
  - unfold bind. destruct (refresh_fit_eq o WholeScene f) as (c & -> & Hc).
    unfold record_source. destruct c as [[] | e].
    + rewrite (proj1 Hc eq_refl). reflexivity.
    + destruct (attempt_ok o); [ | reflexivity].
      destruct Hc as [_ Hc]. discriminate (Hc eq_refl).
Qed.

Lemma initialFit_eq o f :
  initialFit o f = (Normal tt, set_did true (attempt o WholeScene f)).
Proof.
  unfold initialFit, bind, try_catch.
  destruct (refresh_fit_eq o WholeScene f) as (c & -> & _).
  destruct c; reflexivity.
Qed.

Lemma call_eq o cb f : call o cb f = (Normal tt, call_result o cb f).
Proof.
  destruct cb; simpl; [apply initialFit_eq | apply firstFrame_eq | apply doFit_eq].
Qed.

Lemma fire_eq o f e :
  fire o f e = call_result o (snd e) (logged [Fired (fst e) (snd e)] f).
Proof.
  unfold fire, exec, bind. rewrite log_eq, call_eq. reflexivity.
Qed.

Lemma commit_fit_eq scene src loading api content f :
  exec (commit_fit scene src loading api content) f
  = commit_result scene src loading api content f.
Proof.
  unfold exec, commit_fit, commit_result, bind at 1 2 3, read, modify.
  cbv beta iota.
  change (eff_initial (set_contentRef content f)) with (eff_initial f).
  change (eff_reload (set_contentRef content f)) with (eff_reload f).
  set (f0 := set_contentRef content f).
  set (due_i := effect_due (eff_initial f) (initial_deps api)).
  set (due_r := effect_due (eff_reload f) (reload_deps scene src loading api)).
  set (ct := flatten (captured (eff_initial f))).
  set (cr := flatten (captured (eff_reload f))).
  assert (S1 : when due_i (initial_cleanup ct) f0
               = (Normal tt, stage_cancel_timer due_i ct f0)).
  { unfold when, stage_cancel_timer. destruct due_i; [ | reflexivity].
    apply initial_cleanup_eq. }
  unfold bind at 1. rewrite S1. set (f1 := stage_cancel_timer due_i ct f0).
  assert (S2 : when due_r (reload_cleanup cr) f1
               = (Normal tt, stage_cancel_rafs due_r cr f1)).
  { unfold when, stage_cancel_rafs. destruct due_r; [ | reflexivity].
    apply reload_cleanup_eq. }
  unfold bind at 1. rewrite S2. set (f2 := stage_cancel_rafs due_r cr f1).
  assert (S3 : when due_i (t <- initial_effect;;
                 (fun f => (Normal tt, set_eff_initial (Some (initial_deps api, t)) f))) f2
               = (Normal tt, stage_initial due_i api f2)).
  { unfold when, stage_initial. destruct due_i; [ | reflexivity].
    unfold bind. rewrite initial_effect_eq. destruct (did f2); reflexivity. }
  unfold bind at 1. rewrite S3. set (f3 := stage_initial due_i api f2).
  unfold when, stage_reload. destruct due_r; [ | reflexivity].
  unfold bind. rewrite reload_effect_eq.
  destruct (reload_guard scene loading src f3); reflexivity.
Qed.

Lemma frame_nil o f : rafs f = [] -> frame o f = set_rafs [] f.
Proof. unfold frame. now intros ->. Qed.

Lemma frame_one o f h cb :
  rafs f = [(h, cb)] ->
  frame o f = call_result o cb (logged [Fired h cb] (set_rafs [] f)).
Proof. unfold frame. intros ->. simpl. apply fire_eq. Qed.

Lemma timeout_nil o f : timers f = [] -> timeout o f = set_timers [] f.
Proof. unfold timeout. now intros ->. Qed.

Lemma timeout_one o f h cb :
  timers f = [(h, cb)] ->
  timeout o f = call_result o cb (logged [Fired h cb] (set_timers [] f)).
Proof. unfold timeout. intros ->. simpl. apply fire_eq. Qed.

Lemma unmount_fit_eq f : exec unmount_fit f = unmount_result f.
Proof.
  unfold exec, unmount_fit, unmount_result, bind at 1 2, read. cbv beta iota.
  unfold bind at 1. rewrite initial_cleanup_eq.
  unfold bind at 1. rewrite reload_cleanup_eq. reflexivity.
Qed.

(* ===================================================================== *)
(** ** Invariant of the controller *)

Lemma raf_ok_ext src f f' :
  rafs f' = rafs f -> eff_reload f' = eff_reload f -> closures f' = closures f ->
  lastFittedSource f' = lastFittedSource f -> raf_ok src f -> raf_ok src f'.
Proof.
  unfold raf_ok, vars_of. intros -> -> -> ->. exact (fun H => H).
Qed.

Lemma base_inv_ext f f' :
  next_handle f' = next_handle f -> uncaught f' = uncaught f ->
  timers f' = timers f -> eff_initial f' = eff_initial f -> did f' = did f ->
  rafs f' = rafs f -> fired (fit_log f') = fired (fit_log f) ->
  initial_fits (fit_log f') = initial_fits (fit_log f) ->
  base_inv f -> base_inv f'.
Proof.
  intros H1 H2 H3 H4 H5 H6 H7 H8 [A B C D E F G].
  constructor; unfold timer_ok in *;
    rewrite ?H1, ?H2, ?H3, ?H4, ?H5, ?H6, ?H7, ?H8; assumption.
Qed.

Lemma dequeue_same h cb : dequeue h [(h, cb)] = [].
Proof. unfold dequeue. simpl. now rewrite Nat.eqb_refl. Qed.

Lemma dequeue_subset h q x : In x (handles (dequeue h q)) -> In x (handles q).
Proof.
  unfold handles, dequeue. intros H. apply in_map_iff in H as (e & <- & He).
  apply filter_In in He as [He _]. now apply in_map.
Qed.

Lemma cancel_subset h q x : In x (handles (cancel h q)) -> In x (handles q).
Proof.
  unfold cancel. destruct (h =? 0); [tauto | apply dequeue_subset].
Qed.

Lemma cancel_all_subset v q x : In x (handles (cancel_all v q)) -> In x (handles q).
Proof.
  unfold cancel_all. intros H.
  now apply cancel_subset, cancel_subset, cancel_subset in H.
Qed.

Lemma cancel_nil h : cancel h [] = [].
Proof. unfold cancel. now destruct (h =? 0). Qed.

Lemma cancel_one h h' cb :
  cancel h' [(h, cb)] = if (negb (h' =? 0)) && (h =? h') then [] else [(h, cb)].
Proof.
  unfold cancel, dequeue. simpl. destruct (h' =? 0); simpl; [reflexivity | ].
  destruct (h =? h'); reflexivity.
Qed.

Lemma cancel_all_one v h cb :
  0 < h -> raf1 v = h \/ raf2 v = h \/ raf3 v = h -> cancel_all v [(h, cb)] = [].
Proof.
  intros Hh Hv. unfold cancel_all. rewrite (cancel_one h (raf1 v)).
  destruct (Nat.eqb_spec h (raf1 v)) as [E1 | E1].
  - replace (raf1 v =? 0) with false by (symmetry; apply Nat.eqb_neq; lia).
    simpl. now rewrite !cancel_nil.
  - rewrite andb_false_r, (cancel_one h (raf2 v)).
    destruct (Nat.eqb_spec h (raf2 v)) as [E2 | E2].
    + replace (raf2 v =? 0) with false by (symmetry; apply Nat.eqb_neq; lia).
      simpl. now rewrite !cancel_nil.
    + rewrite andb_false_r, (cancel_one h (raf3 v)).
      destruct (Nat.eqb_spec h (raf3 v)) as [E3 | E3].
      * replace (raf3 v =? 0) with false by (symmetry; apply Nat.eqb_neq; lia).
        reflexivity.
      * exfalso. destruct Hv as [H | [H | H]]; congruence.
Qed.

Lemma fired_app a b : fired (a ++ b) = fired a ++ fired b.
Proof. apply flat_map_app. Qed.

Lemma initial_fits_app a b : initial_fits (a ++ b) = initial_fits a + initial_fits b.
Proof. unfold initial_fits. now rewrite filter_app, length_app. Qed.

Lemma silent_bounds o l : silent (fst (bounds_run o l)).
Proof.
  induction l as [ | [[g s] | ] l IH]; simpl; try (split; reflexivity); auto.
  destruct (bounds_throw o); [split; reflexivity | ].
  destruct (bounds_run o l) as [evs e]. simpl in *. destruct IH as [A B].
  split; simpl; assumption.
Qed.

Lemma logged_silent evs f :
  silent evs ->
  fired (fit_log (logged evs f)) = fired (fit_log f)
  /\ initial_fits (fit_log (logged evs f)) = initial_fits (fit_log f).
Proof.
  intros [A B]. unfold logged. simpl.
  rewrite fired_app, initial_fits_app, A, B, app_nil_r. auto.
Qed.

(** [attempt] touches the log and the camera only. *)
Lemma attempt_spec o t f :
  exists evs, silent evs
    /\ fit_log (attempt o t f) = fit_log f ++ evs
    /\ next_handle (attempt o t f) = next_handle f
    /\ did (attempt o t f) = did f
    /\ lastFittedSource (attempt o t f) = lastFittedSource f
    /\ eff_initial (attempt o t f) = eff_initial f
    /\ eff_reload (attempt o t f) = eff_reload f
    /\ closures (attempt o t f) = closures f
    /\ timers (attempt o t f) = timers f
    /\ rafs (attempt o t f) = rafs f
    /\ contentRef (attempt o t f) = contentRef f
    /\ uncaught (attempt o t f) = uncaught f
    /\ (attempt_ok o = false -> camera (attempt o t f) = camera f)
    /\ (attempt_ok o = true ->
        camera (attempt o t f) = t :: camera f /\ evs = [Refresh t; FitCall t]).
Proof.
  unfold attempt, attempt_ok.
  destruct (refresh_throws o); [ | destruct (fit_throws o)]; simpl;
    eexists; (split; [ | split; [reflexivity | ]]);
    try (split; reflexivity);
    repeat split; try reflexivity; try discriminate.
Qed.

Lemma base_inv_no_timers f : base_inv f -> base_inv (set_timers [] f).
Proof.
  intros [A B C D E F G]. constructor; simpl; auto.
  - now left.
  - intros h H. apply E. rewrite app_nil_r in H. apply in_or_app. now left.
Qed.

Lemma base_inv_no_rafs f : base_inv f -> base_inv (set_rafs [] f).
Proof.
  intros [A B C D E F G]. constructor; simpl; auto.
  intros h H. apply E. apply in_or_app. now right.
Qed.

Lemma raf_ok_no_rafs src f : raf_ok src (set_rafs [] f).
Proof. now left. Qed.

Lemma cancel_timer_cases due f :
  timer_ok f ->
  let f' := stage_cancel_timer due (flatten (captured (eff_initial f))) f in
  (f' = f \/ f' = set_timers [] f) /\ (due = true -> timers f' = []).
Proof.
  intros T. unfold stage_cancel_timer. destruct due; [ | split; [now left | discriminate]].
  destruct T as [T | (h & d & T & E & _)].
  - destruct (flatten (captured (eff_initial f))) as [t | ].
    + rewrite T. simpl. split; [now right | reflexivity].
    + split; [now left | intros _; exact T].
  - rewrite E. simpl. rewrite T, dequeue_same. split; [now right | reflexivity].
Qed.

Lemma cancel_rafs_cases src due f :
  raf_ok src f ->
  let f' := stage_cancel_rafs due (flatten (captured (eff_reload f))) f in
  (f' = f \/ f' = set_rafs [] f) /\ (due = true -> rafs f' = []).
Proof.
  intros R. unfold stage_cancel_rafs. destruct due; [ | split; [now left | discriminate]].
  destruct R as [R | (h & inst & sc & l & a & E & _ & Hh & _ & R)].
  - destruct (flatten (captured (eff_reload f))) as [c | ].
    + rewrite R. unfold cancel_all. rewrite !cancel_nil. simpl.
      split; [now right | reflexivity].
    + split; [now left | intros _; exact R].
  - rewrite E. simpl.
    destruct R as [[R V] | [R V]]; rewrite R, cancel_all_one; auto;
      try (split; [now right | reflexivity]); tauto.
Qed.

Lemma stage_initial_frame due api f :
  let f' := stage_initial due api f in
  rafs f' = rafs f /\ eff_reload f' = eff_reload f /\ closures f' = closures f
  /\ lastFittedSource f' = lastFittedSource f /\ fit_log f' = fit_log f
  /\ camera f' = camera f /\ did f' = did f /\ uncaught f' = uncaught f
  /\ contentRef f' = contentRef f /\ next_handle f <= next_handle f'.
Proof.
  unfold stage_initial. destruct due; [destruct (did f) eqn:Ed | ]; simpl;
    repeat split; auto; lia.
Qed.

Lemma stage_initial_inv due api f :
  base_inv f -> (due = true -> timers f = []) -> base_inv (stage_initial due api f).
Proof.
  intros [A B C D E F G] Hd. unfold stage_initial.
  destruct due; [ | constructor; assumption]. specialize (Hd eq_refl).
  destruct (did f) eqn:Ed.
  - constructor; simpl; auto.
    + left. exact Hd.
    + split; [apply G | rewrite Ed; discriminate].
  - constructor; simpl; auto; try rewrite Hd; simpl;
      try (split; [apply G | intros _; now apply G]).
    + right. exists (next_handle f), (initial_deps api). auto.
    + intros h Hr [<- | []]. destruct (E _ (in_or_app _ _ _ (or_introl Hr))). lia.
    + intros h H. apply in_app_or in H as [H | [<- | []]].
      * destruct (E _ (in_or_app _ _ _ (or_introl H))). split; [lia | assumption].
      * split; [lia | ]. intros H. apply F in H. lia.
    + intros h H. apply F in H. lia.
Qed.

Lemma vars_of_requested cb inst w f j :
  vars_of j (requested cb inst w f)
  = if (inst =? j) && (j <? List.length (closures f))
    then w (next_handle f) (vars_of j f) else vars_of j f.
Proof. unfold vars_of, requested. simpl. apply nth_update_nth. Qed.

Lemma stage_reload_frame due scene src loading api f :
  let f' := stage_reload due scene src loading api f in
  timers f' = timers f /\ eff_initial f' = eff_initial f /\ did f' = did f
  /\ lastFittedSource f' = lastFittedSource f /\ fit_log f' = fit_log f
  /\ camera f' = camera f /\ uncaught f' = uncaught f
  /\ contentRef f' = contentRef f /\ next_handle f <= next_handle f'.
Proof.
  unfold stage_reload. destruct due; [destruct (reload_guard _ _ _ f) | ]; simpl;
    repeat split; auto; lia.
Qed.

Lemma reload_guard_true scene loading src f :
  reload_guard scene loading src f = true <->
  scene <> None /\ loading = false /\ lastFittedSource f <> Some src.
Proof.
  unfold reload_guard, same_source. destruct scene as [s | ].
  - destruct loading; simpl.
    + split; [discriminate | intros (_ & H & _); discriminate].
    + destruct (lastFittedSource f) as [x | ]; simpl.
      * destruct (string_dec x src) as [-> | N]; simpl.
        -- split; [discriminate | intros (_ & _ & H); congruence].
        -- split; [ | reflexivity]. intros _. repeat split; congruence.
      * split; [ | reflexivity]. intros _. repeat split; congruence.
  - split; [discriminate | intros (H & _); congruence].
Qed.

Lemma stage_reload_inv due scene src loading api f :
  base_inv f -> (due = true -> rafs f = []) -> (due = false -> raf_ok src f) ->
  fit_inv src (stage_reload due scene src loading api f).
Proof.
  intros [A B C D E F G] Hd Hn. unfold stage_reload.
  destruct due; [ | split; [constructor; assumption | now apply Hn]].
  specialize (Hd eq_refl). clear Hn.
  destruct (reload_guard scene loading src f) eqn:Eg.
  - apply reload_guard_true in Eg as (_ & _ & Hlast). split.
    + constructor; simpl; auto; rewrite ?Hd; simpl.
      * intros h [<- | []] Ht.
        destruct (E _ (in_or_app _ _ _ (or_intror Ht))). lia.
      * intros h [<- | H].
        -- split; [lia | ]. intros H. apply F in H. lia.
        -- rewrite Hd in E. destruct (E _ H). split; [lia | assumption].
      * intros h H. apply F in H. lia.
    + right.
      exists (next_handle f), (List.length (closures f)), scene, loading, api.
      split; [reflexivity | ]. simpl.
      rewrite length_update_nth, length_app. simpl.
      split; [lia | ]. split; [exact A | ]. split; [exact Hlast | ]. left.
      rewrite Hd. split; [reflexivity | ].
      unfold vars_of. simpl. rewrite update_nth_last.
      rewrite app_nth2, Nat.sub_diag; [reflexivity | lia].
  - split; [constructor; simpl; assumption | left; exact Hd].
Qed.

Lemma raf_ok_same_source src src' scene loading api f :
  raf_ok src f ->
  effect_due (eff_reload f) (reload_deps scene src' loading api) = false ->
  raf_ok src' f.
Proof.
  intros [R | (h & inst & sc & l & a & E & Hi & Hh & Hl & R)] Hdue; [now left | ].
  rewrite E in Hdue. simpl in Hdue. apply negb_false_iff, same_deps_true in Hdue.
  injection Hdue as _ <- _ _. right. exists h, inst, sc, l, a. auto.
Qed.

(** The commit of a render pass keeps the invariant, also when the source
    has changed. *)
Lemma commit_inv src src' scene loading api content f :
  fit_inv src f -> fit_inv src' (commit_result scene src' loading api content f).
Proof.
  intros [B R]. unfold commit_result.
  set (f0 := set_contentRef content f).
  assert (B0 : base_inv f0) by (eapply base_inv_ext; [ .. | exact B]; reflexivity).
  assert (R0 : raf_ok src f0) by (eapply raf_ok_ext; [ .. | exact R]; reflexivity).
  change (eff_initial f) with (eff_initial f0).
  change (eff_reload f) with (eff_reload f0).
  set (due_i := effect_due (eff_initial f0) (initial_deps api)).
  set (due_r := effect_due (eff_reload f0) (reload_deps scene src' loading api)).
  destruct (cancel_timer_cases due_i (fi_timers B0)) as [C1 T1].
  set (f1 := stage_cancel_timer due_i (flatten (captured (eff_initial f0))) f0) in *.
  assert (B1 : base_inv f1).
  { destruct C1 as [-> | ->]; [assumption | now apply base_inv_no_timers]. }
  assert (R1 : raf_ok src f1).
  { destruct C1 as [-> | ->]; [assumption | ].
    eapply raf_ok_ext; [ .. | exact R0]; reflexivity. }
  assert (E1 : eff_reload f1 = eff_reload f0) by (destruct C1 as [-> | ->]; reflexivity).
  rewrite <- E1.
  destruct (cancel_rafs_cases due_r R1) as [C2 T2].
  set (f2 := stage_cancel_rafs due_r (flatten (captured (eff_reload f1))) f1) in *.
  assert (B2 : base_inv f2).
  { destruct C2 as [-> | ->]; [assumption | now apply base_inv_no_rafs]. }
  assert (T2' : due_i = true -> timers f2 = []).
  { intros H. destruct C2 as [-> | ->]; simpl; auto. }
  assert (R2 : due_r = false -> raf_ok src' f2).
  { intros H. subst f2. rewrite H. simpl.
    eapply raf_ok_same_source; [exact R1 | ]. rewrite E1. exact H. }
  pose proof (@stage_initial_inv due_i api f2 B2 T2') as B3.
  pose proof (stage_initial_frame due_i api f2) as (P1 & P2 & P3 & P4 & _).
  set (f3 := stage_initial due_i api f2) in *.
  apply stage_reload_inv; [exact B3 | | ].
  - intros H. rewrite P1. auto.
  - intros H. eapply raf_ok_ext; [ .. | exact (R2 H)]; assumption.
Qed.

Lemma firing_raf_inv f h cb :
  base_inv f -> rafs f = [(h, cb)] -> cb <> InitialFit ->
  base_inv (firing h cb (set_rafs [] f)).
Proof.
  intros [A B C D E F G] Hr Hcb. rewrite Hr in *.
  assert (Hh : h < next_handle f /\ ~ In h (fired (fit_log f))).
  { apply E. simpl. now left. }
  constructor; simpl; auto.
  - intros x Hx. rewrite fired_app. simpl. split.
    + apply (E x). simpl. now right.
    + intros H. apply in_app_or in H as [H | [<- | []]].
      * destruct (E x) as [_ N]; [simpl; now right | contradiction].
      * apply (D h); simpl; auto.
  - intros x. rewrite fired_app. simpl. intros H.
    apply in_app_or in H as [H | [<- | []]]; [auto | tauto].
  - rewrite initial_fits_app.
    replace (initial_fits [Fired h cb]) with 0 by (destruct cb; [congruence | reflexivity ..]).
    rewrite Nat.add_0_r. assumption.
Qed.

Lemma firing_timer_inv f h :
  base_inv f -> timers f = [(h, InitialFit)] -> did f = false ->
  base_inv (set_did true (firing h InitialFit (set_timers [] f))).
Proof.
  intros [A B C D E F G] Ht Hd. rewrite Ht in *.
  assert (Hh : h < next_handle f /\ ~ In h (fired (fit_log f))).
  { apply E. apply in_or_app. right. now left. }
  constructor; simpl; auto.
  - now left.
  - intros x Hx. rewrite app_nil_r in Hx. rewrite fired_app. simpl. split.
    + apply (E x). apply in_or_app. now left.
    + intros H. apply in_app_or in H as [H | [<- | []]].
      * destruct (E x) as [_ N]; [apply in_or_app; now left | contradiction].
      * apply (D h); simpl; auto.
  - intros x. rewrite fired_app. simpl. intros H.
    apply in_app_or in H as [H | [<- | []]]; [auto | tauto].
  - rewrite initial_fits_app. destruct G as [_ G]. rewrite (G Hd).
    change (initial_fits [Fired h InitialFit]) with 1.
    split; [lia | discriminate].
Qed.

Lemma requested_inv cb inst w f :
  base_inv f -> rafs f = [] -> base_inv (requested cb inst w f).
Proof.
  intros [A B C D E F G] Hr. rewrite Hr in *. simpl in E.
  constructor; simpl; auto; rewrite ?Hr; simpl.
  - intros h [<- | []] Ht. destruct (E _ Ht). lia.
  - intros h [<- | H].
    + split; [lia | ]. intros H. apply F in H. lia.
    + destruct (E _ H). split; [lia | assumption].
  - intros h H. apply F in H. lia.
Qed.

Lemma requested_raf_ok src inst w f sc l a :
  (w = with_raf2 \/ w = with_raf3) ->
  0 < next_handle f -> rafs f = [] ->
  eff_reload f = Some (reload_deps sc src l a, Some inst) ->
  inst < List.length (closures f) -> lastFittedSource f <> Some src ->
  raf_ok src (requested (DoFit inst src) inst w f).
Proof.
  intros Hw Hn Hr He Hi Hl. right.
  exists (next_handle f), inst, sc, l, a. simpl.
  rewrite length_update_nth, Hr. repeat split; auto. right.
  split; [reflexivity | ]. rewrite vars_of_requested, Nat.eqb_refl.
  replace (inst <? List.length (closures f)) with true
    by (symmetry; now apply Nat.ltb_lt).
  simpl. destruct Hw as [-> | ->]; simpl; auto.
Qed.

(** What [doFit] leaves when it does not ask for another frame. *)
Lemma doFit_settles o inst src f :
  (forall children, contentRef f = Some children -> children <> []) ->
  let f' := doFit_result o inst src f in
  exists evs, silent evs
    /\ fit_log f' = fit_log f ++ evs
    /\ next_handle f' = next_handle f /\ did f' = did f
    /\ eff_initial f' = eff_initial f /\ eff_reload f' = eff_reload f
    /\ closures f' = closures f /\ timers f' = timers f /\ rafs f' = rafs f
    /\ contentRef f' = contentRef f /\ uncaught f' = uncaught f
    /\ (lastFittedSource f' = lastFittedSource f /\ camera f' = camera f
        \/ lastFittedSource f' = Some src /\ attempt_ok o = true
           /\ exists t, camera f' = t :: camera f).
Proof.
  intros Hc. unfold doFit_result.
  assert (Hrec : forall t g pre, silent pre ->
            fit_log g = fit_log f ++ pre ->
            next_handle g = next_handle f -> did g = did f ->
            eff_initial g = eff_initial f -> eff_reload g = eff_reload f ->
            closures g = closures f -> timers g = timers f -> rafs g = rafs f ->
            contentRef g = contentRef f -> uncaught g = uncaught f ->
            lastFittedSource g = lastFittedSource f -> camera g = camera f ->
            let f' := record_source (attempt_ok o) src (attempt o t g) in
            exists evs, silent evs
              /\ fit_log f' = fit_log f ++ evs
              /\ next_handle f' = next_handle f /\ did f' = did f
              /\ eff_initial f' = eff_initial f /\ eff_reload f' = eff_reload f
              /\ closures f' = closures f /\ timers f' = timers f /\ rafs f' = rafs f
              /\ contentRef f' = contentRef f /\ uncaught f' = uncaught f
              /\ (lastFittedSource f' = lastFittedSource f /\ camera f' = camera f
                  \/ lastFittedSource f' = Some src /\ attempt_ok o = true
                     /\ exists t, camera f' = t :: camera f)).
  { intros t g pre [S1 S2] G1 G2 G3 G4 G5 G6 G7 G8 G9 G10 G11 G12.
    destruct (attempt_spec o t g)
      as (evs & [E1 E2] & A1 & A2 & A3 & A4 & A5 & A6 & A7 & A8 & A9 & A10 & A11 & A12 & A13).
    exists (pre ++ evs). unfold record_source.
    destruct (attempt_ok o) eqn:Ok; simpl;
      rewrite ?A1, ?A2, ?A3, ?A4, ?A5, ?A6, ?A7, ?A8, ?A9, ?A10, ?A11,
              ?G1, ?G2, ?G3, ?G4, ?G5, ?G6, ?G7, ?G8, ?G9, ?G10, ?G11, ?app_assoc;
      (split; [split; [rewrite fired_app, S1, E1 | rewrite initial_fits_app, S2, E2];
               reflexivity | ]);
      repeat (split; [reflexivity | ]).
    - right. split; [reflexivity | ]. split; [reflexivity | ].
      destruct (A13 eq_refl) as [-> _]. rewrite G12. eauto.
    - left. rewrite A12, G12; auto. }
  destruct (contentRef f) as [children | ] eqn:Ec.
  - destruct children as [ | c cs]; [exfalso; now apply (Hc [] eq_refl) | ].
    cbn [List.length Nat.eqb].
    pose proof (silent_bounds o (traverse (Node None (c :: cs)))) as Sb.
    destruct (bounds_run o (traverse (Node None (c :: cs)))) as [evs [e | ]].
    + exists evs. simpl in Sb. unfold logged. simpl. rewrite Ec.
      repeat (split; [try reflexivity; try apply Sb | ]). left. auto.
    + simpl in Sb.
      apply (Hrec ContentGroup (logged evs f) evs); auto.
  - apply (Hrec WholeScene f []); auto;
      [split; reflexivity | now rewrite app_nil_r].
Qed.

Lemma frame_inv src o f : fit_inv src f -> fit_inv src (frame o f).
Proof.
  intros [B R].
  destruct R as [R | (h & inst & sc & l & a & E & Hi & Hh & Hl & R)].
  - rewrite (frame_nil o f R). split; [now apply base_inv_no_rafs | now left].
  - destruct R as [[R V] | [R V]]; rewrite (frame_one o f R); unfold call_result;
      match goal with
      | |- context [logged [Fired h ?cb] ?g] => fold (firing h cb g)
      end.
    + pose proof (firing_raf_inv B R) as B0.
      assert (N : FirstFrame inst src <> InitialFit) by discriminate.
      specialize (B0 N). split.
      * apply requested_inv; [exact B0 | reflexivity].
      * eapply requested_raf_ok; try eassumption; auto. apply B0.
    + pose proof (firing_raf_inv B R) as B0.
      assert (N : DoFit inst src <> InitialFit) by discriminate.
      specialize (B0 N).
      set (f0 := firing h (DoFit inst src) (set_rafs [] f)) in *.
      destruct (contentRef f0) as [[ | c cs] | ] eqn:Ec.
      * unfold doFit_result. rewrite Ec. cbn [List.length Nat.eqb]. split.
        -- apply requested_inv; [exact B0 | reflexivity].
        -- eapply requested_raf_ok; try eassumption; auto. apply B0.
      * destruct (@doFit_settles o inst src f0)
          as (evs & [S1 S2] & L & P1 & P2 & P3 & P4 & P5 & P6 & P7 & P8 & P9 & _).
        { intros ch. rewrite Ec. intros [= <-]. discriminate. }
        split; [ | left; now rewrite P7].
        eapply base_inv_ext; [ .. | exact B0]; auto;
          rewrite L; [rewrite fired_app, S1 | rewrite initial_fits_app, S2];
          auto using app_nil_r.
      * destruct (@doFit_settles o inst src f0)
          as (evs & [S1 S2] & L & P1 & P2 & P3 & P4 & P5 & P6 & P7 & P8 & P9 & _).
        { intros ch. rewrite Ec. discriminate. }
        split; [ | left; now rewrite P7].
        eapply base_inv_ext; [ .. | exact B0]; auto;
          rewrite L; [rewrite fired_app, S1 | rewrite initial_fits_app, S2];
          auto using app_nil_r.
Qed.

Lemma timeout_inv src o f : fit_inv src f -> fit_inv src (timeout o f).
Proof.
  intros [B R]. destruct (fi_timers B) as [T | (h & d & T & E & Hd)].
  - rewrite (timeout_nil o f T). split; [now apply base_inv_no_timers | ].
    eapply raf_ok_ext; [ .. | exact R]; reflexivity.
  - rewrite (timeout_one o f T). unfold call_result.
    fold (firing h InitialFit (set_timers [] f)).
    pose proof (firing_timer_inv B T Hd) as B0.
    destruct (attempt_spec o WholeScene (firing h InitialFit (set_timers [] f)))
      as (evs & [S1 S2] & A1 & A2 & A3 & A4 & A5 & A6 & A7 & A8 & A9 & A10 & A11 & _).
    split.
    + eapply base_inv_ext; [ .. | exact B0]; simpl; auto;
        rewrite A1; [rewrite fired_app, S1 | rewrite initial_fits_app, S2];
        auto using app_nil_r.
    + eapply raf_ok_ext; [ .. | exact R]; simpl; auto.
Qed.

Lemma unmount_inv src f :
  fit_inv src f ->
  fit_inv src (unmount_result f)
  /\ timers (unmount_result f) = [] /\ rafs (unmount_result f) = [].
Proof.
  intros [B R]. unfold unmount_result.
  destruct (cancel_timer_cases true (fi_timers B)) as [C1 T1].
  set (f1 := stage_cancel_timer true (flatten (captured (eff_initial f))) f) in *.
  assert (B1 : base_inv f1).
  { destruct C1 as [-> | ->]; [assumption | now apply base_inv_no_timers]. }
  assert (R1 : raf_ok src f1).
  { destruct C1 as [-> | ->]; [assumption | ].
    eapply raf_ok_ext; [ .. | exact R]; reflexivity. }
  assert (E1 : eff_reload f1 = eff_reload f) by (destruct C1 as [-> | ->]; reflexivity).
  rewrite <- E1.
  destruct (cancel_rafs_cases true R1) as [C2 T2].
  set (f2 := stage_cancel_rafs true (flatten (captured (eff_reload f1))) f1) in *.
  assert (B2 : base_inv f2).
  { destruct C2 as [-> | ->]; [assumption | now apply base_inv_no_rafs]. }
  assert (T2' : timers f2 = []).
  { destruct C2 as [-> | ->]; simpl; auto. }
  specialize (T2 eq_refl). simpl.
  split; [ | split; assumption].
  destruct B2 as [A B' C D E F G]. split.
  - constructor; simpl; auto. now left.
  - left. exact T2.
Qed.

(* ===================================================================== *)
(** ** The controller along the runs of the view *)

Lemma fit_render pdb p v :
  fit (render pdb p v)
  = commit_result (scene p) (sourceUrl v) (loading p) (api p)
                  (content_of p (shown (render pdb p v))) (fit v).
Proof.
  unfold render.
  destruct (derive_options _ _) as [opts n].
  destruct (useSceneObjects _ _ _ _) as [objects c1].
  destruct (useCartoon _ _ _ _) as [cartoon c2]. simpl.
  apply commit_fit_eq.
Qed.

Lemma sourceUrl_render pdb p v : sourceUrl (render pdb p v) = sourceUrl v.
Proof.
  unfold render.
  destruct (derive_options _ _) as [opts n].
  destruct (useSceneObjects _ _ _ _) as [objects c1].
  destruct (useCartoon _ _ _ _) as [cartoon c2]. reflexivity.
Qed.

Lemma mounted_step' pdb p v : mounted v = true -> mounted (render pdb p v) = true.
Proof.
  intros _. unfold render.
  destruct (derive_options _ _) as [opts n].
  destruct (useSceneObjects _ _ _ _) as [objects c1].
  destruct (useCartoon _ _ _ _) as [cartoon c2]. reflexivity.
Qed.

Lemma empty_fit_inv src : fit_inv src empty_fit.
Proof.
  split; [ | now left]. constructor; simpl; auto; try tauto; try lia.
  now left.
Qed.

Lemma view_fit_step pdb v a : view_fit_inv v -> view_fit_inv (step pdb v a).
Proof.
  intros [I U]. destruct a as [p | s p | o | o | ]; simpl.
  - destruct (mounted v) eqn:M;
      [ | constructor; [exact I | intros _; now apply U]]. constructor.
    + rewrite fit_render, sourceUrl_render. now apply commit_inv with (src := sourceUrl v).
    + rewrite mounted_step' by exact M. discriminate.
  - destruct (mounted v) eqn:M;
      [ | constructor; [exact I | intros _; now apply U]]. constructor.
    + rewrite fit_render, sourceUrl_render. simpl.
      now apply commit_inv with (src := sourceUrl v).
    + rewrite mounted_step' by exact M. discriminate.
  - constructor; simpl; [now apply frame_inv | ].
    intros M. destruct (U M) as [T R]. rewrite (frame_nil o _ R). auto.
  - constructor; simpl; [now apply timeout_inv | ].
    intros M. destruct (U M) as [T R]. rewrite (timeout_nil o _ T). auto.
  - destruct (mounted v) eqn:M;
      [ | constructor; [exact I | intros _; now apply U]].
    unfold unmount. constructor; simpl; rewrite unmount_fit_eq;
      destruct (unmount_inv I) as (I' & T & R); auto.
Qed.

Lemma view_fit_run pdb acts : view_fit_inv (run pdb mount acts).
Proof.
  apply run_invariant; [intros; now apply view_fit_step | ].
  constructor; [apply empty_fit_inv | discriminate].
Qed.

Lemma stage_cancel_timer_frame due t f :
  let f' := stage_cancel_timer due t f in
  rafs f' = rafs f /\ eff_reload f' = eff_reload f /\ closures f' = closures f
  /\ lastFittedSource f' = lastFittedSource f /\ fit_log f' = fit_log f
  /\ camera f' = camera f /\ did f' = did f /\ uncaught f' = uncaught f
  /\ next_handle f' = next_handle f /\ eff_initial f' = eff_initial f
  /\ (forall x, In x (handles (timers f')) -> In x (handles (timers f))).
Proof.
  unfold stage_cancel_timer. destruct due; [destruct t | ]; simpl;
    repeat split; auto. apply dequeue_subset.
Qed.

Lemma stage_cancel_rafs_frame due c f :
  let f' := stage_cancel_rafs due c f in
  timers f' = timers f /\ eff_reload f' = eff_reload f /\ closures f' = closures f
  /\ lastFittedSource f' = lastFittedSource f /\ fit_log f' = fit_log f
  /\ camera f' = camera f /\ did f' = did f /\ uncaught f' = uncaught f
  /\ next_handle f' = next_handle f /\ eff_initial f' = eff_initial f
  /\ (forall x, In x (handles (rafs f')) -> In x (handles (rafs f))).
Proof.
  unfold stage_cancel_rafs. destruct due; [destruct c | ]; simpl;
    repeat split; auto. apply cancel_all_subset.
Qed.

(** A commit touches neither the log, the camera, the two refs nor the
    uncaught exceptions. *)
Lemma commit_frame scene src loading api content f :
  let f' := commit_result scene src loading api content f in
  fit_log f' = fit_log f /\ did f' = did f
  /\ lastFittedSource f' = lastFittedSource f /\ camera f' = camera f
  /\ uncaught f' = uncaught f /\ next_handle f <= next_handle f'.
Proof.
  unfold commit_result.
  set (due_i := effect_due (eff_initial f) (initial_deps api)).
  set (due_r := effect_due (eff_reload f) (reload_deps scene src loading api)).
  set (f0 := set_contentRef content f).
  pose proof (stage_cancel_timer_frame due_i (flatten (captured (eff_initial f))) f0)
    as (_ & _ & _ & A4 & A5 & A6 & A7 & A8 & A9 & _).
  set (f1 := stage_cancel_timer due_i _ f0) in *.
  pose proof (stage_cancel_rafs_frame due_r (flatten (captured (eff_reload f))) f1)
    as (_ & _ & _ & B4 & B5 & B6 & B7 & B8 & B9 & _).
  set (f2 := stage_cancel_rafs due_r _ f1) in *.
  pose proof (stage_initial_frame due_i api f2)
    as (_ & _ & _ & C4 & C5 & C6 & C7 & C8 & _ & C10).
  set (f3 := stage_initial due_i api f2) in *.
  pose proof (stage_reload_frame due_r scene src loading api f3)
    as (_ & _ & D3 & D4 & D5 & D6 & D7 & _ & D9).
  set (f4 := stage_reload due_r scene src loading api f3) in *.
  cbv zeta. rewrite D5, D3, D4, D6, D7, C5, C7, C4, C6, C8, B5, B7, B4, B6, B8,
    A5, A7, A4, A6, A8.
  repeat split; try reflexivity. simpl in A9. lia.
Qed.





(* ===================================================================== *)
(** ** Claims about the camera-fit controller *)



Lemma bounds_run_fine o l :
  bounds_throw o = false ->
  bounds_run o l
  = (flat_map (fun m => match m with
                        | Some (g, _) => [ComputeBoundingBox g; ComputeBoundingSphere g]
                        | None => []
                        end) l, None).
Proof.
  intros H. induction l as [ | [[g s] | ] l IH]; simpl; auto.
  now rewrite H, IH.
Qed.



(* ===================================================================== *)
(** ** Cancelled callbacks *)









Lemma requested_grows cb inst w f : rafs f = [] -> grows f (requested cb inst w f).
Proof.
  intros R. split; [simpl; lia | split; [ | simpl; auto]]. simpl. rewrite R. simpl.
  intros x [<- | H]; [right; lia | left; exact H].
Qed.












(** [doFit_try] ends in the state [doFit] ends in; when it throws, the
    camera and [lastFittedSource] are as before. *)
Lemma doFit_try_eq o inst src f :
  exists c, doFit_try o inst src f = (c, doFit_result o inst src f)
    /\ (forall e, c = Abrupt e ->
          camera (doFit_result o inst src f) = camera f
          /\ lastFittedSource (doFit_result o inst src f) = lastFittedSource f
          /\ rafs (doFit_result o inst src f) = rafs f).
Proof.
  assert (Hatt : forall t g,
            camera g = camera f -> lastFittedSource g = lastFittedSource f ->
            rafs g = rafs f ->
            exists c,
              (x <- refresh_fit o t ;; modify (set_lastFittedSource (Some src))) g
              = (c, record_source (attempt_ok o) src (attempt o t g))
              /\ (forall e, c = Abrupt e ->
                    camera (record_source (attempt_ok o) src (attempt o t g)) = camera f
                    /\ lastFittedSource (record_source (attempt_ok o) src (attempt o t g))
                       = lastFittedSource f
                    /\ rafs (record_source (attempt_ok o) src (attempt o t g)) = rafs f)).
  { intros t g G1 G2 G3. unfold bind.
    destruct (refresh_fit_eq o t g) as (c & -> & Hc).
    destruct (attempt_spec o t g)
      as (evs & _ & _ & _ & _ & A3 & _ & _ & _ & _ & A8 & _ & _ & A11 & _).
    unfold record_source. destruct c as [[] | e].
    - rewrite (proj1 Hc eq_refl). eexists. split; [reflexivity | discriminate].
    - destruct (attempt_ok o) eqn:Ok.
      + destruct Hc as [_ Hc]. discriminate (Hc eq_refl).
      + eexists. split; [reflexivity | ]. intros _ _.
        rewrite (A11 eq_refl), A3, A8. auto. }
  unfold doFit_try, doFit_result, bind at 1, read.
  destruct (contentRef f) as [children | ].
  - destruct (List.length children =? 0).
    + eexists. split; [reflexivity | discriminate].
    + unfold bind at 1. rewrite for_each_bounds_eq.
      destruct (bounds_run o (traverse (Node None children))) as [evs [e | ]]; simpl.
      * eexists. split; [reflexivity | ]. intros _ _. auto.
      * apply Hatt; reflexivity.
  - apply Hatt; reflexivity.
Qed.

(** C6.  Every callback the controller hands to the scheduler completes
    normally, whatever the calls into three.js and drei do; when the fit
    inside the initial-fit timeout or anything inside the try block of doFit
    throws, the camera is as before; in every run no exception has reached
    the scheduler, and the initial-fit callback has fired at most once. *)
Theorem fit_errors_contained pdb :
  (forall o cb f, fst (call o cb f) = Normal tt)
  /\ (forall o f e,
        fst (refresh_fit o WholeScene f) = Abrupt e ->
        camera (snd (initialFit o f)) = camera f)
  /\ (forall o inst src f e,
        fst (doFit_try o inst src f) = Abrupt e ->
        camera (snd (doFit o inst src f)) = camera f)
  /\ (forall acts,
        uncaught (fit (run pdb mount acts)) = []
        /\ initial_fits (fit_log (fit (run pdb mount acts))) <= 1).
Proof.
  split; [ | split; [ | split]].
  - intros o cb f. now rewrite call_eq.
  - intros o f e H. rewrite initialFit_eq. simpl.
    destruct (refresh_fit_eq o WholeScene f) as (c & E & Hc). rewrite E in H.
    simpl in H. subst c.
    destruct (attempt_spec o WholeScene f)
      as (evs & _ & _ & _ & _ & _ & _ & _ & _ & _ & _ & _ & _ & A & _).
    apply A. destruct (attempt_ok o); [ | reflexivity].
    destruct Hc as [_ Hc]. discriminate (Hc eq_refl).
  - intros o inst src f e H. rewrite doFit_eq. simpl.
    destruct (doFit_try_eq o inst src f) as (c & E & Hc). rewrite E in H.
    simpl in H. now apply (Hc e).
  - intros acts. destruct (view_fit_run pdb acts) as [[B _] _].
    split; [apply (fi_uncaught B) | apply (fi_once B)].
Qed.

Lemma fit_errors_contained_witness :
  let f := fit (run sample_builders mount
                  [Render (loaded default_controls); Frame all_fine]) in
  fst (doFit_try fit_fails 0 "/models/1IGY.pdb" f) = Abrupt "fit"
  /\ camera (snd (doFit fit_fails 0 "/models/1IGY.pdb" f)) = camera f.
Proof.
  split; [reflexivity | ].
  exact (proj1 (proj2 (proj2 (fit_errors_contained sample_builders)))
           fit_fails 0 "/models/1IGY.pdb"
           (fit (run sample_builders mount
                   [Render (loaded default_controls); Frame all_fine]))
           "fit" eq_refl).
Defined.

(** C9.  When anything inside the try block of doFit throws,
    lastFittedSource is as before, and the next run of the reload effect
    (its dependencies having changed) with a scene, loading over and that
    source still unfitted requests a frame for a new attempt, while a commit
    that does not rerun the effect requests none; the initial-fit callback
    sets its done flag whatever the fit did, and in every run it has fired
    at most once. *)
Theorem fit_paths_asymmetric pdb :
  (forall o inst src f e,
      fst (doFit_try o inst src f) = Abrupt e ->
      lastFittedSource (snd (doFit o inst src f)) = lastFittedSource f)
  /\ (forall scene src loading api content f,
        effect_due (eff_reload f) (reload_deps scene src loading api) = true ->
        scene <> None -> loading = false -> lastFittedSource f <> Some src ->
        exists h inst,
          next_handle f <= h
          /\ In (h, FirstFrame inst src)
                (rafs (exec (commit_fit scene src loading api content) f)))
  /\ (forall scene src loading api content f x,
        effect_due (eff_reload f) (reload_deps scene src loading api) = false ->
        In x (handles (rafs (exec (commit_fit scene src loading api content) f))) ->
        In x (handles (rafs f)))
  /\ (forall o f, did (snd (initialFit o f)) = true)
  /\ (forall acts, initial_fits (fit_log (fit (run pdb mount acts))) <= 1).
Proof.
  split; [ | split; [ | split; [ | split]]].
  - intros o inst src f e H. rewrite doFit_eq. simpl.
    destruct (doFit_try_eq o inst src f) as (c & E & Hc). rewrite E in H.
    simpl in H. now apply (Hc e).
  - intros scene src loading api content f Due Hs Hl Hf.
    rewrite commit_fit_eq. unfold commit_result. rewrite Due.
    set (f0 := set_contentRef content f).
    set (due_i := effect_due (eff_initial f) (initial_deps api)).
    pose proof (stage_cancel_timer_frame due_i (flatten (captured (eff_initial f))) f0)
      as (_ & _ & _ & A4 & _ & _ & _ & _ & A9 & _).
    set (f1 := stage_cancel_timer due_i _ f0) in *.
    pose proof (stage_cancel_rafs_frame true (flatten (captured (eff_reload f))) f1)
      as (_ & _ & _ & B4 & _ & _ & _ & _ & B9 & _).
    set (f2 := stage_cancel_rafs true _ f1) in *.
    pose proof (stage_initial_frame due_i api f2) as (_ & _ & _ & C4 & _ & _ & _ & _ & _ & C10).
    set (f3 := stage_initial due_i api f2) in *.
    assert (G : reload_guard scene loading src f3 = true).
    { apply reload_guard_true. repeat split; auto.
      rewrite C4, B4, A4. exact Hf. }
    unfold stage_reload. rewrite G.
    exists (next_handle f3), (List.length (closures f3)). split.
    + rewrite B9, A9 in C10. exact C10.
    + simpl. apply in_or_app. right. now left.
  - intros scene src loading api content f x Due.
    rewrite commit_fit_eq. unfold commit_result. rewrite Due.
    set (f0 := set_contentRef content f).
    set (due_i := effect_due (eff_initial f) (initial_deps api)).
    pose proof (stage_cancel_timer_frame due_i (flatten (captured (eff_initial f))) f0)
      as (A1 & _).
    set (f1 := stage_cancel_timer due_i _ f0) in *.
    pose proof (stage_initial_frame due_i api (stage_cancel_rafs false
                  (flatten (captured (eff_reload f))) f1)) as (C1 & _).
    unfold stage_reload. rewrite C1. simpl. now rewrite A1.
  - intros o f. now rewrite initialFit_eq.
  - intros acts. destruct (view_fit_run pdb acts) as [[B _] _]. apply (fi_once B).
Qed.

Lemma fit_paths_asymmetric_witness :
  let f := fit (run sample_builders mount
                  [Render (loaded default_controls); Frame all_fine]) in
  fst (doFit_try fit_fails 0 "/models/1IGY.pdb" f) = Abrupt "fit"
  /\ lastFittedSource (snd (doFit fit_fails 0 "/models/1IGY.pdb" f))
     = lastFittedSource f.
Proof.
  split; [reflexivity | ].
  exact (proj1 (fit_paths_asymmetric sample_builders)
           fit_fails 0 "/models/1IGY.pdb"
           (fit (run sample_builders mount
                   [Render (loaded default_controls); Frame all_fine]))
           "fit" eq_refl).
Defined.

(* ===================================================================== *)
(** ** Anatomy of a render pass *)

Lemma useMemo_stored {A E} (m : Slot A) deps (compute : Ref -> A * Ref * list E)
    n v m' n' ev :
  useMemo m deps compute n = (v, m', n', ev) -> m' = Some (deps, v).
Proof.
  intros H. apply useMemo_cases in H as [(d & -> & -> & -> & _) | (_ & -> & _)];
    reflexivity.
Qed.

Lemma useMemo_hit {A E} deps (v : A) (compute : Ref -> A * Ref * list E) n :
  useMemo (Some (deps, v)) deps compute n = (v, Some (deps, v), n, []).
Proof. unfold useMemo. now rewrite same_deps_refl. Qed.

(** The two memos, then the two dispose effects. *)
Lemma render_anatomy pdb p v :
  let ctl := controls p in
  let opts := fst (derive_options ctl (next_ref (cache v))) in
  let n := snd (derive_options ctl (next_ref (cache v))) in
  exists objects mo n1 ev1 cartoon mc n2 ev2,
    useMemo (memo_objects (cache v)) (objects_deps (scene p) opts)
            (build_objects pdb (scene p) opts) n = (objects, mo, n1, ev1)
    /\ useMemo (memo_cartoon (cache v))
               (cartoon_deps (scene p) (representation ctl)
                             (common_materialKind ctl) (ribbon_thickness ctl))
               (build_cartoon pdb (scene p) (representation ctl)
                              (common_materialKind ctl) (ribbon_thickness ctl)) n1
       = (cartoon, mc, n2, ev2)
    /\ current_objects (cache (render pdb p v)) = objects
    /\ current_cartoon (cache (render pdb p v)) = cartoon
    /\ shown (render pdb p v) = display ctl objects cartoon
    /\ calls (cache (render pdb p v))
       = calls (cache v) ++ (ev1 ++ ev2)
         ++ (if effect_due (eff_objects (cache v)) (dispose_deps objects)
             then cleanup_calls dispose_objects (captured (eff_objects (cache v)))
             else [])
         ++ (if effect_due (eff_cartoon (cache v)) [dep_of_cartoon cartoon]
             then cleanup_calls dispose_cartoon (captured (eff_cartoon (cache v)))
             else [])
    /\ cache (render pdb p v)
       = commit_cache objects cartoon
           {| next_ref := n2; memo_objects := mo; eff_objects := eff_objects (cache v);
              memo_cartoon := mc; eff_cartoon := eff_cartoon (cache v);
              calls := (calls (cache v) ++ ev1) ++ ev2 |}.
Proof.
  intros ctl opts n. subst ctl opts n. unfold render.
  destruct (derive_options (controls p) (next_ref (cache v))) as [opts n].
  unfold useSceneObjects. simpl.
  destruct (useMemo (memo_objects (cache v)) _ _ n) as [[[objects mo] n1] ev1] eqn:Eo.
  unfold useCartoon. simpl.
  destruct (useMemo (memo_cartoon (cache v)) _ _ n1) as [[[cartoon mc] n2] ev2] eqn:Ec.
  exists objects, mo, n1, ev1, cartoon, mc, n2, ev2.
  pose proof (useMemo_stored _ _ _ _ Eo) as So.
  pose proof (useMemo_stored _ _ _ _ Ec) as Sc.
  unfold current_objects, current_cartoon. simpl. rewrite So, Sc. simpl.
  split; [congruence | ]. split; [congruence | ].
  repeat (split; [reflexivity | ]). split; [ | congruence].
  now rewrite <- !app_assoc.
Qed.

Lemma build_cartoon_le pdb sc rep k t n :
  n <= snd (fst (build_cartoon pdb sc rep k t n)).
Proof.
  unfold build_cartoon. destruct sc as [s | ]; [ | simpl; lia].
  destruct rep; [simpl; lia | | ];
    destruct (build_group _ n) as [g m] eqn:E; simpl;
    unfold build_group in E;
    match type of E with
    | context [match ?x with _ => _ end] => destruct x
    end; simpl in E; injection E; lia.
Qed.

Lemma useMemo_le {A} (m : Slot A) deps (compute : Ref -> A * Ref * list CacheCall)
    n v m' n' ev :
  useMemo m deps compute n = (v, m', n', ev) ->
  n <= snd (fst (compute n)) -> n <= n'.
Proof.
  intros H Hc. apply useMemo_cases in H as [(d & _ & _ & _ & -> & _) | (E & _)];
    [lia | ]. now rewrite E in Hc.
Qed.

Lemma step_render pdb v p :
  mounted v = true -> step pdb v (Render p) = render pdb p v.
Proof. simpl. now intros ->. Qed.

Lemma mounted_render pdb p v : mounted (render pdb p v) = true.
Proof.
  unfold render. destruct (derive_options _ _); destruct (useSceneObjects _ _ _ _);
    destruct (useCartoon _ _ _ _); reflexivity.
Qed.

Lemma build_objects_calls pdb sc opts n :
  Forall (fun e => is_objects_build e = true) (snd (build_objects pdb sc opts n))
  /\ List.length (snd (build_objects pdb sc opts n)) <= 3.
Proof.
  unfold build_objects. destruct sc as [s | ]; [ | split; [constructor | simpl; lia]].
  unfold build_atoms, build_bonds, build_backbone.
  destruct (atoms opts) as [ | ia a]; destruct (bonds opts);
    destruct (backbone opts) as [ | ib b];
    repeat match goal with
           | |- context [build_primitive ?r ?m] => destruct (build_primitive r m)
           end; simpl; split; repeat constructor.
Qed.

Lemma build_cartoon_calls pdb sc rep k t n :
  Forall (fun e => is_ribbon_build e = true) (snd (build_cartoon pdb sc rep k t n))
  /\ List.length (snd (build_cartoon pdb sc rep k t n)) <= 1.
Proof.
  unfold build_cartoon. destruct sc as [s | ]; [ | split; [constructor | simpl; lia]].
  destruct rep; try (split; [constructor | simpl; lia]);
    destruct (build_group _ n); simpl; split; repeat constructor.
Qed.

Lemma dispose_objects_calls o :
  Forall (fun e => is_builder_call e = false) (dispose_objects o).
Proof. destruct o as [[a | ] [b | ] [k | ]]; repeat constructor. Qed.

Lemma dispose_cartoon_calls g :
  Forall (fun e => is_builder_call e = false) (dispose_cartoon g).
Proof.
  destruct g as [g | ]; simpl; [ | constructor].
  induction (traverse (cartoon_obj g)) as [ | m l IH]; simpl; [constructor | ].
  apply Forall_app. split; [ | assumption].
  destruct m as [[x [y | ms]] | ]; repeat constructor.
  induction ms; simpl; repeat constructor; assumption.
Qed.

Lemma cleanup_is_dispose {A} (dispose : A -> list CacheCall) (x : option A) (b : bool) :
  (forall a, Forall (fun e => is_builder_call e = false) (dispose a)) ->
  Forall (fun e => is_builder_call e = false)
         (if b then cleanup_calls dispose x else []).
Proof. intros H. destruct b, x; simpl; auto. Qed.

Lemma memo_calls {A} (m : Slot A) deps (compute : Ref -> A * Ref * list CacheCall)
    n v m' n' ev (P : CacheCall -> Prop) :
  useMemo m deps compute n = (v, m', n', ev) ->
  Forall P (snd (compute n)) -> Forall P ev.
Proof.
  intros H Hc. apply useMemo_cases in H as [(d & _ & _ & _ & _ & ->) | (E & _)];
    [constructor | ]. now rewrite E in Hc.
Qed.

Lemma held_not_disposed c r :
  cache_inv c -> In r (held c) -> ~ In r (disposed (calls c)).
Proof.
  intros [_ _ _ _ _ Nd Ct] Hr Hd. apply count_In in Hr. apply count_In in Hd.
  rewrite count_NoDup in Nd. specialize (Nd r). specialize (Ct r). lia.
Qed.

Lemma disposed_In l r : In r (disposed l) <-> In (Dispose r) l.
Proof.
  unfold disposed. rewrite in_flat_map. split.
  - intros (e & He & Hr). destruct e; simpl in Hr; try tauto.
    destruct Hr as [<- | []]. exact He.
  - intros H. exists (Dispose r). split; [exact H | now left].
Qed.

(* ===================================================================== *)
(** ** Further properties of the cache *)

Lemma pass_calls pdb acts p :
  let v := run pdb mount acts in
  let v' := step pdb v (Render p) in
  let opts := fst (derive_options (controls p) (next_ref (cache v))) in
  exists ob rb cl n n1,
    since (calls (cache v)) (calls (cache v')) = ob ++ rb ++ cl
    /\ (ob = [] \/ ob = snd (build_objects pdb (scene p) opts n))
    /\ (rb = [] \/ rb = snd (build_cartoon pdb (scene p) (representation (controls p))
                               (common_materialKind (controls p))
                               (ribbon_thickness (controls p)) n1))
    /\ Forall (fun e => is_builder_call e = false) cl.
Proof.
  intros v v' opts. subst v'. simpl. destruct (mounted v) eqn:M.
  - destruct (render_anatomy pdb p v)
      as (o & mo & n1 & ev1 & g & mc & n2 & ev2 & Eo & Ec & _ & _ & _ & Ecalls & _).
    rewrite Ecalls, since_app, <- app_assoc.
    exists ev1, ev2. eexists. eexists. exists n1.
    split; [reflexivity | ]. split; [ | split].
    + apply useMemo_cases in Eo as [(d & _ & _ & _ & _ & ->) | (E & _)];
        [now left | right]. fold opts in E. now rewrite E.
    + apply useMemo_cases in Ec as [(d & _ & _ & _ & _ & ->) | (E & _)];
        [now left | right]. now rewrite E.
    + apply Forall_app. split; apply cleanup_is_dispose;
        auto using dispose_objects_calls, dispose_cartoon_calls.
  - rewrite since_same. exists [], [], [], 0, 0. simpl. auto.
Qed.

(** X1.  The calls of one render pass come in this order: the builders of
    the primitive set (at most three), the ribbon builder (at most one), then
    the dispose calls of the cleanups.  So what replaces a primitive is built
    before the primitive it replaces is released. *)
Theorem builds_precede_disposes pdb acts p :
  let v := run pdb mount acts in
  let v' := step pdb v (Render p) in
  exists ob rb cl,
    since (calls (cache v)) (calls (cache v')) = ob ++ rb ++ cl
    /\ Forall (fun e => is_objects_build e = true) ob /\ List.length ob <= 3
    /\ Forall (fun e => is_ribbon_build e = true) rb /\ List.length rb <= 1
    /\ Forall (fun e => is_builder_call e = false) cl.
Proof.
  intros v v'. destruct (pass_calls pdb acts p) as (ob & rb & cl & n & n1 & E & Ho & Hr & Hc).
  exists ob, rb, cl. split; [exact E | ].
  split; [ | split; [ | split; [ | split; [ | exact Hc]]]].
  - destruct Ho as [-> | ->]; [constructor | apply build_objects_calls].
  - destruct Ho as [-> | ->]; [simpl; lia | apply build_objects_calls].
  - destruct Hr as [-> | ->]; [constructor | apply build_cartoon_calls].
  - destruct Hr as [-> | ->]; [simpl; lia | apply build_cartoon_calls].
Qed.

Lemma forwarded_build_objects pdb p n n' :
  Forall (forwarded p)
         (snd (build_objects pdb (scene p) (fst (derive_options (controls p) n)) n')).
Proof.
  unfold derive_options, build_objects. destruct (scene p) as [s | ] eqn:Es; [ | constructor].
  unfold build_atoms, build_bonds, build_backbone.
  destruct (overlay_atoms (controls p) && is_spheres (representation (controls p)));
    destruct (overlay_backbone (controls p) && is_spheres (representation (controls p)));
    destruct (overlay_bonds (controls p)); simpl;
    repeat match goal with
           | |- context [build_primitive ?r ?m] => destruct (build_primitive r m)
           end; simpl; repeat constructor; simpl; auto.
Qed.

Lemma forwarded_build_cartoon pdb p n :
  Forall (forwarded p)
         (snd (build_cartoon pdb (scene p) (representation (controls p))
                             (common_materialKind (controls p))
                             (ribbon_thickness (controls p)) n)).
Proof.
  unfold build_cartoon. destruct (scene p) as [s | ] eqn:Es; [ | constructor].
  destruct (representation (controls p)); [constructor | | ];
    destruct (build_group _ n); repeat constructor; simpl; auto.
Qed.

(** X2.  Every builder call of a render pass receives the scene of that pass
    and arguments made of the current control values: the three atom options
    come from the panel, so the defaults useSceneObjects holds for them (16,
    standard, 1.0) are never taken; the backbone colour is always the default
    white, since the options literal is empty; the ribbons are white, of the
    common material kind, and the flat one has the thickness of the panel. *)
Theorem builder_arguments_from_controls pdb acts p :
  let v := run pdb mount acts in
  Forall (forwarded p) (since (calls (cache v)) (calls (cache (step pdb v (Render p))))).
Proof.
  intros v. destruct (pass_calls pdb acts p) as (ob & rb & cl & n & n1 & E & Ho & Hr & Hc).
  fold v in E. rewrite E. repeat (apply Forall_app; split).
  - destruct Ho as [-> | ->]; [constructor | apply forwarded_build_objects].
  - destruct Hr as [-> | ->]; [constructor | apply forwarded_build_cartoon].
  - eapply Forall_impl; [ | exact Hc]. intros [ | | | | | r]; simpl; try discriminate; auto.
Qed.

Lemma build_objects_parts pdb s opts n :
  let o := fst (fst (build_objects pdb (Some s) opts n)) in
  (forall p, obj_atoms o = Some p ->
     exists id a m, atoms opts = Obj id a
       /\ makeAtomsMesh pdb s (atom_args a) = Some m /\ props p = force_white m)
  /\ (forall q, obj_bonds o = Some q ->
        bonds opts = true /\ makeBondLines pdb s = Some (props q))
  /\ (forall q, obj_backbone o = Some q ->
        exists id b, backbone opts = Obj id b
          /\ makeBackboneLines pdb s (nullish (color b) 16777215%Z) = Some (props q)).
Proof.
  unfold build_objects.
  destruct (build_atoms pdb s (atoms opts) n) as [[a n1] e1] eqn:Ea.
  destruct (build_bonds pdb s (bonds opts) n1) as [[b n2] e2] eqn:Eb.
  destruct (build_backbone pdb s (backbone opts) n2) as [[k n3] e3] eqn:Ek.
  simpl. split; [ | split].
  - intros p ->. unfold build_atoms in Ea.
    destruct (atoms opts) as [ | id x]; [discriminate | ].
    destruct (build_primitive _ n) as [q m] eqn:E. injection Ea as -> _ _.
    apply build_primitive_spec in E as (_ & _ & _ & _ & _ & E).
    specialize (E p eq_refl).
    destruct (makeAtomsMesh pdb s (atom_args x)) as [m0 | ] eqn:Em; [ | discriminate].
    injection E as E. exists id, x, m0. auto.
  - intros q ->. unfold build_bonds in Eb.
    destruct (bonds opts); [ | discriminate].
    destruct (build_primitive _ n1) as [x m] eqn:E. injection Eb as -> _ _.
    apply build_primitive_spec in E as (_ & _ & _ & _ & _ & E). auto.
  - intros q ->. unfold build_backbone in Ek.
    destruct (backbone opts) as [ | id x]; [discriminate | ].
    destruct (build_primitive _ n2) as [y m] eqn:E. injection Ek as -> _ _.
    apply build_primitive_spec in E as (_ & _ & _ & _ & _ & E). eauto.
Qed.

(** X3.  The white override is guarded property by property and touches the
    atoms only: a property the atom material does not have is not added (so
    a material without a colour stays without one), needsUpdate is raised
    when the material has it, and applying the override twice changes
    nothing more; the materials of the bonds and of the backbone are those
    the builders returned. *)
Theorem override_guarded pdb s opts n :
  let o := fst (fst (build_objects pdb (Some s) opts n)) in
  (forall p, obj_atoms o = Some p ->
     exists id a m, atoms opts = Obj id a
       /\ makeAtomsMesh pdb s (atom_args a) = Some m
       /\ (vertexColors (props p) = None <-> vertexColors m = None)
       /\ (mat_color (props p) = None <-> mat_color m = None)
       /\ (needsUpdate (props p) = None <-> needsUpdate m = None)
       /\ (needsUpdate m <> None -> needsUpdate (props p) = Some true)
       /\ force_white (props p) = props p)
  /\ (forall q, obj_bonds o = Some q -> makeBondLines pdb s = Some (props q))
  /\ (forall q, obj_backbone o = Some q ->
        makeBackboneLines pdb s 16777215%Z = Some (props q)
        \/ exists id b c, backbone opts = Obj id b /\ color b = Some c
             /\ makeBackboneLines pdb s c = Some (props q)).
Proof.
  intros o. destruct (build_objects_parts pdb s opts n) as (Ha & Hb & Hk).
  fold o in Ha, Hb, Hk. split; [ | split].
  - intros p Hp. destruct (Ha p Hp) as (id & a & m & E1 & E2 & E3).
    exists id, a, m. rewrite E3. unfold force_white.
    destruct m as [[vc | ] [c | ] [nu | ]]; simpl;
      repeat split; try congruence; auto.
  - intros q Hq. now apply Hb.
  - intros q Hq. destruct (Hk q Hq) as (id & b & E1 & E2).
    destruct (color b) as [c | ] eqn:Ec; simpl in E2; [right | now left].
    exists id, b, c. auto.
Qed.

Lemma override_guarded_witness :
  let bare := {| vertexColors := None; mat_color := None; needsUpdate := Some false |} in
  let pdb := {| makeAtomsMesh := fun _ _ => Some bare;
                makeBondLines := makeBondLines sample_builders;
                makeBackboneLines := makeBackboneLines sample_builders;
                makeRibbonMesh := makeRibbonMesh sample_builders;
                makeFlatRibbonMesh := makeFlatRibbonMesh sample_builders |} in
  let opts := fst (derive_options default_controls 1) in
  exists p, obj_atoms (fst (fst (build_objects pdb (Some 7) opts 3))) = Some p
    /\ mat_color (props p) = None /\ needsUpdate (props p) = Some true.
Proof.
  intros bare pdb opts.
  destruct (override_guarded pdb 7 opts 3) as (H & _).
  eexists. split; [reflexivity | ].
  destruct (H _ eq_refl) as (id & a & m & _ & Em & _ & Hc & _ & Hn & _).
  injection Em as <-. split; [now apply Hc | apply Hn; discriminate].
Defined.

Lemma is_spheres_false r : is_spheres r = false <-> r <> spheres.
Proof.
  destruct (is_spheres r) eqn:E.
  - apply is_spheres_true in E. split; [discriminate | contradiction].
  - split; [ | reflexivity]. intros _ H. apply is_spheres_true in H. congruence.
Qed.

Lemma build_objects_atoms_off pdb sc opts n :
  atoms opts = IsFalse -> obj_atoms (fst (fst (build_objects pdb sc opts n))) = None.
Proof.
  intros H. unfold build_objects. destruct sc as [s | ]; [ | reflexivity].
  rewrite H. simpl.
  destruct (build_bonds pdb s (bonds opts) n) as [[b n2] e2].
  destruct (build_backbone pdb s (backbone opts) n2) as [[k n3] e3]. reflexivity.
Qed.

Lemma build_objects_bonds_off pdb sc opts n :
  bonds opts = false -> obj_bonds (fst (fst (build_objects pdb sc opts n))) = None.
Proof.
  intros H. unfold build_objects. destruct sc as [s | ]; [ | reflexivity].
  destruct (build_atoms pdb s (atoms opts) n) as [[a n1] e1].
  rewrite H. simpl.
  destruct (build_backbone pdb s (backbone opts) n1) as [[k n3] e3]. reflexivity.
Qed.

(** What the memo slots hold after a render pass, in terms of the inputs of
    that pass. *)
Lemma render_values pdb acts p :
  let v := run pdb mount acts in
  let v' := render pdb p v in
  exists opts n n',
    current_objects (cache v') = fst (fst (build_objects pdb (scene p) opts n))
    /\ bonds opts = overlay_bonds (controls p)
    /\ (atoms opts = IsFalse <-> wants_atoms (controls p) = false)
    /\ (backbone opts = IsFalse <-> wants_backbone (controls p) = false)
    /\ current_cartoon (cache v')
       = fst (fst (build_cartoon pdb (scene p) (representation (controls p))
                                 (common_materialKind (controls p))
                                 (ribbon_thickness (controls p)) n'))
    /\ shown v' = display (controls p) (current_objects (cache v'))
                          (current_cartoon (cache v')).
Proof.
  intros v v'.
  assert (I : memo_inv pdb (cache v')).
  { subst v'. rewrite cache_render. apply render_memo_inv. apply memo_inv_run. }
  destruct I as [Fo Fc _].
  destruct (render_pass pdb p v) as (o & g & more & Eo & Eg & Es & _).
  fold v' in Eo, Eg, Es.
  destruct (Fo _ _ Eo) as (sc & opts & n & Hd & Ho).
  apply objects_deps_inj in Hd as (<- & Hb & Ha & Hk).
  destruct (Fc _ _ Eg) as (sc & r & k & t & n' & Hd & Hg).
  apply cartoon_deps_inj in Hd as (<- & <- & <- & <-).
  destruct (derive_options (controls p) (next_ref (cache v))) as [opts0 m] eqn:Ed.
  apply derive_options_spec in Ed as (_ & _ & Hb0 & Ha0 & Hk0 & _). simpl in Hb, Ha, Hk.
  exists opts, n, n'. unfold current_objects, current_cartoon.
  rewrite Eo, Eg. simpl. unfold wants_atoms, wants_backbone.
  repeat split; try tauto; congruence.
Qed.

(** X4.  After a render pass the children of the content group are exactly
    what the cache holds, with one exception.  In spheres mode they are the
    atoms, bonds and backbone primitives that exist, in this order, and there
    is no ribbon group.  In a ribbon mode there are no atoms and no backbone;
    when the ribbon group exists the children are the group and then the
    bonds primitive, if it exists; when it does not (no scene, or the builder
    returned nothing) the group is empty, also when a bonds primitive has
    been built.  The overlay toggles read at display time never hide a
    primitive that exists. *)
Theorem display_matches_held pdb acts p :
  let v := run pdb mount acts in
  let v' := step pdb v (Render p) in
  let o := current_objects (cache v') in
  mounted v = true ->
  (representation (controls p) = spheres ->
     current_cartoon (cache v') = None
     /\ shown v' = show ShowAtoms (obj_atoms o) ++ show ShowBonds (obj_bonds o)
                     ++ show ShowBackbone (obj_backbone o))
  /\ (representation (controls p) <> spheres ->
      obj_atoms o = None /\ obj_backbone o = None
      /\ shown v' = match current_cartoon (cache v') with
                    | Some g => ShowCartoon g :: show ShowBonds (obj_bonds o)
                    | None => []
                    end).
Proof.
  intros v v' o M. subst o v'. rewrite (step_render pdb v p M).
  destruct (render_values pdb acts p) as (opts & n & n' & Ho & Hb & Ha & Hk & Hg & Hs).
  fold v in Ho, Hg, Hs. rewrite Hs. unfold display. split.
  - intros Hr. rewrite Hg, Hr. unfold is_spheres. simpl.
    split; [ | reflexivity]. unfold build_cartoon. now destruct (scene p).
  - intros Hr. apply is_spheres_false in Hr.
    assert (A : obj_atoms (current_objects (cache (render pdb p v))) = None).
    { rewrite Ho. apply build_objects_atoms_off, Ha. unfold wants_atoms.
      rewrite Hr. apply andb_false_r. }
    assert (K : obj_backbone (current_objects (cache (render pdb p v))) = None).
    { rewrite Ho. apply build_objects_backbone_off, Hk. unfold wants_backbone.
      rewrite Hr. apply andb_false_r. }
    split; [exact A | ]. split; [exact K | ]. rewrite Hr, K. simpl. rewrite app_nil_r.
    destruct (current_cartoon (cache (render pdb p v))); [ | reflexivity].
    f_equal. destruct (overlay_backbone (controls p)); simpl; rewrite app_nil_r;
      destruct (overlay_bonds (controls p)) eqn:B; try reflexivity;
      rewrite Ho, build_objects_bonds_off; auto; congruence.
Qed.

Lemma display_matches_held_witness :
  let pdb := {| makeAtomsMesh := makeAtomsMesh sample_builders;
                makeBondLines := makeBondLines sample_builders;
                makeBackboneLines := makeBackboneLines sample_builders;
                makeRibbonMesh := fun _ _ => None;
                makeFlatRibbonMesh := makeFlatRibbonMesh sample_builders |} in
  let p := loaded (with_representation ribbon_tube default_controls) in
  let v' := step pdb (run pdb mount []) (Render p) in
  obj_bonds (current_objects (cache v')) <> None /\ shown v' = [].
Proof.
  intros pdb p v'.
  destruct (@display_matches_held pdb [] p eq_refl) as [_ H].
  destruct H as (_ & _ & H); [discriminate | ].
  split; [discriminate | exact H].
Defined.





Lemma objects_pass pdb sc opts (c : Cache) n o mo n1 ev1 :
  objects_inv c -> next_ref c <= n ->
  useMemo (memo_objects c) (objects_deps sc opts) (build_objects pdb sc opts) n
  = (o, mo, n1, ev1) ->
  let due := effect_due (eff_objects c) (dispose_deps o) in
  hook_pass objects_resources objects_ids dispose_deps no_objects
            (memo_objects c) (eff_objects c) mo
            (if due then Some (dispose_deps o, o) else eff_objects c) n n1 o ev1
            (if due then cleanup_calls dispose_objects (captured (eff_objects c)) else []).
Proof.
  intros [So Io Ro] Ln Eo.
  eapply (@memo_then_dispose _ objects_resources objects_ids dispose_deps
            dispose_objects no_objects) in Eo;
    [exact Eo | apply disposed_dispose_objects | reflexivity | apply objects_no_ids
      | apply objects_separated | exact So
      | eapply within_weaken; [ | | exact Io]; lia
      | intros; eapply build_objects_spec; eassumption ].
Qed.

Lemma render_objects_inv pdb p v :
  objects_inv (cache v) -> objects_inv (cache (render pdb p v)).
Proof.
  intros I.
  destruct (render_anatomy pdb p v)
    as (o & mo & n1 & ev1 & g & mc & n2 & ev2 & Eo & Ec & Ho & Hg & _ & _ & E).
  destruct (derive_options (controls p) (next_ref (cache v))) as [opts n] eqn:Ed.
  pose proof (derive_options_spec _ _ Ed) as (Ln & _). simpl in Eo, Ec.
  assert (L2 : n1 <= n2) by (eapply useMemo_le; [exact Ec | apply build_cartoon_le]).
  pose proof (objects_pass pdb _ _ I Ln Eo) as [S V L Ids _ _ W _ Ct].
  assert (Hn : next_ref (cache (render pdb p v)) = n2) by now rewrite E.
  constructor.
  - rewrite E. simpl. exact S.
  - rewrite Hn, Ho. eapply within_weaken; [ | | exact Ids]; lia.
  - rewrite Hn, Ho. intros r Hr. split; [lia | ].
    specialize (Ct r). apply count_In in Hr.
    assert (Hc : 0 < count (objects_resources (slot_value no_objects (memo_objects (cache v)))) r
                 \/ 0 < count (produced ev1) r) by lia.
    destruct Hc as [Hc | Hc]; apply count_In in Hc.
    + destruct I as [_ _ Ro]. specialize (Ro r Hc). lia.
    + specialize (W r Hc). lia.
Qed.

Lemma objects_inv_run pdb acts : objects_inv (cache (run pdb mount acts)).
Proof.
  apply (run_invariant pdb (fun v => objects_inv (cache v))).
  - intros v a I. destruct a; simpl; try exact I; destruct (mounted v); try exact I;
      try (now apply render_objects_inv).
    constructor; simpl; try reflexivity;
      unfold current_objects; simpl; apply within_nil.
  - constructor; simpl; try reflexivity; unfold current_objects; simpl; apply within_nil.
Qed.




Lemma derive_options_off ctl n :
  wants_atoms ctl = false -> wants_backbone ctl = false ->
  derive_options ctl n
  = ({| atoms := IsFalse; bonds := overlay_bonds ctl; backbone := IsFalse |}, n).
Proof.
  unfold wants_atoms, wants_backbone, derive_options. now intros -> ->.
Qed.


Lemma not_objects_build l :
  Forall (fun e => is_ribbon_build e = true) l \/ Forall (fun e => is_builder_call e = false) l ->
  Forall (fun e => is_objects_build e = false) l.
Proof.
  intros [H | H]; (eapply Forall_impl; [ | exact H]); intros [ | | | | | ]; simpl; congruence.
Qed.

Lemma not_ribbon_build l :
  Forall (fun e => is_objects_build e = true) l \/ Forall (fun e => is_builder_call e = false) l ->
  Forall (fun e => is_ribbon_build e = false) l.
Proof.
  intros [H | H]; (eapply Forall_impl; [ | exact H]); intros [ | | | | | ]; simpl; congruence.
Qed.

Lemma synced_not_due {A} (edeps : A -> list Dep) (m e : Slot A) d a :
  synced edeps m e -> m = Some (d, a) -> effect_due e (edeps a) = false.
Proof.
  unfold synced. intros -> ->. simpl. now rewrite same_deps_refl.
Qed.

(** X7.  The memo of useSceneObjects does hold between two consecutive
    render passes when the scene and the bonds toggle are the same and both
    passes pass false for the atoms and for the backbone (as every pass in a
    ribbon mode does): the second pass returns the primitive set of the
    first and calls none of its three builders.  If the dependencies of the
    ribbon memo are also equal by value (and the meshes of a ribbon group own
    their geometries and materials), the second pass makes no call at all. *)
Theorem objects_memo_without_literals pdb acts p p' :
  let v0 := run pdb mount acts in
  let v1 := step pdb v0 (Render p) in
  let v2 := step pdb v1 (Render p') in
  mounted v0 = true ->
  scene p' = scene p ->
  overlay_bonds (controls p') = overlay_bonds (controls p) ->
  wants_atoms (controls p) = false -> wants_backbone (controls p) = false ->
  wants_atoms (controls p') = false -> wants_backbone (controls p') = false ->
  current_objects (cache v2) = current_objects (cache v1)
  /\ Forall (fun e => is_objects_build e = false)
            (since (calls (cache v1)) (calls (cache v2)))
  /\ (unshared pdb -> ribbon_key p' = ribbon_key p ->
      calls (cache v2) = calls (cache v1)).
Proof.
  intros v0 v1 v2 M Hs Hb A1 K1 A2 K2. subst v2 v1.
  rewrite (step_render pdb v0 p M).
  rewrite (step_render pdb (render pdb p v0) p' (mounted_render pdb p v0)).
  set (v1 := render pdb p v0).
  assert (R1 : v1 = run pdb mount (acts ++ [Render p])).
  { rewrite run_snoc. fold v0. now rewrite (step_render pdb v0 p M). }
  pose proof (objects_inv_run pdb (acts ++ [Render p])) as I. rewrite <- R1 in I.
  destruct (render_pass pdb p v0) as (o1 & g1 & more & Eo1 & Eg1 & _).
  fold v1 in Eo1, Eg1. rewrite (@derive_options_off _ _ A1 K1) in Eo1. simpl in Eo1.
  destruct (render_anatomy pdb p' v1)
    as (o & mo & n1 & ev1 & g & mc & n2 & ev2 & Eo & Ec & Ho & Hg & _ & Ecalls & _).
  rewrite (@derive_options_off _ _ A2 K2) in Eo. simpl in Eo.
  rewrite Eo1 in Eo. unfold objects_deps in Eo at 1. simpl in Eo.
  rewrite Hs, Hb in Eo.
  change [dep_of_scene (scene p); DBool false; DBool (overlay_bonds (controls p)); DBool false]
    with (objects_deps (scene p)
            {| atoms := IsFalse; bonds := overlay_bonds (controls p); backbone := IsFalse |})
    in Eo.
  rewrite same_deps_refl in Eo. injection Eo as <- <- <- <-.
  assert (Hcur : current_objects (cache v1) = o1).
  { unfold current_objects. now rewrite Eo1. }
  assert (Hdue : effect_due (eff_objects (cache v1)) (dispose_deps o1) = false).
  { eapply synced_not_due; [apply I | exact Eo1]. }
  rewrite Hdue in Ecalls. simpl in Ecalls.
  split; [now rewrite Ho, Hcur | ]. split.
  - rewrite Ecalls, since_app. apply Forall_app. split; apply not_objects_build.
    + left. eapply memo_calls; [exact Ec | apply build_cartoon_calls].
    + right. apply cleanup_is_dispose. apply dispose_cartoon_calls.
  - intros Hun Hkey. unfold ribbon_key in Hkey. injection Hkey as E1 E2 E3 E4.
    rewrite Eg1, E1, E2, E3, E4, useMemo_hit in Ec. injection Ec as <- <- <- <-.
    assert (C1 : cache_ok v1) by (rewrite R1; now apply cache_ok_run).
    destruct C1 as [[_ Sc _ _ _ _ _] _].
    rewrite (synced_not_due Sc Eg1) in Ecalls. simpl in Ecalls.
    now rewrite Ecalls, app_nil_r.
Qed.

Lemma objects_memo_without_literals_witness :
  let p := loaded (with_representation ribbon_tube default_controls) in
  let p' := loaded (with_background "#222222" (with_representation ribbon_tube default_controls)) in
  let v1 := step sample_builders (run sample_builders mount []) (Render p) in
  let v2 := step sample_builders v1 (Render p') in
  obj_bonds (current_objects (cache v1)) <> None
  /\ current_objects (cache v2) = current_objects (cache v1)
  /\ calls (cache v2) = calls (cache v1).
Proof.
  intros p p' v1 v2.
  destruct (@objects_memo_without_literals sample_builders [] p p'
              eq_refl eq_refl eq_refl eq_refl eq_refl eq_refl eq_refl) as (H1 & _ & H3).
  split; [vm_compute; discriminate | ]. split; [exact H1 | ].
  apply H3; [exact sample_unshared | reflexivity].
Defined.

(** X8.  The ribbon memo is keyed by value.  When the scene, the
    representation, the material kind and the thickness of two consecutive
    render passes are equal, the second pass returns the ribbon group of the
    first, calls no ribbon builder and disposes none of the resources of the
    group, whatever else changed.  When one of the four differs and the new
    pass has a scene and a ribbon representation, the ribbon builder of that
    representation is called again, also for a change of the thickness in
    tube mode, which is not among the arguments of the tube.  The meshes of
    a ribbon group are assumed to own their geometries and materials. *)
Theorem ribbon_memo_by_value pdb acts p p' :
  unshared pdb ->
  let v0 := run pdb mount acts in
  let v1 := step pdb v0 (Render p) in
  let v2 := step pdb v1 (Render p') in
  let more := since (calls (cache v1)) (calls (cache v2)) in
  mounted v0 = true ->
  (ribbon_key p' = ribbon_key p ->
     current_cartoon (cache v2) = current_cartoon (cache v1)
     /\ Forall (fun e => is_ribbon_build e = false) more
     /\ (forall r, In r (cartoon_resources (current_cartoon (cache v1))) ->
           ~ In (Dispose r) more))
  /\ (ribbon_key p' <> ribbon_key p ->
      forall s, scene p' = Some s ->
        (representation (controls p') = ribbon_tube ->
           exists g, In (CallMakeRibbon s (tube_args (common_materialKind (controls p'))) g) more)
        /\ (representation (controls p') = ribbon_flat ->
              exists g, In (CallMakeFlatRibbon s
                              (flat_args (common_materialKind (controls p'))
                                         (ribbon_thickness (controls p'))) g) more)).
Proof.
  intros Hun v0 v1 v2 more M. subst more v2 v1.
  rewrite (step_render pdb v0 p M).
  rewrite (step_render pdb (render pdb p v0) p' (mounted_render pdb p v0)).
  set (v1 := render pdb p v0).
  assert (R1 : v1 = run pdb mount (acts ++ [Render p])).
  { rewrite run_snoc. fold v0. now rewrite (step_render pdb v0 p M). }
  assert (R2 : render pdb p' v1 = run pdb mount ((acts ++ [Render p]) ++ [Render p'])).
  { rewrite run_snoc, <- R1. now rewrite (step_render pdb v1 p' (mounted_render pdb p v0)). }
  destruct (render_pass pdb p v0) as (o1 & g1 & more & _ & Eg1 & _). fold v1 in Eg1.
  destruct (render_anatomy pdb p' v1)
    as (o & mo & n1 & ev1 & g & mc & n2 & ev2 & Eo & Ec & Ho & Hg & _ & Ecalls & _).
  assert (Hcur : current_cartoon (cache v1) = g1).
  { unfold current_cartoon. now rewrite Eg1. }
  rewrite Ecalls, since_app, Hg, Hcur. split.
  - intros Hkey. unfold ribbon_key in Hkey. injection Hkey as E1 E2 E3 E4.
    rewrite Eg1, E1, E2, E3, E4, useMemo_hit in Ec. injection Ec as <- <- <- <-.
    assert (C1 : cache_ok v1) by (rewrite R1; now apply cache_ok_run).
    destruct C1 as [[_ Sc _ _ _ _ _] _].
    rewrite (synced_not_due Sc Eg1). simpl. rewrite !app_nil_r.
    split; [reflexivity | ]. split.
    + apply Forall_app. split; apply not_ribbon_build.
      * left. eapply memo_calls; [exact Eo | apply build_objects_calls].
      * right. apply cleanup_is_dispose. apply dispose_objects_calls.
    + intros r Hr Hd.
      assert (C2 : cache_ok (render pdb p' v1)) by (rewrite R2; now apply cache_ok_run).
      destruct C2 as [C2 _].
      apply (@held_not_disposed _ r C2).
      * unfold held. rewrite Hg. apply in_or_app. now right.
      * apply disposed_In. rewrite Ecalls.
        rewrite (synced_not_due Sc Eg1). simpl. rewrite !app_nil_r.
        apply in_or_app. now right.
  - intros Hkey s Hs.
    assert (Hmiss : build_cartoon pdb (scene p') (representation (controls p'))
                      (common_materialKind (controls p')) (ribbon_thickness (controls p')) n1
                    = (g, n2, ev2)).
    { apply useMemo_cases in Ec as [(d & E & Hd & _) | (Hc & _)]; [exfalso | exact Hc].
      rewrite Eg1 in E. injection E as E _. subst d.
      apply cartoon_deps_inj in Hd as (X1 & X2 & X3 & X4).
      apply Hkey. unfold ribbon_key. congruence. }
    rewrite Hs in Hmiss. unfold build_cartoon in Hmiss.
    split; intros Hr; rewrite Hr in Hmiss;
      destruct (build_group _ n1) as [c m]; injection Hmiss as _ _ <-;
      exists c; apply in_or_app; left; apply in_or_app; right; now left.
Qed.

Lemma ribbon_memo_by_value_witness :
  let p := loaded (with_representation ribbon_tube default_controls) in
  let p' := loaded (with_background "#222222" (with_representation ribbon_tube default_controls)) in
  let v1 := step sample_builders (run sample_builders mount []) (Render p) in
  let v2 := step sample_builders v1 (Render p') in
  current_cartoon (cache v1) <> None
  /\ current_cartoon (cache v2) = current_cartoon (cache v1).
Proof.
  intros p p' v1 v2.
  destruct (@ribbon_memo_by_value sample_builders [] p p' sample_unshared eq_refl)
    as (H & _).
  split; [vm_compute; discriminate | ]. now apply H.
Defined.




(* ===================================================================== *)
(** ** Further properties of the controller *)

(** X10.  In every state of every run at most one timeout and at most one
    animation-frame callback are pending.  The timeout is the initial fit,
    which has not run yet; the frame callback belongs to the reload fit of
    the current source, which is not fitted yet.  On an unmounted view
    nothing is pending. *)
Theorem at_most_one_pending pdb acts :
  let v := run pdb mount acts in
  List.length (timers (fit v)) <= 1
  /\ List.length (rafs (fit v)) <= 1
  /\ (forall h cb, In (h, cb) (timers (fit v)) ->
        cb = InitialFit /\ did (fit v) = false)
  /\ (forall h cb, In (h, cb) (rafs (fit v)) ->
        (exists inst, cb = FirstFrame inst (sourceUrl v) \/ cb = DoFit inst (sourceUrl v))
        /\ lastFittedSource (fit v) <> Some (sourceUrl v))
  /\ (mounted v = false -> timers (fit v) = [] /\ rafs (fit v) = []).
Proof.
  intros v. destruct (view_fit_run pdb acts) as [[B R] U]. fold v in B, R, U.
  assert (HT : List.length (timers (fit v)) <= 1
               /\ forall h cb, In (h, cb) (timers (fit v)) ->
                    cb = InitialFit /\ did (fit v) = false).
  { destruct (fi_timers B) as [T | (h & d & T & _ & Hd)]; rewrite T; simpl.
    - split; [lia | intros ? ? []].
    - split; [lia | ]. intros x cb [[= <- <-] | []]. auto. }
  assert (HR : List.length (rafs (fit v)) <= 1
               /\ forall h cb, In (h, cb) (rafs (fit v)) ->
                    (exists inst, cb = FirstFrame inst (sourceUrl v)
                                  \/ cb = DoFit inst (sourceUrl v))
                    /\ lastFittedSource (fit v) <> Some (sourceUrl v)).
  { destruct R as [R | (h' & inst & sc & l & a & _ & _ & _ & Hl & R)].
    - rewrite R. simpl. split; [lia | intros ? ? []].
    - destruct R as [[R _] | [R _]]; rewrite R; simpl; (split; [lia | ]);
        intros x cb [[= <- <-] | []]; split; eauto. }
  tauto.
Qed.

Lemma at_most_one_pending_witness :
  let v := run sample_builders mount [Render (loaded default_controls)] in
  In (1, InitialFit) (timers (fit v))
  /\ In (2, FirstFrame 0 "/models/1IGY.pdb") (rafs (fit v))
  /\ did (fit v) = false
  /\ lastFittedSource (fit v) <> Some (sourceUrl v).
Proof.
  intros v.
  destruct (at_most_one_pending sample_builders [Render (loaded default_controls)])
    as (_ & _ & Ht & Hr & _).
  assert (T : In (1, InitialFit) (timers (fit v))) by (left; reflexivity).
  assert (R : In (2, FirstFrame 0 "/models/1IGY.pdb") (rafs (fit v))) by (left; reflexivity).
  split; [exact T | ]. split; [exact R | ].
  split; [exact (proj2 (Ht _ _ T)) | exact (proj2 (Hr _ _ R))].
Defined.

(** X11.  When the reload fit runs while the ref of the content group is
    null, it measures nothing itself: no bounding box or sphere is
    recomputed, the fit is asked of the whole scene, and when refresh and fit
    return the source is recorded as fitted all the same; when one of them
    throws, the camera and the last fitted source are as before.  Either
    way no further frame is requested. *)
Theorem fit_with_detached_group o f h inst src :
  rafs f = [(h, DoFit inst src)] -> contentRef f = None ->
  let f' := frame o f in
  rafs f' = []
  /\ (refresh_throws o = false -> fit_throws o = false ->
      fit_log f' = fit_log f ++ [Fired h (DoFit inst src);
                                 Refresh WholeScene; FitCall WholeScene]
      /\ camera f' = WholeScene :: camera f
      /\ lastFittedSource f' = Some src)
  /\ (refresh_throws o = true \/ fit_throws o = true ->
      camera f' = camera f /\ lastFittedSource f' = lastFittedSource f
      /\ uncaught f' = uncaught f)
  /\ (exists evs, fit_log f' = fit_log f ++ Fired h (DoFit inst src) :: evs
                   /\ incl evs [Refresh WholeScene; FitCall WholeScene]).
Proof.
  intros R C. cbv zeta. rewrite (frame_one o f R). simpl.
  unfold doFit_result. simpl contentRef. rewrite C.
  unfold record_source, attempt, attempt_ok.
  destruct (refresh_throws o), (fit_throws o); simpl;
    (split; [reflexivity | ]);
    (split; [intros; try discriminate; rewrite <- ?app_assoc; auto | ]);
    (split; [intros [? | ?]; try discriminate; auto | ]);
    rewrite <- ?app_assoc; simpl; eexists; (split; [reflexivity | ]);
    intros x Hx; simpl in *; tauto.
Qed.

Lemma fit_with_detached_group_witness :
  let detached := {| controls := default_controls; scene := Some 7; loading := false;
                     error := None; api := 1; attached := false |} in
  let f := fit (run sample_builders mount [Render detached; Frame all_fine]) in
  rafs f = [(3, DoFit 0 "/models/1IGY.pdb")] /\ contentRef f = None
  /\ camera (frame all_fine f) = WholeScene :: camera f
  /\ lastFittedSource (frame all_fine f) = Some "/models/1IGY.pdb".
Proof.
  intros detached f.
  destruct (@fit_with_detached_group all_fine f 3 0 "/models/1IGY.pdb" eq_refl eq_refl)
    as (_ & H & _).
  destruct (H eq_refl eq_refl) as (_ & H2 & H3).
  split; [reflexivity | ]. split; [reflexivity | ]. split; [exact H2 | exact H3].
Defined.

Lemma run_frames_cons pdb v o os :
  run pdb v (map Frame (o :: os)) = run pdb (on_fit (frame o) v) (map Frame os).
Proof. reflexivity. Qed.

(** X12.  The child-presence retry has no bound and no other exit: as long
    as the content group is attached and empty, each animation frame runs
    doFit once and leaves exactly one doFit pending for the next frame; over
    any number of frames nothing is measured or fitted, the camera and the
    last fitted source stay as they are. *)
Theorem retry_while_group_empty pdb v os h inst src :
  rafs (fit v) = [(h, DoFit inst src)] -> contentRef (fit v) = Some [] ->
  let v' := run pdb v (map Frame os) in
  exists h' hs,
    rafs (fit v') = [(h', DoFit inst src)]
    /\ contentRef (fit v') = Some []
    /\ fit_log (fit v') = fit_log (fit v) ++ map (fun x => Fired x (DoFit inst src)) hs
    /\ List.length hs = List.length os
    /\ next_handle (fit v') = next_handle (fit v) + List.length os
    /\ camera (fit v') = camera (fit v)
    /\ lastFittedSource (fit v') = lastFittedSource (fit v).
Proof.
  revert v h. induction os as [ | o os IH]; intros v h R C.
  - exists h, []. simpl. rewrite app_nil_r, Nat.add_0_r. repeat split; auto.
  - cbv zeta. rewrite run_frames_cons.
    assert (E : frame o (fit v)
                = requested (DoFit inst src) inst with_raf3
                    (logged [Fired h (DoFit inst src)] (set_rafs [] (fit v)))).
    { rewrite (frame_one o (fit v) R). simpl. unfold doFit_result. simpl contentRef.
      now rewrite C. }
    destruct (IH (on_fit (frame o) v) (next_handle (fit v))) as (h' & hs & H1 & H2 & H3 & H4 & H5 & H6 & H7).
    + simpl. rewrite E. reflexivity.
    + simpl. rewrite E. exact C.
    + exists h', (h :: hs). simpl in H1, H2, H3, H5, H6, H7. rewrite E in H3, H5, H6, H7.
      simpl in H3, H5, H6, H7. rewrite <- app_assoc in H3. simpl in H3.
      repeat split; simpl; auto. lia.
Qed.

Lemma retry_while_group_empty_witness :
  let nothing := {| makeAtomsMesh := fun _ _ => None;
                    makeBondLines := fun _ => None;
                    makeBackboneLines := fun _ _ => None;
                    makeRibbonMesh := makeRibbonMesh sample_builders;
                    makeFlatRibbonMesh := makeFlatRibbonMesh sample_builders |} in
  let v := run nothing mount [Render (loaded default_controls); Frame all_fine] in
  let v' := run nothing v (map Frame [all_fine; all_fine; all_fine; all_fine]) in
  rafs (fit v) = [(3, DoFit 0 "/models/1IGY.pdb")] /\ contentRef (fit v) = Some []
  /\ next_handle (fit v') = next_handle (fit v) + 4
  /\ lastFittedSource (fit v') = None.
Proof.
  intros nothing v v'.
  destruct (@retry_while_group_empty nothing v [all_fine; all_fine; all_fine; all_fine]
              3 0 "/models/1IGY.pdb" eq_refl eq_refl)
    as (h' & hs & _ & _ & _ & _ & H5 & _ & H7).
  split; [reflexivity | ]. split; [reflexivity | ]. split; [exact H5 | exact H7].
Defined.

Lemma stage_cancel_content due t c f :
  contentRef (stage_cancel_timer due t f) = contentRef f
  /\ contentRef (stage_cancel_rafs due c f) = contentRef f.
Proof.
  unfold stage_cancel_timer, stage_cancel_rafs.
  destruct due, t, c; simpl; auto.
Qed.

(** A commit that reruns the reload effect past its guard leaves exactly
    one frame request, the first of the new run. *)
Lemma commit_schedules src0 scene src loading api content f :
  fit_inv src0 f ->
  effect_due (eff_reload f) (reload_deps scene src loading api) = true ->
  scene <> None -> loading = false -> lastFittedSource f <> Some src ->
  let f' := commit_result scene src loading api content f in
  exists h inst, rafs f' = [(h, FirstFrame inst src)] /\ contentRef f' = content.
Proof.
  intros [B R] Due Hs Hl Hf. unfold commit_result. rewrite Due.
  set (f0 := set_contentRef content f).
  set (due_i := effect_due (eff_initial f) (initial_deps api)).
  pose proof (stage_cancel_timer_frame due_i (flatten (captured (eff_initial f))) f0)
    as (A1 & A2 & A3 & A4 & _).
  pose proof (proj1 (stage_cancel_content due_i (flatten (captured (eff_initial f))) None f0)) as Ac.
  set (f1 := stage_cancel_timer due_i _ f0) in *.
  assert (R1 : raf_ok src0 f1) by (eapply raf_ok_ext; [ .. | exact R]; assumption).
  assert (E1 : eff_reload f1 = eff_reload f) by exact A2.
  rewrite <- E1.
  destruct (cancel_rafs_cases true R1) as [_ T2]. specialize (T2 eq_refl).
  pose proof (stage_cancel_rafs_frame true (flatten (captured (eff_reload f1))) f1)
    as (_ & _ & _ & B4 & _).
  pose proof (proj2 (stage_cancel_content true None (flatten (captured (eff_reload f1))) f1)) as Bc.
  set (f2 := stage_cancel_rafs true _ f1) in *.
  pose proof (stage_initial_frame due_i api f2)
    as (C1 & _ & _ & C4 & _ & _ & _ & _ & C9 & _).
  set (f3 := stage_initial due_i api f2) in *.
  assert (G : reload_guard scene loading src f3 = true).
  { apply reload_guard_true. repeat split; auto. rewrite C4, B4, A4. exact Hf. }
  unfold stage_reload. rewrite G. simpl.
  exists (next_handle f3), (List.length (closures f3)).
  rewrite C1, T2, C9, Bc, Ac. split; reflexivity.
Qed.

Lemma frame_first o f h inst src :
  rafs f = [(h, FirstFrame inst src)] ->
  rafs (frame o f) = [(next_handle f, DoFit inst src)]
  /\ contentRef (frame o f) = contentRef f
  /\ fit_log (frame o f) = fit_log f ++ [Fired h (FirstFrame inst src)]
  /\ lastFittedSource (frame o f) = lastFittedSource f
  /\ camera (frame o f) = camera f.
Proof. intros R. rewrite (frame_one o f R). simpl. auto. Qed.

Lemma frame_fits o f h inst src c cs :
  rafs f = [(h, DoFit inst src)] -> contentRef f = Some (c :: cs) ->
  bounds_throw o = false -> refresh_throws o = false -> fit_throws o = false ->
  rafs (frame o f) = []
  /\ fit_log (frame o f)
     = fit_log f ++ Fired h (DoFit inst src) :: bounds_calls (c :: cs)
         ++ [Refresh ContentGroup; FitCall ContentGroup]
  /\ lastFittedSource (frame o f) = Some src
  /\ camera (frame o f) = ContentGroup :: camera f.
Proof.
  intros R C Hb H1 H2. rewrite (frame_one o f R). simpl.
  unfold doFit_result. simpl contentRef. rewrite C. cbn [List.length Nat.eqb].
  rewrite (@bounds_run_fine o _ Hb). fold (bounds_calls (c :: cs)).
  unfold record_source, attempt, attempt_ok. rewrite H1, H2. simpl.
  rewrite <- !app_assoc. repeat split.
Qed.

(** X13.  A commit that reruns the reload effect for a loaded scene whose
    source is not fitted yet leads to the fit in two animation frames,
    provided the content group is attached and has children and the second
    frame meets no exception: after the two frames the camera is framed on
    the content group, the source is recorded as fitted and nothing is
    pending on the frame queue.  The geometries measured are those of the
    meshes on display. *)
Theorem reload_fit_completes pdb acts p o1 o2 :
  let v := run pdb mount acts in
  let v1 := step pdb v (Render p) in
  let v' := run pdb v [Render p; Frame o1; Frame o2] in
  mounted v = true ->
  scene p <> None -> loading p = false -> attached p = true ->
  lastFittedSource (fit v) <> Some (sourceUrl v) ->
  effect_due (eff_reload (fit v))
             (reload_deps (scene p) (sourceUrl v) (loading p) (api p)) = true ->
  shown v1 <> [] ->
  bounds_throw o2 = false -> refresh_throws o2 = false -> fit_throws o2 = false ->
  lastFittedSource (fit v') = Some (sourceUrl v)
  /\ camera (fit v') = ContentGroup :: camera (fit v)
  /\ rafs (fit v') = []
  /\ exists h1 h2 inst,
       fit_log (fit v')
       = fit_log (fit v)
           ++ Fired h1 (FirstFrame inst (sourceUrl v))
           :: Fired h2 (DoFit inst (sourceUrl v))
           :: bounds_calls (map child_object (shown v1))
           ++ [Refresh ContentGroup; FitCall ContentGroup].
Proof.
  intros v v1 v' M Hs Hl Ha Hf Due Hshown Hb H1 H2.
  subst v' v1. rewrite (step_render pdb v p M) in Hshown. simpl. rewrite M.
  destruct (view_fit_run pdb acts) as [I _]. fold v in I.
  rewrite fit_render.
  set (content := content_of p (shown (render pdb p v))).
  destruct (@commit_schedules (sourceUrl v) (scene p) (sourceUrl v) (loading p) (api p)
              content (fit v) I Due Hs Hl Hf) as (h & inst & R & C).
  pose proof (commit_frame (scene p) (sourceUrl v) (loading p) (api p) content (fit v))
    as (L1 & _ & L3 & L4 & _).
  set (f1 := commit_result (scene p) (sourceUrl v) (loading p) (api p) content (fit v)) in *.
  destruct (frame_first o1 f1 R) as (R2 & C2 & G2 & F2 & K2).
  assert (Hc : exists c cs, map child_object (shown (render pdb p v)) = c :: cs).
  { destruct (shown (render pdb p v)) as [ | c cs]; [contradiction | ]. simpl. eauto. }
  destruct Hc as (c & cs & Hc).
  assert (C3 : contentRef (frame o1 f1) = Some (c :: cs)).
  { rewrite C2, C. unfold content, content_of. now rewrite Ha, Hc. }
  destruct (frame_fits o2 (frame o1 f1) R2 C3 Hb H1 H2) as (R3 & G3 & F3 & K3).
  rewrite F3, K3, K2, L4, R3, G3, G2, L1, Hc.
  repeat (split; [reflexivity | ]).
  exists h, (next_handle f1), inst. now rewrite <- app_assoc.
Qed.

Lemma reload_fit_completes_witness :
  let v := run sample_builders mount [] in
  let v' := run sample_builders v [Render (loaded default_controls); Frame fit_fails;
                                   Frame all_fine] in
  lastFittedSource (fit v) = None
  /\ lastFittedSource (fit v') = Some "/models/1IGY.pdb"
  /\ camera (fit v') = [ContentGroup].
Proof.
  intros v v'.
  assert (N : shown (step sample_builders v (Render (loaded default_controls))) <> [])
    by (vm_compute; discriminate).
  assert (S : Some 7 <> None) by discriminate.
  assert (F : lastFittedSource (fit v) <> Some (sourceUrl v)) by discriminate.
  destruct (@reload_fit_completes sample_builders [] (loaded default_controls)
              fit_fails all_fine eq_refl S eq_refl eq_refl F eq_refl N
              eq_refl eq_refl eq_refl) as (H1 & H2 & _).
  split; [reflexivity | ]. split; [exact H1 | exact H2].
Defined.

Lemma commit_same_deps scene src loading api content f :
  effect_due (eff_reload f) (reload_deps scene src loading api) = false ->
  let f' := commit_result scene src loading api content f in
  rafs f' = rafs f /\ eff_reload f' = eff_reload f.
Proof.
  intros Due. unfold commit_result. rewrite Due.
  set (f0 := set_contentRef content f).
  set (due_i := effect_due (eff_initial f) (initial_deps api)).
  pose proof (stage_cancel_timer_frame due_i (flatten (captured (eff_initial f))) f0)
    as (A1 & A2 & _).
  set (f1 := stage_cancel_timer due_i _ f0) in *.
  pose proof (stage_initial_frame due_i api
                (stage_cancel_rafs false (flatten (captured (eff_reload f))) f1))
    as (C1 & C2 & _).
  unfold stage_reload. rewrite C1, C2. simpl. now rewrite A1, A2.
Qed.

Lemma timeout_quiet o f :
  timer_ok f ->
  rafs (timeout o f) = rafs f /\ eff_reload (timeout o f) = eff_reload f
  /\ lastFittedSource (timeout o f) = lastFittedSource f
  /\ exists evs, fit_log (timeout o f) = fit_log f ++ evs
       /\ Forall (fun e => is_reload_fit e = false) evs.
Proof.
  intros [T | (h & d & T & _)].
  - rewrite (timeout_nil o f T). simpl. repeat split. exists [].
    now rewrite app_nil_r.
  - rewrite (timeout_one o f T). simpl. unfold attempt.
    destruct (refresh_throws o); [ | destruct (fit_throws o)]; simpl;
      repeat split; rewrite <- app_assoc; eexists; (split; [reflexivity | ]);
      repeat constructor.
Qed.

Lemma not_retried_step pdb sc l ap x last v a :
  keeps_reload_deps sc l ap a ->
  view_fit_inv v -> rafs (fit v) = [] ->
  eff_reload (fit v) = Some (reload_deps sc (sourceUrl v) l ap, x) ->
  lastFittedSource (fit v) = last ->
  let v' := step pdb v a in
  (rafs (fit v') = []
   /\ eff_reload (fit v') = Some (reload_deps sc (sourceUrl v') l ap, x)
   /\ lastFittedSource (fit v') = last)
  /\ exists evs, fit_log (fit v') = fit_log (fit v) ++ evs
       /\ Forall (fun e => is_reload_fit e = false) evs.
Proof.
  intros Ka [[B _] _] R E L.
  assert (Same : (rafs (fit v) = []
                  /\ eff_reload (fit v) = Some (reload_deps sc (sourceUrl v) l ap, x)
                  /\ lastFittedSource (fit v) = last)
                 /\ exists evs, fit_log (fit v) = fit_log (fit v) ++ evs
                      /\ Forall (fun e => is_reload_fit e = false) evs).
  { split; [auto | ]. exists []. now rewrite app_nil_r. }
  destruct a as [p | s p | o | o | ]; simpl in Ka; try contradiction; simpl.
  - destruct Ka as (<- & <- & <-). destruct (mounted v); [ | exact Same].
    rewrite sourceUrl_render, fit_render.
    set (content := content_of p (shown (render pdb p v))).
    assert (Due : effect_due (eff_reload (fit v))
                    (reload_deps (scene p) (sourceUrl v) (loading p) (api p)) = false).
    { rewrite E. simpl. now rewrite same_deps_refl. }
    destruct (commit_same_deps (scene p) (sourceUrl v) (loading p) (api p) content (fit v) Due)
      as (R' & E').
    pose proof (commit_frame (scene p) (sourceUrl v) (loading p) (api p) content (fit v))
      as (L1 & _ & L3 & _).
    rewrite R', E', L3, L1. split; [auto | ]. exists []. now rewrite app_nil_r.
  - rewrite (frame_nil o (fit v) R). simpl. destruct Same as ((_ & S2 & S3) & S4). auto.
  - destruct (timeout_quiet o (fi_timers B)) as (T1 & T2 & T3 & T4).
    rewrite T1, T2, T3. split; [auto | exact T4].
Qed.

(** X14.  A reload fit that failed, or was never due, is not taken up again
    by anything that leaves the dependencies of the reload effect alone: in
    a state with no frame request pending, over any sequence of animation
    frames, timer tasks and render passes with the same scene, loading flag
    and bounds api (changes of the controls included), no frame is
    requested, doFit does not run, nothing is measured or fitted on the
    content group, and the last fitted source stays what it was. *)
Theorem failed_fit_not_retried pdb acts more sc l ap x :
  let v := run pdb mount acts in
  let v' := run pdb v more in
  rafs (fit v) = [] ->
  eff_reload (fit v) = Some (reload_deps sc (sourceUrl v) l ap, x) ->
  Forall (keeps_reload_deps sc l ap) more ->
  rafs (fit v') = []
  /\ lastFittedSource (fit v') = lastFittedSource (fit v)
  /\ exists evs, fit_log (fit v') = fit_log (fit v) ++ evs
       /\ Forall (fun e => is_reload_fit e = false) evs.
Proof.
  intros v v' R E K. subst v'.
  pose proof (view_fit_run pdb acts) as I. fold v in I.
  remember (lastFittedSource (fit v)) as last eqn:L. symmetry in L.
  clearbody v. revert v I R E L.
  induction K as [ | a more Ka _ IH]; intros v I R E L.
  - simpl. repeat split; auto. exists []. now rewrite app_nil_r.
  - simpl.
    destruct (@not_retried_step pdb sc l ap x last v a Ka I R E L)
      as ((R1 & E1 & L1) & evs1 & G1 & F1).
    destruct (IH (step pdb v a) (view_fit_step pdb a I) R1 E1 L1)
      as (R2 & L2 & evs2 & G2 & F2).
    split; [exact R2 | ]. split; [exact L2 | ].
    exists (evs1 ++ evs2). rewrite G2, G1, app_assoc. split; [reflexivity | ].
    apply Forall_app. auto.
Qed.

Lemma failed_fit_not_retried_witness :
  let v := run sample_builders mount
             [Render (loaded default_controls); Frame all_fine; Frame fit_fails] in
  let more := [Render (loaded (with_representation ribbon_tube default_controls));
               Frame all_fine; Timeout all_fine;
               Render (loaded (with_background "#ffffff" default_controls));
               Frame all_fine; Frame all_fine] in
  rafs (fit v) = [] /\ lastFittedSource (fit v) = None
  /\ Forall (keeps_reload_deps (Some 7) false 1) more
  /\ lastFittedSource (fit (run sample_builders v more)) = None.
Proof.
  intros v more.
  assert (K : Forall (keeps_reload_deps (Some 7) false 1) more)
    by (repeat constructor).
  destruct (@failed_fit_not_retried sample_builders
              [Render (loaded default_controls); Frame all_fine; Frame fit_fails]
              more (Some 7) false 1 (Some 0) eq_refl eq_refl K) as (_ & H & _).
  split; [reflexivity | ]. split; [reflexivity | ]. split; [exact K | exact H].
Defined.





(* ===================================================================== *)
(** ** Properties of the view without representation modes *)



(** One render pass of the view without representation modes. *)
Lemma spheres_only_anatomy pdb p v :
  let ctl := SpheresOnly.controls p in
  let c := SpheresOnly.cache v in
  let opts := fst (SpheresOnly.derive_options ctl (next_ref c)) in
  let n := snd (SpheresOnly.derive_options ctl (next_ref c)) in
  exists o mo n1 ev1,
    useMemo (memo_objects c) (objects_deps (SpheresOnly.scene p) opts)
            (build_objects pdb (SpheresOnly.scene p) opts) n = (o, mo, n1, ev1)
    /\ SpheresOnly.shown (SpheresOnly.render pdb p v) = SpheresOnly.display o
    /\ SpheresOnly.cache (SpheresOnly.render pdb p v)
       = SpheresOnly.commit_cache o
           {| next_ref := n1; memo_objects := mo; eff_objects := eff_objects c;
              memo_cartoon := memo_cartoon c; eff_cartoon := eff_cartoon c;
              calls := calls c ++ ev1 |}.
Proof.
  intros ctl c opts n. subst ctl c opts n. unfold SpheresOnly.render.
  destruct (SpheresOnly.derive_options _ _) as [opts n].
  unfold useSceneObjects. simpl.
  destruct (useMemo (memo_objects (SpheresOnly.cache v)) _ _ n) as [[[o mo] n1] ev1] eqn:Eo.
  exists o, mo, n1, ev1. simpl. auto.
Qed.










Lemma spheres_only_pass_calls pdb p v :
  let c := SpheresOnly.cache v in
  let opts := fst (SpheresOnly.derive_options (SpheresOnly.controls p) (next_ref c)) in
  exists o mo n n1 ev1,
    useMemo (memo_objects c) (objects_deps (SpheresOnly.scene p) opts)
            (build_objects pdb (SpheresOnly.scene p) opts) n = (o, mo, n1, ev1)
    /\ n = snd (SpheresOnly.derive_options (SpheresOnly.controls p) (next_ref c))
    /\ current_objects (SpheresOnly.cache (SpheresOnly.render pdb p v)) = o
    /\ SpheresOnly.shown (SpheresOnly.render pdb p v) = SpheresOnly.display o
    /\ calls (SpheresOnly.cache (SpheresOnly.render pdb p v))
       = calls c ++ ev1
         ++ (if effect_due (eff_objects c) (dispose_deps o)
             then cleanup_calls dispose_objects (captured (eff_objects c)) else []).
Proof.
  intros c opts.
  destruct (spheres_only_anatomy pdb p v) as (o & mo & n1 & ev1 & Eo & Es & Ec).
  exists o, mo. eexists. exists n1, ev1. split; [exact Eo | ]. split; [reflexivity | ].
  pose proof (useMemo_stored _ _ _ _ Eo) as Sm.
  rewrite Ec, Es. unfold current_objects. simpl. rewrite Sm, <- app_assoc. auto.
Qed.

Lemma panel_build_objects pdb p n n' :
  Forall (panel_request p)
         (snd (build_objects pdb (SpheresOnly.scene p)
                 (fst (SpheresOnly.derive_options (SpheresOnly.controls p) n)) n')).
Proof.
  unfold SpheresOnly.derive_options, build_objects.
  destruct (SpheresOnly.scene p) as [s | ] eqn:Es; [ | constructor].
  unfold build_atoms, build_bonds, build_backbone.
  destruct (SpheresOnly.render_atoms (SpheresOnly.controls p)) eqn:A;
    destruct (SpheresOnly.render_backbone (SpheresOnly.controls p)) eqn:K;
    destruct (SpheresOnly.render_bonds (SpheresOnly.controls p)) eqn:B; simpl;
    repeat match goal with
           | |- context [build_primitive ?r ?m] => destruct (build_primitive r m)
           end; simpl; repeat constructor; simpl; auto.
Qed.

(** X18.  In the view without representation modes every builder call of a
    render pass is one the "Render" panel asks for: makeAtomsMesh,
    makeBondLines and makeBackboneLines are called only while their toggle
    is on, with the scene of the pass; the atom options are the panel values
    (the defaults of useSceneObjects are never taken), the backbone colour
    is the default white, and no ribbon builder is ever called. *)
Theorem spheres_only_requests pdb acts p :
  let v := SpheresOnly.run pdb SpheresOnly.mount acts in
  let v' := SpheresOnly.step pdb v (SpheresOnly.Render p) in
  Forall (panel_request p)
         (since (calls (SpheresOnly.cache v)) (calls (SpheresOnly.cache v'))).
Proof.
  intros v v'. subst v'. simpl. destruct (SpheresOnly.mounted v);
    [ | rewrite since_same; constructor].
  destruct (spheres_only_pass_calls pdb p v)
    as (o & mo & n & n1 & ev1 & Eo & _ & _ & _ & Ecalls).
  rewrite Ecalls, since_app. apply Forall_app. split.
  - eapply memo_calls; [exact Eo | ]. apply panel_build_objects.
  - assert (D : Forall (fun e => is_builder_call e = false)
                  (if effect_due (eff_objects (SpheresOnly.cache v)) (dispose_deps o)
                   then cleanup_calls dispose_objects
                          (captured (eff_objects (SpheresOnly.cache v)))
                   else []))
      by (apply cleanup_is_dispose; apply dispose_objects_calls).
    eapply Forall_impl; [ | exact D].
    intros [ | | | | | r]; simpl; try discriminate; auto.
Qed.


